(** * AppLift: rep segmentation, per-rep smoothness and session fatigue

    A shallow embedding of the numeric core of the AppLift ML scripts:

    - [compute_ldlj], [compute_fatigue_indicators] and the nested
      [get_consistency] / [get_trend] of
      [ml_scripts/scripts/performance_visualizer.py];
    - [find_valleys] and [resegment_single_source] of
      [ml_scripts/scripts/resegment_reps_fixed.py];
    - the concentric/eccentric phase split of [extract_features_per_rep]
      in [ml_scripts/main_csv.py];
    - [compute_range_of_motion] and [analyze_session_data] of
      [performance_visualizer.py], the latter on dataframes without the
      optional accelerometer and gyroscope columns;
    - [resegment_reps] of [resegment_reps_fixed.py], which runs
      [resegment_single_source] on each source file and renumbers the reps;
    - [calculate_range_of_motion] and the smoothness block of
      [extract_features_per_rep] in [main_csv.py].

    Numbers.  Python floats and numpy float64 values are modelled by exact
    rationals ([Q]); counts and indices by [Z] and [nat].  Rounding error of
    binary floating point is therefore outside the model, and so are NaN and
    infinities: where numpy would produce an infinity that Python then
    refuses to convert (division by a zero sample interval) the model
    reports the exception.

    Exceptions.  A computation that can raise is a value of [option]:
    [None] stands for an uncaught Python exception.  [try: ... except:]
    blocks become a [match] on that option.

    Library code.  [scipy.signal.find_peaks], [scipy.signal.savgol_filter]
    and the square root of numpy are not part of the repository.  They are
    taken through the interface [Scipy], which carries the part of their
    documented contract that the scripts rely on.  [RefScipy] is an
    executable instance used to run the scripts on concrete sessions. *)

From Stdlib Require Import String Ascii.
From Stdlib Require Import QArith Qround Qminmax Qabs Lqa Lia ZArith Bool.
From Stdlib Require Import List Sorted Arith DecimalString.
Import ListNotations.

Set Implicit Arguments.
Set Warnings "-register-all".
Open Scope string_scope.
Open Scope list_scope.
Open Scope Q_scope.

(* ===================================================================== *)
(** * Python and numpy primitives                                          *)
(* ===================================================================== *)

Module Np.

(** The option monad used for code that can raise. *)
Definition bind {A B : Type} (c : option A) (k : A -> option B) : option B :=
  match c with
  | Some a => k a
  | None => None
  end.

(** [max(a, b)] and [min(a, b)] of Python: the first argument wins ties. *)
Definition py_max (a b : Q) : Q := if Qlt_le_dec a b then b else a.
Definition py_min (a b : Q) : Q := if Qlt_le_dec b a then b else a.

(** [x > y], [x >= y], [x == y] on numbers, as booleans. *)
Definition gtb (x y : Q) : bool := negb (Qle_bool x y).
Definition geb (x y : Q) : bool := Qle_bool y x.
Definition ltb (x y : Q) : bool := negb (Qle_bool y x).
Definition leb (x y : Q) : bool := Qle_bool x y.
Definition eqb (x y : Q) : bool := Qeq_bool x y.

Definition of_nat (n : nat) : Q := inject_Z (Z.of_nat n).

(** [int(x)]: truncation towards zero. *)
Definition py_int (x : Q) : Z := Z.quot (Qnum x) (Zpos (Qden x)).

(** Rounding to the nearest integer, ties to the even one. *)
Definition round_half_even (x : Q) : Z :=
  let f := Qfloor x in
  let r := x - inject_Z f in
  if Qlt_le_dec r (1 # 2) then f
  else if Qlt_le_dec (1 # 2) r then (f + 1)%Z
  else if Z.even f then f else (f + 1)%Z.

(** [round(x, ndigits)] of an exact number.  The scripts round the
    floating-point number they computed, which can fall on the other side
    of a tie; statements on reported values therefore say that the value
    reported is within half a unit of the last decimal kept. *)
Definition py_round (x : Q) (ndigits : nat) : Q :=
  let scale := inject_Z (10 ^ Z.of_nat ndigits) in
  inject_Z (round_half_even (x * scale)) / scale.

(** [a[-1]]. *)
Definition last_error {A : Type} (l : list A) : option A :=
  match l with
  | [] => None
  | x :: tl => Some (last tl x)
  end.

(** [a[lo:hi]] for [0 <= lo], [0 <= hi]. *)
Definition slice {A : Type} (l : list A) (lo hi : nat) : list A :=
  firstn (hi - lo) (skipn lo l).

(** [a[-k:]] for [k >= 1]. *)
Definition last_k {A : Type} (l : list A) (k : nat) : list A :=
  skipn (length l - k) l.

Definition np_sum (l : list Q) : Q := fold_left Qplus l 0.

(** [np.mean]; the scripts only take the mean of non-empty arrays. *)
Definition np_mean (l : list Q) : Q := np_sum l / of_nat (length l).

(** [np.max] / [np.min]: [ValueError] on an empty array. *)
Definition np_max (l : list Q) : option Q :=
  match l with
  | [] => None
  | x :: tl => Some (fold_left (fun m y => if Qlt_le_dec m y then y else m) tl x)
  end.

Definition np_min (l : list Q) : option Q :=
  match l with
  | [] => None
  | x :: tl => Some (fold_left (fun m y => if Qlt_le_dec y m then y else m) tl x)
  end.

(** [np.argmax] / [np.argmin]: index of the first extremum. *)
Fixpoint argmax_from (i best : nat) (m : Q) (l : list Q) : nat :=
  match l with
  | [] => best
  | y :: tl => if Qlt_le_dec m y then argmax_from (S i) i y tl
               else argmax_from (S i) best m tl
  end.

Definition np_argmax (l : list Q) : option nat :=
  match l with
  | [] => None
  | x :: tl => Some (argmax_from 1 0 x tl)
  end.

Fixpoint argmin_from (i best : nat) (m : Q) (l : list Q) : nat :=
  match l with
  | [] => best
  | y :: tl => if Qlt_le_dec y m then argmin_from (S i) i y tl
               else argmin_from (S i) best m tl
  end.

Definition np_argmin (l : list Q) : option nat :=
  match l with
  | [] => None
  | x :: tl => Some (argmin_from 1 0 x tl)
  end.

(** [np.diff]. *)
Fixpoint np_diff (l : list Q) : list Q :=
  match l with
  | x :: ((y :: _) as tl) => (y - x) :: np_diff tl
  | _ => []
  end.

(** [np.sign]. *)
Definition np_sign (x : Q) : Q :=
  if Qlt_le_dec 0 x then 1 else if Qlt_le_dec x 0 then -(1) else 0.

Definition np_neg (l : list Q) : list Q := map Qopp l.

(** Number of entries different from zero: [np.sum(a != 0)]. *)
Definition count_nonzero (l : list Q) : nat :=
  length (filter (fun x => negb (Qeq_bool x 0)) l).

(** Element-wise binary operation with numpy broadcasting of 1-d arrays:
    equal lengths, or one operand of length one; anything else raises. *)
Fixpoint zip_with (f : Q -> Q -> Q) (xs ys : list Q) : list Q :=
  match xs, ys with
  | x :: xs', y :: ys' => f x y :: zip_with f xs' ys'
  | _, _ => []
  end.

Definition broadcast (f : Q -> Q -> Q) (xs ys : list Q) : option (list Q) :=
  if (length xs =? length ys)%nat then Some (zip_with f xs ys)
  else match xs, ys with
       | [x], _ => Some (map (f x) ys)
       | _, [y] => Some (map (fun x => f x y) xs)
       | _, _ => None
       end.

(** Insertion sort, for [np.median] and [sorted]. *)
Fixpoint insert_sorted (x : Q) (l : list Q) : list Q :=
  match l with
  | [] => [x]
  | y :: tl => if Qle_bool x y then x :: l else y :: insert_sorted x tl
  end.

Definition sort (l : list Q) : list Q := fold_right insert_sorted [] l.

(** [np.median] of a non-empty array. *)
Definition np_median (l : list Q) : Q :=
  let s := sort l in
  let n := length s in
  if Nat.even n
  then (nth (n / 2 - 1) s 0 + nth (n / 2) s 0) / 2
  else nth (n / 2) s 0.

End Np.

Notation "x <- c ;; k" := (Np.bind c (fun x => k))
  (at level 61, c at next level, right associativity).

(* ===================================================================== *)
(** * Python values                                                        *)
(* ===================================================================== *)

(** Dictionaries keep their keys in insertion order, as Python's do. *)
Inductive pyval : Type :=
| VNum (q : Q)
| VStr (s : string)
| VBool (b : bool)
| VList (l : list pyval)
| VDict (d : list (string * pyval)).

Fixpoint assoc {A : Type} (key : string) (d : list (string * A)) : option A :=
  match d with
  | [] => None
  | (k, v) :: tl => if String.eqb k key then Some v else assoc key tl
  end.

(** [d[key]] on a dictionary value. *)
Definition dict_get (v : pyval) (key : string) : option pyval :=
  match v with
  | VDict d => assoc key d
  | _ => None
  end.

(** Every number stored in a value, at any depth. *)
Fixpoint numeric_leaves (v : pyval) : list Q :=
  match v with
  | VNum q => [q]
  | VList l => flat_map numeric_leaves l
  | VDict d => flat_map (fun kv => numeric_leaves (snd kv)) d
  | VStr _ | VBool _ => []
  end.

(** A dictionary of numbers: one entry of [rep_metrics_list], or one entry
    of [rep_info]. *)
Definition metrics : Type := list (string * Q).

(** [m.get(key, default)]. *)
Definition get (m : metrics) (key : string) (default : Q) : Q :=
  match assoc key m with
  | Some v => v
  | None => default
  end.

(** [f"{x:.1f}"]. *)
Definition format_1f (x : Q) : string :=
  let r := Np.round_half_even (x * 10) in
  let a := Z.abs r in
  ((if (r <? 0)%Z then "-" else "") ++
   DecimalString.NilZero.string_of_uint (N.to_uint (Z.to_N (a / 10))) ++ "." ++
   DecimalString.NilZero.string_of_uint (N.to_uint (Z.to_N (a mod 10))))%string.

(* ===================================================================== *)
(** * The scipy/numpy interface                                            *)
(* ===================================================================== *)

(** [find_peaks x distance prominence] is
    [scipy.signal.find_peaks(x, distance=..., prominence=...)[0]] for a
    valid [distance]; the peaks it returns are strictly inside the array and
    in increasing order.  [savgol_filter x window_length polyorder] keeps
    the length of its input.  [np_sqrt] maps zero to zero. *)
Class Scipy : Type := {
  find_peaks : list Q -> option Z -> Q -> list nat;
  savgol_filter : list Q -> nat -> nat -> list Q;
  np_sqrt : Q -> Q;
  find_peaks_sorted :
    forall x d p, StronglySorted lt (find_peaks x d p);
  find_peaks_interior :
    forall x d p i, In i (find_peaks x d p) -> (1 <= i /\ S i < length x)%nat;
  savgol_filter_length :
    forall x w k, length (savgol_filter x w k) = length x;
  np_sqrt_zero :
    forall x, x == 0 -> np_sqrt x == 0
}.

(** [find_peaks] as the scripts call it: scipy raises [ValueError] when a
    [distance] below one is passed. *)
Definition find_peaks_call {lib : Scipy} (x : list Q) (distance : option Z)
    (prominence : Q) : option (list nat) :=
  match distance with
  | Some d => if (d <? 1)%Z then None else Some (find_peaks x distance prominence)
  | None => Some (find_peaks x distance prominence)
  end.

(** [np.std]: population standard deviation. *)
Definition np_std {lib : Scipy} (l : list Q) : Q :=
  let m := Np.np_mean l in
  np_sqrt (Np.np_mean (map (fun x => (x - m) * (x - m)) l)).

(* ===================================================================== *)
(** * performance_visualizer.py                                           *)
(* ===================================================================== *)

Module PerformanceVisualizer.

Section WithScipy.
Context {lib : Scipy}.

(** ** [compute_ldlj] *)

(** The three clamped contributions and the two scores (source lines
    248-276), as a function of the normalized jerk, the direction-change
    rate and the number of detected peaks and valleys. *)
Definition ldlj_scores (normalized_jerk direction_rate : Q) (total_peaks : Z)
    : Q * Q :=
  let excess_peaks := Z.max 0 (total_peaks - 2) in
  let jerk_contrib := Np.py_min 40 (Np.py_max 0 (normalized_jerk - 1.5) * 13.3) in
  let dir_contrib := Np.py_min 35 (Np.py_max 0 (direction_rate - 0.5) * 10) in
  let peaks_contrib := Np.py_min 25 (inject_Z excess_peaks * 3.3) in
  let irregularity_score := jerk_contrib + dir_contrib + peaks_contrib in
  let smoothness_score := Np.py_max 0 (Np.py_min 100 (100 - irregularity_score)) in
  (irregularity_score, smoothness_score).

(** [np.sqrt(accel_x**2 + accel_y**2 + accel_z**2)]. *)
Definition accel_magnitude (accel_x accel_y accel_z : list Q) : option (list Q) :=
  let sq := map (fun v => v * v) in
  xy <- Np.broadcast Qplus (sq accel_x) (sq accel_y) ;;
  xyz <- Np.broadcast Qplus xy (sq accel_z) ;;
  Some (map np_sqrt xyz).

(** The body of the [try] block; [None] is a raised exception. *)
Definition compute_ldlj_try (accel_x accel_y accel_z timestamps_ms : list Q)
    (filtered_mag : option (list Q)) : option (Q * Q) :=
  if (length accel_x <? 4)%nat then Some (0, 50) else
  t_last <- Np.last_error timestamps_ms ;;
  t_first <- hd_error timestamps_ms ;;
  let duration := (t_last - t_first) / 1000 in
  if Np.leb duration 0 then Some (0, 50) else
  let dt := duration / (Np.of_nat (length timestamps_ms) - 1) in
  signal <- match filtered_mag with
            | Some fm =>
                if (length fm =? length accel_x)%nat then Some fm
                else accel_magnitude accel_x accel_y accel_z
            | None => accel_magnitude accel_x accel_y accel_z
            end ;;
  hi <- Np.np_max signal ;;
  lo <- Np.np_min signal ;;
  let rom := if Np.ltb (hi - lo) 0.1 then 0.1 else hi - lo in
  let velocity := map (fun v => v / dt) (Np.np_diff signal) in
  let jerk := if (1 <? length velocity)%nat
              then map (fun v => Qabs (v / dt)) (Np.np_diff velocity)
              else [0] in
  let mean_jerk := if (0 <? length jerk)%nat then Np.np_mean jerk else 0 in
  let normalized_jerk := mean_jerk / rom in
  let sign_changes := Np.np_diff (map Np.np_sign velocity) in
  let direction_changes := Np.count_nonzero sign_changes in
  let direction_rate :=
    if Np.gtb duration 0 then Np.of_nat direction_changes / duration else 0 in
  let prominence := rom * 0.05 in
  peaks <- find_peaks_call signal None prominence ;;
  valleys <- find_peaks_call (Np.np_neg signal) None prominence ;;
  let total_peaks := Z.of_nat (length peaks + length valleys) in
  Some (ldlj_scores normalized_jerk direction_rate total_peaks).

(** [compute_ldlj]: returns [(irregularity_score, smoothness_score)]. *)
Definition compute_ldlj (accel_x accel_y accel_z timestamps_ms : list Q)
    (filtered_mag : option (list Q)) : Q * Q :=
  match compute_ldlj_try accel_x accel_y accel_z timestamps_ms filtered_mag with
  | Some r => r
  | None => (0, 50)
  end.

(** ** [compute_fatigue_indicators] *)

(** The dictionary returned for fewer than three reps (source lines
    347-393). *)
Definition insufficient_data (n : nat) : pyval :=
  VDict [
    ("fatigue_score", VNum 0);
    ("fatigue_level", VStr "insufficient_data");
    ("D_omega", VNum 0);
    ("I_T", VNum 0);
    ("I_J", VNum 0);
    ("I_S", VNum 0);
    ("gyro_direction", VStr "stable");
    ("consistency_score", VNum 0);
    ("rom_trend", VNum 0);
    ("smoothness_trend", VNum 0);
    ("duration_trend", VNum 0);
    ("peak_trend", VNum 0);
    ("rom_consistency", VNum 0);
    ("smoothness_consistency", VNum 0);
    ("duration_consistency", VNum 0);
    ("peak_consistency", VNum 0);
    ("rom_change_percent", VNum 0);
    ("smoothness_degradation_percent", VNum 0);
    ("early_vs_late", VDict [
       ("rom_change_percent", VNum 0);
       ("smoothness_degradation_percent", VNum 0);
       ("duration_increase_percent", VNum 0);
       ("peak_degradation_percent", VNum 0);
       ("gyro_peak_change_percent", VNum 0);
       ("jerk_increase_percent", VNum 0);
       ("shakiness_increase_percent", VNum 0);
       ("avg_gyro_peak_first", VNum 0);
       ("avg_gyro_peak_last", VNum 0);
       ("avg_shakiness_first", VNum 0);
       ("avg_shakiness_last", VNum 0);
       ("avg_rom_first", VNum 0);
       ("avg_rom_last", VNum 0);
       ("avg_smoothness_first", VNum 0);
       ("avg_smoothness_last", VNum 0);
       ("avg_duration_first_ms", VNum 0);
       ("avg_duration_last_ms", VNum 0)]);
    ("performance_report", VDict [
       ("session_quality", VStr "Insufficient Data");
       ("consistency_rating", VStr "Unknown");
       ("key_findings", VList [VStr "⚠️ Need at least 3 reps for analysis"])]);
    ("n_reps_analyzed", VNum (Np.of_nat n))
  ].

(** Per-rep columns. *)
Definition column (l : list metrics) (key : string) (default : Q) : list Q :=
  map (fun m => get m key default) l.

Definition any_positive (vals : list Q) : bool :=
  existsb (fun v => Np.gtb v 0) vals.

Definition third (l : list metrics) : nat := Nat.max 1 (length l / 3).

Definition gyro_peaks (l : list metrics) : list Q := column l "gyro_peak" 0.
Definition has_gyro (l : list metrics) : bool := any_positive (gyro_peaks l).
Definition shakiness_vals (l : list metrics) : list Q := column l "shakiness" 0.
Definition has_shakiness (l : list metrics) : bool :=
  any_positive (shakiness_vals l).
Definition durations (l : list metrics) : list Q := column l "duration_ms" 0.
Definition jerk_values (l : list metrics) : list Q := column l "mean_jerk" 0.
Definition has_rom_degrees (l : list metrics) : bool :=
  any_positive (column l "rom_degrees" 0).
Definition roms (l : list metrics) : list Q :=
  if has_rom_degrees l then column l "rom_degrees" 0 else column l "rom" 0.
Definition smoothness (l : list metrics) : list Q :=
  column l "smoothness_score" 50.
Definition peaks (l : list metrics) : list Q := column l "peak" 0.

(** Mean over the first third, [np.mean(v[:third])], and over the last
    third, [np.mean(v[-third:])]. *)
Definition avg_first (l : list metrics) (vals : list Q) : Q :=
  Np.np_mean (firstn (third l) vals).
Definition avg_last (l : list metrics) (vals : list Q) : Q :=
  Np.np_mean (Np.last_k vals (third l)).

(** The four indicators (source lines 439-471). *)
Definition D_omega (l : list metrics) : Q :=
  let vals := if has_gyro l then gyro_peaks l else peaks l in
  let first := avg_first l vals in
  let last := avg_last l vals in
  if Np.gtb first 0 then Qabs (first - last) / first else 0.

Definition gyro_direction (l : list metrics) : string :=
  let vals := if has_gyro l then gyro_peaks l else peaks l in
  if Np.ltb (avg_last l vals) (avg_first l vals) then "drop" else "surge".

Definition avg_dur_first (l : list metrics) : Q := avg_first l (durations l).
Definition avg_dur_last (l : list metrics) : Q := avg_last l (durations l).
Definition I_T (l : list metrics) : Q :=
  if Np.gtb (avg_dur_first l) 0
  then (avg_dur_last l - avg_dur_first l) / avg_dur_first l else 0.

Definition avg_jerk_first (l : list metrics) : Q := avg_first l (jerk_values l).
Definition avg_jerk_last (l : list metrics) : Q := avg_last l (jerk_values l).
Definition I_J (l : list metrics) : Q :=
  if Np.gtb (avg_jerk_first l) 0
  then (avg_jerk_last l - avg_jerk_first l) / avg_jerk_first l else 0.

Definition avg_shaky_first (l : list metrics) : Q :=
  if has_shakiness l then avg_first l (shakiness_vals l) else 0.
Definition avg_shaky_last (l : list metrics) : Q :=
  if has_shakiness l then avg_last l (shakiness_vals l) else 0.
Definition I_S (l : list metrics) : Q :=
  if has_shakiness l then
    if Np.gtb (avg_shaky_first l) 0
    then (avg_shaky_last l - avg_shaky_first l) / avg_shaky_first l else 0
  else 0.

(** The composite score (source lines 473-505). *)
Definition D_omega_clamped (l : list metrics) : Q := Np.py_max 0 (D_omega l).
Definition I_T_clamped (l : list metrics) : Q := Np.py_max 0 (I_T l).
Definition I_J_clamped (l : list metrics) : Q := Np.py_max 0 (I_J l).
Definition I_S_clamped (l : list metrics) : Q := Np.py_max 0 (I_S l).

Definition worst_indicator (l : list metrics) : Q :=
  Np.py_max (Np.py_max (Np.py_max (D_omega_clamped l) (I_T_clamped l))
                       (I_J_clamped l))
            (I_S_clamped l).

Definition fatigue_raw (l : list metrics) : Q :=
  let fatigue_raw := 0.35 * D_omega_clamped l + 0.25 * I_T_clamped l +
                     0.20 * I_J_clamped l + 0.20 * I_S_clamped l in
  if Np.gtb (worst_indicator l) 0.40 then
    let boost := (worst_indicator l - 0.40) * 0.5 in
    Np.py_min 1 (fatigue_raw + boost)
  else fatigue_raw.

Definition fatigue_score (l : list metrics) : Q :=
  Np.py_min 100 (fatigue_raw l * 100).

Definition fatigue_level (l : list metrics) : string :=
  let fatigue_score := fatigue_score l in
  if Np.ltb fatigue_score 10 then "minimal"
  else if Np.ltb fatigue_score 20 then "low"
  else if Np.ltb fatigue_score 35 then "moderate"
  else if Np.ltb fatigue_score 55 then "high"
  else "severe".

(** Slope of [stats.linregress(x, y)]: covariance of [x] and [y] over the
    variance of [x]. *)
Definition linregress_slope (x y : list Q) : Q :=
  let xm := Np.np_mean x in
  let ym := Np.np_mean y in
  let ssxm := Np.np_mean (map (fun a => (a - xm) * (a - xm)) x) in
  let ssxym := Np.np_mean (Np.zip_with (fun a b => (a - xm) * (b - ym)) x y) in
  ssxym / ssxm.

(** [np.arange(n)]. *)
Definition arange (n : nat) : list Q := map Np.of_nat (seq 0 n).

Definition get_trend (rep_indices values : list Q) : Q :=
  if (length values <? 2)%nat || Np.eqb (np_std values) 0 then 0
  else
    let slope := linregress_slope rep_indices values in
    if negb (Np.eqb (Np.np_mean values) 0)
    then slope / Np.np_mean values * 100
    else 0.

Definition get_consistency (values : list Q) : Q :=
  if (length values <? 2)%nat || Np.eqb (Np.np_mean values) 0 then 0
  else
    let cv := np_std values / Np.np_mean values in
    let consistency := Np.py_max 0 (100 - cv * 333) in
    Np.py_min 100 consistency.

Definition consistency_score (l : list metrics) : Q :=
  Np.np_mean [get_consistency (roms l); get_consistency (smoothness l);
              get_consistency (durations l); get_consistency (peaks l)].

(** Early versus late comparison (source lines 558-601). *)
Definition percent_change (first last : Q) : Q :=
  if Np.gtb first 0 then (last - first) / first * 100 else 0.
Definition percent_drop (first last : Q) : Q :=
  if Np.gtb first 0 then (first - last) / first * 100 else 0.

Definition avg_rom_first (l : list metrics) : Q := avg_first l (roms l).
Definition avg_rom_last (l : list metrics) : Q := avg_last l (roms l).
Definition rom_change_pct (l : list metrics) : Q :=
  percent_change (avg_rom_first l) (avg_rom_last l).
Definition avg_smooth_first (l : list metrics) : Q := avg_first l (smoothness l).
Definition avg_smooth_last (l : list metrics) : Q := avg_last l (smoothness l).
Definition smoothness_degradation (l : list metrics) : Q :=
  percent_drop (avg_smooth_first l) (avg_smooth_last l).
Definition duration_increase (l : list metrics) : Q :=
  percent_change (avg_dur_first l) (avg_dur_last l).
Definition avg_gyro_first_val (l : list metrics) : Q :=
  if has_gyro l then avg_first l (gyro_peaks l) else 0.
Definition avg_gyro_last_val (l : list metrics) : Q :=
  if has_gyro l then avg_last l (gyro_peaks l) else 0.
Definition gyro_change_pct (l : list metrics) : Q :=
  if has_gyro l
  then percent_change (avg_gyro_first_val l) (avg_gyro_last_val l) else 0.
Definition jerk_increase_pct (l : list metrics) : Q :=
  percent_change (avg_jerk_first l) (avg_jerk_last l).
Definition shakiness_increase_pct (l : list metrics) : Q :=
  if has_shakiness l
  then percent_change (avg_shaky_first l) (avg_shaky_last l) else 0.
Definition peak_degradation (l : list metrics) : Q :=
  percent_drop (avg_first l (peaks l)) (avg_last l (peaks l)).

(** Labels of the performance report (source lines 607-627). *)
Definition get_session_quality (fatigue_score : Q) : string :=
  if Np.ltb fatigue_score 10 then "Excellent"
  else if Np.ltb fatigue_score 20 then "Good"
  else if Np.ltb fatigue_score 35 then "Fair"
  else if Np.ltb fatigue_score 55 then "Poor"
  else "Very Poor".

Definition get_consistency_rating (consistency_score : Q) : string :=
  if Np.geb consistency_score 70 then "Good"
  else if Np.geb consistency_score 50 then "Fair"
  else "Poor".

(** Trends and consistencies of the session. *)
Definition rep_indices (l : list metrics) : list Q := arange (length l).
Definition rom_trend (l : list metrics) : Q := get_trend (rep_indices l) (roms l).
Definition smoothness_trend (l : list metrics) : Q :=
  get_trend (rep_indices l) (smoothness l).
Definition duration_trend (l : list metrics) : Q :=
  get_trend (rep_indices l) (durations l).
Definition peak_trend (l : list metrics) : Q :=
  get_trend (rep_indices l) (peaks l).
Definition gyro_trend (l : list metrics) : Q :=
  if has_gyro l then get_trend (rep_indices l) (gyro_peaks l) else 0.
Definition gyro_consistency (l : list metrics) : Q :=
  if has_gyro l then get_consistency (gyro_peaks l) else 0.

(** The rule-based findings (source lines 656-693). *)
Definition key_findings (l : list metrics) : list string :=
  let findings :=
    (if Np.ltb (fatigue_score l) 10
     then ["✅ Excellent fatigue resistance — stable speed and jerk throughout"]
     else if Np.gtb (fatigue_score l) 45
     then ["⚠️ Significant fatigue detected — movement quality degraded notably"]
     else []) ++
    (if has_gyro l && Np.gtb (D_omega l) 0.15 then
       if String.eqb (gyro_direction l) "surge"
       then ["⚠️ Peak angular velocity SURGED " ++ format_1f (D_omega l * 100)
             ++ "% — compensatory swinging"]%string
       else ["⚠️ Peak angular velocity dropped " ++ format_1f (D_omega l * 100)
             ++ "% — muscles slowing"]%string
     else if has_gyro l && Np.ltb (D_omega l) 0.05
     then ["✅ Angular velocity stable (only " ++ format_1f (D_omega l * 100)
           ++ "% change)"]%string
     else []) ++
    (if has_shakiness l && Np.gtb (I_S l) 0.20
     then ["⚠️ Within-rep shakiness increased " ++ format_1f (I_S l * 100)
           ++ "% — losing motor control"]%string
     else if has_shakiness l && Np.ltb (I_S l) 0.05
     then ["✅ Movement shakiness stable throughout session"]
     else []) ++
    (if Np.gtb (I_T l) 0.15
     then ["⚠️ Rep duration increased " ++ format_1f (I_T l * 100)
           ++ "% — slowing down"]%string
     else []) ++
    (if Np.gtb (I_J l) 0.20
     then ["⚠️ Jerk increased " ++ format_1f (I_J l * 100)
           ++ "% — movement becoming less smooth"]%string
     else []) ++
    (if Np.gtb (consistency_score l) 85
     then ["✅ Highly consistent, controlled movements"]
     else if Np.ltb (consistency_score l) 60
     then ["⚠️ High variability — erratic rep execution"]
     else []) ++
    (if Np.ltb (rom_change_pct l) (-(20))
     then ["⚠️ ROM decreased by " ++ format_1f (Qabs (rom_change_pct l))
           ++ "% (early vs late reps) — losing range"]%string
     else if Np.gtb (rom_change_pct l) 20
     then ["⚠️ ROM increased by " ++ format_1f (rom_change_pct l)
           ++ "% (early vs late reps) — possible compensatory swinging"]%string
     else []) in
  match findings with
  | [] => ["📊 Moderate performance with mixed indicators"]
  | _ => findings
  end.

Definition performance_report (l : list metrics) : pyval :=
  VDict [
    ("session_quality", VStr (get_session_quality (fatigue_score l)));
    ("consistency_rating", VStr (get_consistency_rating (consistency_score l)));
    ("fatigue_components", VDict [
       ("D_omega", VNum (Np.py_round (D_omega l * 100) 2));
       ("I_T", VNum (Np.py_round (I_T l * 100) 2));
       ("I_J", VNum (Np.py_round (I_J l * 100) 2));
       ("I_S", VNum (Np.py_round (I_S l * 100) 2));
       ("gyro_direction", VStr (gyro_direction l));
       ("formula", VStr "F = 0.35·D_ω + 0.25·I_T + 0.20·I_J + 0.20·I_S")]);
    ("trend_analysis", VDict [
       ("rom_trend_percent_per_rep", VNum (Np.py_round (rom_trend l) 2));
       ("smoothness_trend_percent_per_rep", VNum (Np.py_round (smoothness_trend l) 2));
       ("duration_trend_percent_per_rep", VNum (Np.py_round (duration_trend l) 2));
       ("peak_trend_percent_per_rep", VNum (Np.py_round (peak_trend l) 2))]);
    ("consistency_breakdown", VDict [
       ("rom_consistency", VNum (Np.py_round (get_consistency (roms l)) 1));
       ("smoothness_consistency", VNum (Np.py_round (get_consistency (smoothness l)) 1));
       ("duration_consistency", VNum (Np.py_round (get_consistency (durations l)) 1));
       ("peak_consistency", VNum (Np.py_round (get_consistency (peaks l)) 1))]);
    ("key_findings", VList (map VStr (key_findings l)))
  ].

(** The dictionary returned by the full analysis (source lines 695-740). *)
Definition full_analysis (l : list metrics) : pyval :=
  VDict [
    ("fatigue_score", VNum (Np.py_round (fatigue_score l) 1));
    ("fatigue_level", VStr (fatigue_level l));
    ("D_omega", VNum (Np.py_round (D_omega l) 4));
    ("I_T", VNum (Np.py_round (I_T l) 4));
    ("I_J", VNum (Np.py_round (I_J l) 4));
    ("I_S", VNum (Np.py_round (I_S l) 4));
    ("gyro_direction", VStr (gyro_direction l));
    ("has_gyro", VBool (has_gyro l));
    ("consistency_score", VNum (Np.py_round (consistency_score l) 1));
    ("rom_trend", VNum (Np.py_round (rom_trend l) 2));
    ("smoothness_trend", VNum (Np.py_round (smoothness_trend l) 2));
    ("duration_trend", VNum (Np.py_round (duration_trend l) 2));
    ("peak_trend", VNum (Np.py_round (peak_trend l) 2));
    ("gyro_trend", VNum (Np.py_round (gyro_trend l) 2));
    ("rom_consistency", VNum (Np.py_round (get_consistency (roms l)) 1));
    ("smoothness_consistency", VNum (Np.py_round (get_consistency (smoothness l)) 1));
    ("duration_consistency", VNum (Np.py_round (get_consistency (durations l)) 1));
    ("peak_consistency", VNum (Np.py_round (get_consistency (peaks l)) 1));
    ("gyro_consistency",
       VNum (if has_gyro l then Np.py_round (gyro_consistency l) 1 else 0));
    ("rom_change_percent", VNum (Np.py_round (rom_change_pct l) 1));
    ("smoothness_degradation_percent",
       VNum (Np.py_round (smoothness_degradation l) 1));
    ("early_vs_late", VDict [
       ("rom_change_percent", VNum (Np.py_round (rom_change_pct l) 1));
       ("smoothness_degradation_percent",
          VNum (Np.py_round (smoothness_degradation l) 1));
       ("duration_increase_percent", VNum (Np.py_round (duration_increase l) 1));
       ("peak_degradation_percent", VNum (Np.py_round (peak_degradation l) 1));
       ("gyro_peak_change_percent", VNum (Np.py_round (gyro_change_pct l) 1));
       ("jerk_increase_percent", VNum (Np.py_round (jerk_increase_pct l) 1));
       ("shakiness_increase_percent",
          VNum (Np.py_round (shakiness_increase_pct l) 1));
       ("avg_gyro_peak_first", VNum (Np.py_round (avg_gyro_first_val l) 4));
       ("avg_gyro_peak_last", VNum (Np.py_round (avg_gyro_last_val l) 4));
       ("avg_shakiness_first", VNum (Np.py_round (avg_shaky_first l) 4));
       ("avg_shakiness_last", VNum (Np.py_round (avg_shaky_last l) 4));
       ("avg_rom_first", VNum (Np.py_round (avg_rom_first l) 2));
       ("avg_rom_last", VNum (Np.py_round (avg_rom_last l) 2));
       ("avg_smoothness_first", VNum (Np.py_round (avg_smooth_first l) 1));
       ("avg_smoothness_last", VNum (Np.py_round (avg_smooth_last l) 1));
       ("avg_duration_first_ms", VNum (Np.py_round (avg_dur_first l) 0));
       ("avg_duration_last_ms", VNum (Np.py_round (avg_dur_last l) 0))]);
    ("performance_report", performance_report l);
    ("n_reps_analyzed", VNum (Np.of_nat (length l)))
  ].

(** [compute_fatigue_indicators].  The full analysis runs inside a
    [try] block whose handler returns an all-zero dictionary with level
    ["error"]; on a list of numeric dictionaries no operation of the block
    raises (every mean is over a non-empty slice and every division is
    guarded), so the handler does not appear here. *)
Definition compute_fatigue_indicators (rep_metrics_list : list metrics) : pyval :=
  if (length rep_metrics_list <? 3)%nat
  then insufficient_data (length rep_metrics_list)
  else full_analysis rep_metrics_list.

(** ** [compute_range_of_motion] *)

(** The dictionary of range-of-motion values of one rep; [signal_name] is
    accepted and not used, as in the source. *)
Definition compute_range_of_motion (signal : list Q) (signal_name : string)
    : option metrics :=
  if (length signal <? 2)%nat
  then Some [("rom", 0); ("rom_normalized", 0); ("peak", 0); ("trough", 0)]
  else
    peak <- Np.np_max signal ;;
    trough <- Np.np_min signal ;;
    let rom := peak - trough in
    let rom_normalized :=
      if Np.gtb (Np.np_mean (map Qabs signal)) 0
      then Np.py_min 100 (rom / Np.np_mean (map Qabs signal) * 50)
      else 0 in
    Some [("rom", rom); ("rom_normalized", rom_normalized);
          ("peak", peak); ("trough", trough);
          ("mean", Np.np_mean signal); ("std", np_std signal)].

End WithScipy.

End PerformanceVisualizer.

(* ===================================================================== *)
(** * resegment_reps_fixed.py                                              *)
(* ===================================================================== *)

Module Resegment.

(** ** Exercise profiles *)

Inductive exercise : Type :=
| CONCENTRATION_CURLS
| OVERHEAD_EXTENSION
| BENCH_PRESS
| BACK_SQUAT
| LATERAL_PULLDOWN
| SEATED_LEG_EXTENSION
| UNKNOWN.

(** [str.upper()] on ASCII letters, and [needle in haystack].  The two
    agree on strings of ASCII characters; Python also turns some letters
    outside ASCII into ASCII capitals, which is outside the model, so
    statements that depend on the exercise detected from a file name
    assume a name of ASCII characters. *)
Definition upper_ascii (c : ascii) : ascii :=
  let n := nat_of_ascii c in
  if (97 <=? n)%nat && (n <=? 122)%nat then ascii_of_nat (n - 32) else c.

Fixpoint upper (s : string) : string :=
  match s with
  | EmptyString => EmptyString
  | String c tl => String (upper_ascii c) (upper tl)
  end.

Fixpoint contains (needle haystack : string) : bool :=
  String.prefix needle haystack ||
  match haystack with
  | EmptyString => false
  | String _ tl => contains needle tl
  end.

(** Exercise detected from the name of the source file (source lines
    288-305); [None] when the dataframe has no ['source_file'] column. *)
Definition detect_exercise (source_file : option string) : exercise :=
  match source_file with
  | None => UNKNOWN
  | Some f =>
      let u := upper f in
      if contains "CONCENTRATION_CURLS" u || contains "CONCENTRATION CURLS" u
      then CONCENTRATION_CURLS
      else if contains "OVERHEAD_EXTENSION" u || contains "OVERHEAD EXTENSION" u
      then OVERHEAD_EXTENSION
      else if contains "BENCH_PRESS" u || contains "BENCH PRESS" u
      then BENCH_PRESS
      else if contains "BACK_SQUAT" u || contains "BACK SQUAT" u
      then BACK_SQUAT
      else if contains "LATERAL_PULLDOWN" u || contains "LATERAL PULLDOWN" u
              || contains "LAT_PULLDOWN" u
      then LATERAL_PULLDOWN
      else if contains "SEATED_LEG_EXTENSION" u
              || contains "SEATED LEG EXTENSION" u || contains "LEG_EXTENSION" u
      then SEATED_LEG_EXTENSION
      else UNKNOWN
  end.

Definition is_weight_stack (e : exercise) : bool :=
  match e with
  | LATERAL_PULLDOWN | SEATED_LEG_EXTENSION => true
  | _ => false
  end.

Record profile : Type := {
  prominence_factor : Q;
  std_factor : Q;
  min_prominence_floor : Q;
  min_rep_duration_ms : Q;
  max_rep_duration_ms : Q
}.

(** Exercise-specific parameters (source lines 334-390); the two durations
    are the ones passed by the caller, tightened per exercise. *)
Definition profile_of (e : exercise) (min_ms max_ms : Q) : profile :=
  match e with
  | CONCENTRATION_CURLS | OVERHEAD_EXTENSION =>
      {| prominence_factor := 0.1; std_factor := 0.5;
         min_prominence_floor := 0.1;
         min_rep_duration_ms := Np.py_max min_ms 800;
         max_rep_duration_ms := Np.py_min max_ms 8000 |}
  | BENCH_PRESS =>
      {| prominence_factor := 0.1; std_factor := 0.5;
         min_prominence_floor := 0.1;
         min_rep_duration_ms := Np.py_max min_ms 1000;
         max_rep_duration_ms := Np.py_min max_ms 10000 |}
  | BACK_SQUAT =>
      {| prominence_factor := 0.1; std_factor := 0.5;
         min_prominence_floor := 0.1;
         min_rep_duration_ms := Np.py_max min_ms 1200;
         max_rep_duration_ms := Np.py_min max_ms 12000 |}
  | LATERAL_PULLDOWN | SEATED_LEG_EXTENSION =>
      {| prominence_factor := 0.05; std_factor := 0.3;
         min_prominence_floor := 0.05;
         min_rep_duration_ms := Np.py_max min_ms 1500;
         max_rep_duration_ms := Np.py_min max_ms 12000 |}
  | UNKNOWN =>
      {| prominence_factor := 0.1; std_factor := 0.5;
         min_prominence_floor := 0.1;
         min_rep_duration_ms := min_ms;
         max_rep_duration_ms := max_ms |}
  end.

(** ** Input and output *)

(** One row of the dataframe: the columns the function reads.  The signal
    column is ['filteredMag'] on every branch of the source; ['rep'] holds
    the approximate rep numbers supplied with the recording (the function
    copies it to ['rep_original'] unconditionally, so the column is
    required). *)
Record sample : Type := {
  timestamp_ms : Q;
  filteredMag : Q;
  rep : Z
}.

Record dataframe : Type := {
  source_file : option string;
  rows : list sample
}.

(** Messages printed while the fallback ladder runs. *)
Inductive event : Type :=
| TooFewValleys
| Retry (retry_prominence : Q) (found : nat)
| TryingPeaks
| UsingPeaks (found : nat)
| GuidedFallback (original_reps : list Z).

(** The result: the new ['rep'] column of [df_resegmented], its
    ['rep_original'] column, the list [rep_info] of dictionaries, and the
    messages printed. *)
Record segmentation : Type := {
  rep_column : list Z;
  rep_original : list Z;
  rep_info : list metrics;
  printed : list event
}.

Section WithScipy.
Context {lib : Scipy}.

(** ** [find_valleys] *)
Definition find_valleys (signal : list Q) (distance : Z) (prominence : Q)
    : option (list nat) :=
  find_peaks_call (Np.np_neg signal) (Some distance) prominence.

(** ** Preconditioning and thresholds (source lines 402-436) *)

Definition smooth (e : exercise) (signal : list Q) : list Q :=
  let n := length signal in
  if is_weight_stack e then
    let window_length := Nat.min 21 (if Nat.odd n then n else n - 1) in
    if (5 <=? window_length)%nat
    then savgol_filter signal window_length 3 else signal
  else
    if (11 <? n)%nat then savgol_filter signal 11 3 else signal.

Definition adaptive_prominence (p : profile) (signal_smooth : list Q)
    : option Q :=
  hi <- Np.np_max signal_smooth ;;
  lo <- Np.np_min signal_smooth ;;
  let signal_range := hi - lo in
  let signal_std := np_std signal_smooth in
  Some (Np.py_max (Np.py_max (signal_range * prominence_factor p)
                             (signal_std * std_factor p))
                  (min_prominence_floor p)).

(** [min_distance]: half a second of samples, one and a half for the
    weight-stack exercises.  A median interval of zero makes the sample
    rate infinite and [int] raise. *)
Definition min_distance_of (e : exercise) (timestamps : list Q) : option Z :=
  if (1 <? length timestamps)%nat then
    let median_dt := Np.np_median (Np.np_diff timestamps) in
    if Np.eqb median_dt 0 then None
    else
      let sample_rate := 1000 / median_dt in
      if is_weight_stack e
      then Some (Np.py_int (1.5 * sample_rate))
      else Some (Np.py_int (0.5 * sample_rate))
  else Some 5%Z.

(** ** Candidate detection with the retry ladder (source lines 447-471) *)

(** The [for retry_factor in [0.5, 0.25, 0.1]] loop with its [break]:
    returns the last detection, the prominence in force afterwards and the
    messages printed. *)
Fixpoint retry_loop (factors : list Q) (signal_smooth : list Q)
    (min_distance : Z) (min_prominence : Q) (valley_indices : list nat)
    : option (list nat * Q * list event) :=
  match factors with
  | [] => Some (valley_indices, min_prominence, [])
  | retry_factor :: rest =>
      let retry_prominence := min_prominence * retry_factor in
      v <- find_valleys signal_smooth min_distance retry_prominence ;;
      if (2 <=? length v)%nat
      then Some (v, retry_prominence, [Retry retry_prominence (length v)])
      else
        r <- retry_loop rest signal_smooth min_distance min_prominence v ;;
        let '(v', p', log) := r in
        Some (v', p', Retry retry_prominence (length v) :: log)
  end.

Definition detect_candidates (signal_smooth : list Q) (min_distance : Z)
    (min_prominence : Q) : option (list nat * Q * list event) :=
  valley_indices <- find_valleys signal_smooth min_distance min_prominence ;;
  if (length valley_indices <? 2)%nat then
    r <- retry_loop [0.5; 0.25; 0.1] signal_smooth min_distance min_prominence
           valley_indices ;;
    let '(valley_indices, min_prominence, log) := r in
    if (length valley_indices <? 2)%nat then
      peak_indices <- find_peaks_call signal_smooth (Some min_distance)
                        (min_prominence * 0.5) ;;
      if (2 <=? length peak_indices)%nat
      then Some (peak_indices, min_prominence,
                 TooFewValleys :: log ++ [TryingPeaks; UsingPeaks (length peak_indices)])
      else Some (valley_indices, min_prominence,
                 TooFewValleys :: log ++ [TryingPeaks])
    else Some (valley_indices, min_prominence, TooFewValleys :: log)
  else Some (valley_indices, min_prominence, []).

(** ** The duration filter (source lines 473-483) *)
Fixpoint filter_by_duration (timestamps : list Q) (min_ms max_ms : Q)
    (valid_valleys : list nat) (valley_indices : list nat)
    : option (list nat) :=
  match valley_indices with
  | [] => Some valid_valleys
  | idx :: rest =>
      last_valley_time <- nth_error timestamps (last valid_valleys O) ;;
      current_valley_time <- nth_error timestamps idx ;;
      let duration_ms := current_valley_time - last_valley_time in
      if Np.geb duration_ms min_ms && Np.leb duration_ms max_ms
      then filter_by_duration timestamps min_ms max_ms
             (valid_valleys ++ [idx]) rest
      else filter_by_duration timestamps min_ms max_ms valid_valleys rest
  end.

(** ** The terminal valley (source lines 485-496) *)
Definition tail_search (timestamps signal_smooth : list Q) (min_distance : Z)
    (min_prominence min_ms : Q) (valid_valleys : list nat)
    : option (list nat) :=
  let last_valley := last valid_valleys O in
  if (last_valley =? length timestamps - 1)%nat then Some valid_valleys
  else
    last_valley_time <- nth_error timestamps last_valley ;;
    end_time <- Np.last_error timestamps ;;
    if Np.geb (end_time - last_valley_time) min_ms then
      let remaining_signal := skipn last_valley signal_smooth in
      if (min_distance <? Z.of_nat (length remaining_signal))%Z then
        local_valleys <- find_valleys remaining_signal (min_distance / 2)
                           (min_prominence * 0.5) ;;
        if (0 <? length local_valleys)%nat
        then Some (valid_valleys ++ [(last_valley + last local_valleys O)%nat])
        else Some valid_valleys
      else Some valid_valleys
    else Some valid_valleys.

(** ** The guided fallback (source lines 498-534) *)

Fixpoint insert_z (x : Z) (l : list Z) : list Z :=
  match l with
  | [] => [x]
  | y :: tl => if (x <=? y)%Z then x :: l else y :: insert_z x tl
  end.

(** [sorted([r for r in df['rep'].unique() if r > 0])]. *)
Definition original_reps_of (reps : list Z) : list Z :=
  fold_right insert_z [] (filter (fun r => (0 <? r)%Z) (nodup Z.eq_dec reps)).

(** [np.where(df['rep'] == rep)[0]]. *)
Definition where_rep (reps : list Z) (r : Z) : list nat :=
  map fst (filter (fun ir => (snd ir =? r)%Z) (combine (seq 0 (length reps)) reps)).

(** [max(int(rep_duration * 0.2), 10)]: a fifth of the span of the labelled
    rep, and never less than ten samples. *)
Definition search_window (rep_duration : nat) : nat :=
  Z.to_nat (Z.max (Np.py_int (Np.of_nat rep_duration * 0.2)) 10).

(** The boundary proposed for one labelled rep: the minimum of the smoothed
    signal around the last sample of the rep. *)
Definition guided_valley (signal_smooth : list Q) (rep_indices : list nat)
    : option nat :=
  match rep_indices with
  | [] => None
  | rep_start_idx :: _ =>
      let rep_end_idx := last rep_indices O in
      let rep_duration := (rep_end_idx - rep_start_idx)%nat in
      let search_window := search_window rep_duration in
      let search_start := (rep_end_idx - search_window)%nat in
      let search_end := Nat.min (length signal_smooth)
                                (rep_end_idx + search_window) in
      let search_signal := Np.slice signal_smooth search_start search_end in
      if (3 <? length search_signal)%nat then
        match Np.np_argmin search_signal with
        | Some local_min_idx => Some (search_start + local_min_idx)%nat
        | None => None
        end
      else None
  end.

Fixpoint guided_loop (signal_smooth : list Q) (reps : list Z)
    (original_reps : list Z) (valid_valleys : list nat) : list nat :=
  match original_reps with
  | [] => valid_valleys
  | r :: rest =>
      match guided_valley signal_smooth (where_rep reps r) with
      | Some valley_idx =>
          if (last valid_valleys O <? valley_idx)%nat
          then guided_loop signal_smooth reps rest (valid_valleys ++ [valley_idx])
          else guided_loop signal_smooth reps rest valid_valleys
      | None => guided_loop signal_smooth reps rest valid_valleys
      end
  end.

Definition guided_fallback (signal_smooth : list Q) (reps : list Z)
    (original_reps : list Z) : list nat :=
  let valid_valleys := guided_loop signal_smooth reps original_reps [O] in
  if (last valid_valleys O <? length reps - 1)%nat
  then valid_valleys ++ [(length reps - 1)%nat]
  else valid_valleys.

(** ** Building the reps (source lines 541-615) *)

(** [df.loc[lo:hi, 'rep'] = rep_num] on a default index: both ends
    included. *)
Definition assign (labels : list Z) (lo hi : nat) (rep_num : Z) : list Z :=
  map (fun il => if (lo <=? fst il)%nat && (fst il <=? hi)%nat
                 then rep_num else snd il)
      (combine (seq 0 (length labels)) labels).

(** One dictionary of [rep_info].  The samples of the rep are
    [start_idx .. end_idx]; [next_start] is the boundary that closes it,
    recorded for every rep but the one that runs to the end. *)
Definition rep_entry (timestamps signal signal_smooth : list Q)
    (rep_num : nat) (start_idx end_idx : nat) (next_start : option nat)
    : option metrics :=
  start_time <- nth_error timestamps start_idx ;;
  end_time <- nth_error timestamps end_idx ;;
  let rep_signal := Np.slice signal_smooth start_idx (S end_idx) in
  peak_local_idx <- Np.np_argmax rep_signal ;;
  let peak_idx := (start_idx + peak_local_idx)%nat in
  peak_time <- nth_error timestamps peak_idx ;;
  peak_value <- nth_error signal peak_idx ;;
  valley_value <- nth_error signal start_idx ;;
  Some ([("rep", Np.of_nat rep_num);
         ("start_idx", Np.of_nat start_idx);
         ("end_idx", Np.of_nat end_idx)] ++
        match next_start with
        | Some e => [("next_rep_start_idx", Np.of_nat e)]
        | None => []
        end ++
        [("start_time_ms", start_time);
         ("end_time_ms", end_time);
         ("duration_ms", end_time - start_time);
         ("peak_idx", Np.of_nat peak_idx);
         ("peak_time_ms", peak_time);
         ("peak_value", peak_value);
         ("valley_value", valley_value);
         ("amplitude", peak_value - valley_value)]).

(** The loop over consecutive boundaries; [i] counts the reps built so
    far. *)
Fixpoint build_reps (timestamps signal signal_smooth : list Q)
    (valid_valleys : list nat) (i : nat) (labels : list Z)
    : option (list Z * list metrics) :=
  match valid_valleys with
  | start_idx :: ((end_idx :: _) as rest) =>
      let rep_num := S i in
      let labels := assign labels start_idx (end_idx - 1) (Z.of_nat rep_num) in
      r <- rep_entry timestamps signal signal_smooth rep_num
             start_idx (end_idx - 1) (Some end_idx) ;;
      out <- build_reps timestamps signal signal_smooth rest (S i) labels ;;
      Some (fst out, r :: snd out)
  | _ => Some (labels, [])
  end.

(** The last segment, from the last boundary to the end. *)
Definition build_last (timestamps signal signal_smooth : list Q)
    (valid_valleys : list nat) (labels : list Z)
    : option (list Z * list metrics) :=
  let n := length timestamps in
  let start_idx := last valid_valleys O in
  if (start_idx <? n - 1)%nat then
    let end_idx := (n - 1)%nat in
    let rep_num := length valid_valleys in
    r <- rep_entry timestamps signal signal_smooth rep_num start_idx end_idx
           None ;;
    Some (assign labels start_idx end_idx (Z.of_nat rep_num), [r])
  else Some (labels, []).

(** ** [resegment_single_source] *)

(** The boundaries accepted by detection, duration filter and tail search,
    with the messages printed so far. *)
Definition detected_boundaries (df : dataframe) (min_ms max_ms : Q)
    : option (list nat * list event) :=
  let e := detect_exercise (source_file df) in
  let p := profile_of e min_ms max_ms in
  let signal := map filteredMag (rows df) in
  let timestamps := map timestamp_ms (rows df) in
  let signal_smooth := smooth e signal in
  min_prominence <- adaptive_prominence p signal_smooth ;;
  min_distance <- min_distance_of e timestamps ;;
  r <- detect_candidates signal_smooth min_distance min_prominence ;;
  let '(valley_indices, min_prominence, log) := r in
  valid_valleys <- filter_by_duration timestamps (min_rep_duration_ms p)
                     (max_rep_duration_ms p) [O] valley_indices ;;
  valid_valleys <- tail_search timestamps signal_smooth min_distance
                     min_prominence (min_rep_duration_ms p) valid_valleys ;;
  Some (valid_valleys, log).

(** The final [valid_valleys]: the guided fallback replaces the detected
    boundaries when only the start is left and labelled reps exist. *)
Definition boundaries (df : dataframe) (min_ms max_ms : Q)
    : option (list nat * list event) :=
  let e := detect_exercise (source_file df) in
  let signal_smooth := smooth e (map filteredMag (rows df)) in
  r <- detected_boundaries df min_ms max_ms ;;
  let '(valid_valleys, log) := r in
  let original_reps := original_reps_of (map rep (rows df)) in
  if (length valid_valleys <=? 1)%nat && (1 <=? length original_reps)%nat
  then Some (guided_fallback signal_smooth (map rep (rows df)) original_reps,
             log ++ [GuidedFallback original_reps])
  else Some (valid_valleys, log).

Definition resegment_single_source (df : dataframe) (min_ms max_ms : Q)
    : option segmentation :=
  let e := detect_exercise (source_file df) in
  let signal := map filteredMag (rows df) in
  let timestamps := map timestamp_ms (rows df) in
  let signal_smooth := smooth e signal in
  b <- boundaries df min_ms max_ms ;;
  let '(valid_valleys, log) := b in
  let labels := repeat 0%Z (length (rows df)) in
  body <- build_reps timestamps signal signal_smooth valid_valleys 0 labels ;;
  tail <- build_last timestamps signal signal_smooth valid_valleys (fst body) ;;
  Some {| rep_column := fst tail;
          rep_original := map rep (rows df);
          rep_info := snd body ++ snd tail;
          printed := log |}.

(** ** [resegment_reps] *)

(** The dataframe given to [resegment_reps]: with a ['source_file'] column
    every row carries the name of the recording it comes from. *)
Inductive frame : Type :=
| WithSourceFile (tagged_rows : list (string * sample))
| WithoutSourceFile (plain_rows : list sample).

(** [df['source_file'].unique()]: the names in order of first appearance. *)
Fixpoint unique (names : list string) : list string :=
  match names with
  | [] => []
  | x :: tl => x :: filter (fun y => negb (String.eqb x y)) (unique tl)
  end.

(** [df[df['source_file'] == source].reset_index(drop=True)]. *)
Definition rows_of_source (tagged_rows : list (string * sample))
    (source : string) : dataframe :=
  {| source_file := Some source;
     rows := map snd (filter (fun r => String.eqb (fst r) source) tagged_rows) |}.

(** [info['rep'] = info['rep'] + rep_offset]. *)
Definition offset_rep (rep_offset : nat) (info : metrics) : metrics :=
  map (fun kv => if String.eqb (fst kv) "rep"
                 then (fst kv, snd kv + Np.of_nat rep_offset) else kv)
      info.

(** The loop over the source files (source lines 237-259): for each
    source, its rep column and its [rep_info] after the offset. *)
Fixpoint resegment_sources (tagged_rows : list (string * sample))
    (min_ms max_ms : Q) (source_files : list string) (rep_offset : nat)
    : option (list (list Z * list metrics)) :=
  match source_files with
  | [] => Some []
  | source :: rest =>
      out <- resegment_single_source (rows_of_source tagged_rows source)
               min_ms max_ms ;;
      let shifted :=
        if (0 <? rep_offset)%nat
        then (map (fun r => (r + Z.of_nat rep_offset)%Z) (rep_column out),
              map (offset_rep rep_offset) (rep_info out))
        else (rep_column out, rep_info out) in
      tl <- resegment_sources tagged_rows min_ms max_ms rest
              (rep_offset + length (rep_info out)) ;;
      Some (shifted :: tl)
  end.

(** [resegment_reps]: the ['rep'] column of [df_resegmented], the rows
    grouped by source file, and [all_rep_info].  [pd.concat] raises on an
    empty list of dataframes. *)
Definition resegment_reps (df : frame) (min_ms max_ms : Q)
    : option (list Z * list metrics) :=
  match df with
  | WithSourceFile tagged_rows =>
      parts <- resegment_sources tagged_rows min_ms max_ms
                 (unique (map fst tagged_rows)) 0 ;;
      match parts with
      | [] => None
      | _ => Some (concat (map fst parts), concat (map snd parts))
      end
  | WithoutSourceFile plain_rows =>
      out <- resegment_single_source
               {| source_file := None; rows := plain_rows |} min_ms max_ms ;;
      Some (rep_column out, rep_info out)
  end.

End WithScipy.

(** The defaults of the two duration parameters. *)
Definition default_min_rep_duration_ms : Q := 800.
Definition default_max_rep_duration_ms : Q := 8000.

End Resegment.

(* ===================================================================== *)
(** * main_csv.py: the concentric/eccentric phase split                    *)
(* ===================================================================== *)

Module MainCsv.

Inductive axis : Type := X | Y | Z.

(** One row of [rep_data]: the columns read by source lines 683-761 of
    [extract_features_per_rep]. *)
Record imu_sample : Type := {
  timestamp_ms : Q;
  accelX : Q;
  accelY : Q;
  accelZ : Q
}.


Definition axis_signal (rep_data : list imu_sample) (a : axis) : list Q :=
  match a with
  | X => map accelX rep_data
  | Y => map accelY rep_data
  | Z => map accelZ rep_data
  end.

(** [rep_data[col].max() - rep_data[col].min()]. *)
Definition axis_range (rep_data : list imu_sample) (a : axis) : option Q :=
  hi <- Np.np_max (axis_signal rep_data a) ;;
  lo <- Np.np_min (axis_signal rep_data a) ;;
  Some (hi - lo).

(** [max(axis_ranges, key=axis_ranges.get)] over the keys X, Y, Z in this
    order: the first key of greatest range. *)
Definition primary_axis_of (x_range y_range z_range : Q) : axis :=
  let best := if Qlt_le_dec x_range y_range then (Y, y_range) else (X, x_range) in
  if Qlt_le_dec (snd best) z_range then Z else fst best.


(** [calculate_range_of_motion]: [np.max(angle_data) - np.min(angle_data)],
    which raises on an empty array. *)
Definition calculate_range_of_motion (angle_data : list Q) : option Q :=
  hi <- Np.np_max angle_data ;;
  lo <- Np.np_min angle_data ;;
  Some (hi - lo).

Section WithScipy.
Context {lib : Scipy}.

(** The peaks searched for on the primary axis (source lines 708-712). *)
Definition all_peaks_of (primary_signal : list Q) : option (list nat) :=
  peaks_pos <- find_peaks_call primary_signal (Some 10%Z) 0.5 ;;
  peaks_neg <- find_peaks_call (Np.np_neg primary_signal) (Some 10%Z) 0.5 ;;
  Some (peaks_pos ++ peaks_neg).


(** The smoothness block of [extract_features_per_rep] (source lines
    766-824), computed on the primary signal and on the peaks found on
    it. *)
Record smoothness_features : Type := {
  normalized_jerk : Q;
  jerk_std : Q;
  jerk_mean : Q;
  num_direction_changes : nat;
  smoothness_score : Q;
  excess_peaks : BinNums.Z;
  jerk_variability : Q
}.

Definition smoothness_of (primary_signal : list Q) (all_peaks : list nat)
    : option smoothness_features :=
  let samples_per_rep := length primary_signal in
  let jerk := Np.np_diff primary_signal in
  let movement_duration := (Z.of_nat samples_per_rep - 1)%Z in
  hi <- Np.np_max primary_signal ;;
  lo <- Np.np_min primary_signal ;;
  let movement_amplitude := hi - lo in
  let normalized_jerk :=
    if Np.gtb movement_amplitude 0 && (0 <? movement_duration)%Z
    then np_sqrt (Np.np_sum (map (fun j => j * j) jerk)
                  / inject_Z movement_duration) / movement_amplitude
    else 0 in
  let jerk_std := if (0 <? length jerk)%nat then np_std jerk else 0 in
  let jerk_mean :=
    if (0 <? length jerk)%nat then Np.np_mean (map Qabs jerk) else 0 in
  let jerk_sign_changes :=
    if (1 <? length jerk)%nat
    then Np.count_nonzero (Np.np_diff (map Np.np_sign jerk)) else O in
  let jerk_threshold := 0.5 in
  let jerk_component := Np.py_max 0 (1 - normalized_jerk / jerk_threshold) in
  let expected_peaks := 2%Z in
  let excess_peaks := Z.max 0 (Z.of_nat (length all_peaks) - expected_peaks) in
  let peaks_component := Np.py_max 0 (1 - inject_Z excess_peaks / 5) in
  let expected_changes := Np.of_nat samples_per_rep / 25 in
  let excess_changes :=
    Np.py_max 0 (Np.of_nat jerk_sign_changes - expected_changes) in
  let direction_component :=
    Np.py_max 0 (1 - excess_changes / (Np.of_nat samples_per_rep / 5)) in
  let jerk_cv := jerk_std / (jerk_mean + 0.000001) in
  let jerk_variability_component := Np.py_max 0 (1 - jerk_cv / 3) in
  Some {|
    normalized_jerk := normalized_jerk;
    jerk_std := jerk_std;
    jerk_mean := jerk_mean;
    num_direction_changes := jerk_sign_changes;
    smoothness_score :=
      (jerk_component * 0.35 + peaks_component * 0.25 +
       direction_component * 0.20 + jerk_variability_component * 0.20) * 100;
    excess_peaks := excess_peaks;
    jerk_variability := jerk_cv
  |}.

(** The block on a rep: the primary axis and the peaks are the ones of the
    phase split. *)
Definition extract_smoothness_features (rep_data : list imu_sample)
    : option smoothness_features :=
  accel_x_range <- axis_range rep_data X ;;
  accel_y_range <- axis_range rep_data Y ;;
  accel_z_range <- axis_range rep_data Z ;;
  let primary_axis := primary_axis_of accel_x_range accel_y_range accel_z_range in
  let primary_signal := axis_signal rep_data primary_axis in
  all_peaks <- all_peaks_of primary_signal ;;
  smoothness_of primary_signal all_peaks.

End WithScipy.

End MainCsv.

(* ===================================================================== *)
(** * performance_visualizer.py: [analyze_session_data]                    *)
(* ===================================================================== *)

(** [analyze_session_data] on a dataframe that has the columns ['rep'],
    ['timestamp_ms'] and ['filteredMag'] and none of the optional
    accelerometer, gyroscope and per-axis columns, such as the dataframe
    returned by the segmentation: the branches guarded by the presence of
    those columns are not taken. *)
Module SessionAnalysis.

Import PerformanceVisualizer.
Import Resegment.

(** The entries of ['session_summary'].  A mean over no rep is numpy's
    [nan], written [None]. *)
Record session_summary : Type := {
  total_reps : nat;
  avg_rom : option Q;
  avg_rom_degrees : Q;
  summary_has_rom_degrees : bool;
  avg_smoothness : option Q;
  avg_duration_ms : option Q;
  total_duration_ms : Q
}.

Record session_metrics : Type := {
  rep_metrics : list metrics;
  fatigue_analysis : pyval;
  session_summary_of : session_summary
}.

Definition mean_or_nan (l : list Q) : option Q :=
  match l with
  | [] => None
  | _ => Some (Np.np_mean l)
  end.

(** [sorted(df['rep'].unique())]. *)
Definition sorted_unique (reps : list Z) : list Z :=
  fold_right insert_z [] (nodup Z.eq_dec reps).

Section WithScipy.
Context {lib : Scipy}.

(** The body of the loop for one rep number: [Some None] when the rep has
    fewer than three samples and is skipped. *)
Definition rep_metrics_of (df : list sample) (rep_num : Z)
    : option (option metrics) :=
  let rep_data := filter (fun s => (rep s =? rep_num)%Z) df in
  if (length rep_data <? 3)%nat then Some None
  else
    let timestamps := map timestamp_ms rep_data in
    t_last <- Np.last_error timestamps ;;
    t_first <- hd_error timestamps ;;
    let signal := map filteredMag rep_data in
    rom_metrics <- compute_range_of_motion signal "filteredMag" ;;
    Some (Some ([("rep", inject_Z rep_num);
                 ("duration_ms", t_last - t_first);
                 ("sample_count", Np.of_nat (length rep_data))] ++
                rom_metrics)).

Fixpoint rep_metrics_loop (df : list sample) (rep_nums : list Z)
    : option (list metrics) :=
  match rep_nums with
  | [] => Some []
  | rep_num :: rest =>
      m <- rep_metrics_of df rep_num ;;
      ms <- rep_metrics_loop df rest ;;
      Some (match m with
            | Some metrics => metrics :: ms
            | None => ms
            end)
  end.

Definition analyze_session_data (df : list sample) : option session_metrics :=
  let df := filter (fun s => (0 <? rep s)%Z) df in
  rep_metrics_list <- rep_metrics_loop df (sorted_unique (map rep df)) ;;
  let fatigue_analysis := compute_fatigue_indicators rep_metrics_list in
  let rom_degrees_values := column rep_metrics_list "rom_degrees" 0 in
  let has_rom_degrees := any_positive rom_degrees_values in
  Some {|
    rep_metrics := rep_metrics_list;
    fatigue_analysis := fatigue_analysis;
    session_summary_of := {|
      total_reps := length rep_metrics_list;
      avg_rom := mean_or_nan (column rep_metrics_list "rom" 0);
      avg_rom_degrees :=
        if has_rom_degrees then Np.np_mean rom_degrees_values else 0;
      summary_has_rom_degrees := has_rom_degrees;
      avg_smoothness :=
        mean_or_nan (column rep_metrics_list "smoothness_score" 50);
      avg_duration_ms := mean_or_nan (column rep_metrics_list "duration_ms" 0);
      total_duration_ms := Np.np_sum (column rep_metrics_list "duration_ms" 0)
    |}
  |}.

End WithScipy.

End SessionAnalysis.

(* ===================================================================== *)
(** * A reference implementation of the library interface                  *)
(* ===================================================================== *)

(** An executable reading of [scipy.signal.find_peaks] restricted to the
    [distance] and [prominence] conditions: local maxima (the middle sample
    of a flat top), then the selection by distance in order of decreasing
    height, then the selection by prominence. *)
Module Ref.

(** [walk_left fuel x v i]: leftmost index of the run of samples equal to
    [v] that ends at [i]; [walk_right] likewise to the right. *)
Fixpoint walk_left (fuel : nat) (x : list Q) (v : Q) (i : nat) : nat :=
  match fuel, i with
  | S f, S j =>
      if Qeq_bool (nth j x 0) v then walk_left f x v j else i
  | _, _ => i
  end.

Fixpoint walk_right (fuel : nat) (x : list Q) (v : Q) (i : nat) : nat :=
  match fuel with
  | S f =>
      if (S i <? length x)%nat && Qeq_bool (nth (S i) x 0) v
      then walk_right f x v (S i) else i
  | O => i
  end.

(** [i] is the reported sample of a local maximum: the middle of a flat run
    whose two neighbours are strictly lower. *)
Definition is_local_maximum (x : list Q) (i : nat) : bool :=
  let v := nth i x 0 in
  let l := walk_left (length x) x v i in
  let r := walk_right (length x) x v i in
  (1 <=? l)%nat && (S r <? length x)%nat &&
  Np.ltb (nth (l - 1) x 0) v && Np.ltb (nth (S r) x 0) v &&
  (i =? (l + r) / 2)%nat.

Definition local_maxima (x : list Q) : list nat :=
  filter (is_local_maximum x) (seq 1 (length x - 2)).

(** Prominence of the peak at [p]: its height above the higher of the two
    lowest samples reached, on each side, before a higher sample. *)
Fixpoint lowest_until_higher (v : Q) (lowest : Q) (l : list Q) : Q :=
  match l with
  | [] => lowest
  | y :: tl =>
      if Qle_bool y v
      then lowest_until_higher v (if Qlt_le_dec y lowest then y else lowest) tl
      else lowest
  end.

Definition peak_prominence (x : list Q) (p : nat) : Q :=
  let v := nth p x 0 in
  let left_min := lowest_until_higher v v (rev (firstn p x)) in
  let right_min := lowest_until_higher v v (skipn (S p) x) in
  v - Np.py_max left_min right_min.

(** Positions of [peaks] ordered by increasing height (stable). *)
Fixpoint insert_by_height (x : list Q) (peaks : list nat) (j : nat)
    (order : list nat) : list nat :=
  match order with
  | [] => [j]
  | k :: tl =>
      if Np.ltb (nth (nth j peaks O) x 0) (nth (nth k peaks O) x 0)
      then j :: order
      else k :: insert_by_height x peaks j tl
  end.

Definition argsort_height (x : list Q) (peaks : list nat) : list nat :=
  fold_left (fun order j => insert_by_height x peaks j order)
            (seq 0 (length peaks)) [].

(** Selection by distance: peaks are visited from the highest down; a
    visited peak that is still kept drops every other peak closer than
    [distance]. *)
Fixpoint drop_neighbours (peaks : list nat) (keep : list bool) (j : nat)
    (pj : nat) (distance : Z) (k : nat) : list bool :=
  match peaks, keep with
  | pk :: ptl, b :: btl =>
      (if (k =? j)%nat then b
       else if (Z.abs (Z.of_nat pk - Z.of_nat pj) <? distance)%Z then false
       else b) :: drop_neighbours ptl btl j pj distance (S k)
  | _, _ => []
  end.

Fixpoint select_by_distance_loop (peaks : list nat) (distance : Z)
    (order : list nat) (keep : list bool) : list bool :=
  match order with
  | [] => keep
  | j :: rest =>
      if nth j keep false
      then select_by_distance_loop peaks distance rest
             (drop_neighbours peaks keep j (nth j peaks O) distance 0)
      else select_by_distance_loop peaks distance rest keep
  end.

Fixpoint keep_flagged (peaks : list nat) (keep : list bool) : list nat :=
  match peaks, keep with
  | p :: ptl, b :: btl => if b then p :: keep_flagged ptl btl else keep_flagged ptl btl
  | _, _ => []
  end.

Definition select_by_distance (x : list Q) (peaks : list nat) (distance : Z)
    : list nat :=
  keep_flagged peaks
    (select_by_distance_loop peaks distance (rev (argsort_height x peaks))
       (repeat true (length peaks))).

Definition find_peaks (x : list Q) (distance : option Z) (prominence : Q)
    : list nat :=
  let peaks := local_maxima x in
  let peaks := match distance with
               | Some d => select_by_distance x peaks d
               | None => peaks
               end in
  filter (fun p => Qle_bool prominence (peak_prominence x p)) peaks.

(** A stand-in for the smoothing filter that returns the signal as it is;
    the concrete sessions below are short enough for the script not to
    smooth them. *)
Definition savgol_filter (x : list Q) (window_length polyorder : nat) : list Q := x.

(** Square root rounded down to six decimals. *)
Definition np_sqrt (x : Q) : Q :=
  Z.sqrt (Qnum x * 10 ^ 12 / Zpos (Qden x)) # 1000000.

End Ref.

(* ===================================================================== *)
(** * Specification-side definitions and concrete sessions                *)
(* ===================================================================== *)

Import PerformanceVisualizer.
Import Resegment.

(** ** The fatigue formula as the specification words it *)

(** The formula in the words of the specification, with the mathematical
    maximum and minimum. *)
Definition clamp (lo x hi : Q) : Q := Qmax lo (Qmin x hi).

Definition composite_spec (D T J S : Q) : Q :=
  let d := Qmax 0 D in
  let t := Qmax 0 T in
  let j := Qmax 0 J in
  let s := Qmax 0 S in
  let composite := 0.35 * d + 0.25 * t + 0.20 * j + 0.20 * s in
  let worst := Qmax (Qmax d t) (Qmax j s) in
  if Qlt_le_dec 0.40 worst
  then Qmin 1 (composite + (worst - 0.40) * 0.5)
  else composite.

Definition level_spec (score : Q) : string :=
  if Qlt_le_dec score 10 then "minimal"
  else if Qlt_le_dec score 20 then "low"
  else if Qlt_le_dec score 35 then "moderate"
  else if Qlt_le_dec score 55 then "high"
  else "severe".

(** ** Predicates on boundaries and timestamps *)



(** The keys of a rep that runs to the end of the session. *)
Definition tail_rep_keys : list string :=
  ["rep"; "start_idx"; "end_idx"; "start_time_ms"; "end_time_ms";
   "duration_ms"; "peak_idx"; "peak_time_ms"; "peak_value"; "valley_value";
   "amplitude"].

(** The order of the detection attempts, written out: the valleys at the
    profile prominence, then at one half, one quarter and one tenth of it,
    then the peaks at one half of it. *)
Definition ladder (valleys_at peaks_at : Q -> list nat) (p : Q)
    : list nat * Q * list event :=
  let enough (v : list nat) := (2 <=? length v)%nat in
  let v0 := valleys_at p in
  let v1 := valleys_at (p * 0.5) in
  let v2 := valleys_at (p * 0.25) in
  let v3 := valleys_at (p * 0.1) in
  let pk := peaks_at (p * 0.5) in
  let r1 := Retry (p * 0.5) (length v1) in
  let r2 := Retry (p * 0.25) (length v2) in
  let r3 := Retry (p * 0.1) (length v3) in
  if enough v0 then (v0, p, [])
  else if enough v1 then (v1, p * 0.5, [TooFewValleys; r1])
  else if enough v2 then (v2, p * 0.25, [TooFewValleys; r1; r2])
  else if enough v3 then (v3, p * 0.1, [TooFewValleys; r1; r2; r3])
  else if enough pk
       then (pk, p, [TooFewValleys; r1; r2; r3; TryingPeaks;
                     UsingPeaks (length pk)])
       else (v3, p, [TooFewValleys; r1; r2; r3; TryingPeaks]).

(** ** Concrete reps and sessions *)

(** A three-sample rep and a four-sample rep, 100 ms apart. *)
Definition short_rep : list Q := [1; 2; 3].
Definition short_rep_ts : list Q := [0; 100; 200].
Definition four_sample_rep : list Q := [9; 10; 9; 10].
Definition four_sample_ts : list Q := [0; 100; 200; 300].

(** A session of three reps that slow down: 1000, 1200 and 1399 ms. *)
Definition rep_of_duration (duration_ms : Q) : metrics :=
  [("duration_ms", duration_ms)].
Definition slowing_session : list metrics :=
  [rep_of_duration 1000; rep_of_duration 1200; rep_of_duration 1399].

(** A session sampled every 100 ms, without a ['source_file'] column. *)
Definition session (signal : list Q) (reps : list Z) : dataframe :=
  {| source_file := None;
     rows := map (fun x => {| timestamp_ms := Np.of_nat (fst (fst x)) * 100;
                              filteredMag := snd (fst x);
                              rep := snd x |})
               (combine (combine (seq 0 (length signal)) signal) reps) |}.

(** Eleven samples with valleys at samples 3 and 8 and no labels. *)
Definition two_valley_session : dataframe :=
  session [5; 5; 5; 1; 5; 5; 5; 5; 1; 5; 5] (repeat 0%Z 11).

(** Eight samples with valleys at samples 1 and 6 and no labels. *)
Definition close_valley_session : dataframe :=
  session [5; 1; 5; 5; 5; 5; 1; 5] (repeat 0%Z 8).

(** Eight samples of a flat signal, labelled with two approximate reps. *)
Definition flat_labelled_session : dataframe :=
  session (repeat 1 8) [0; 1; 1; 1; 2; 2; 2; 2]%Z.

(** [resegment_single_source] with the default durations. *)
Definition run {lib : Scipy} (df : dataframe) : option segmentation :=
  resegment_single_source df default_min_rep_duration_ms
    default_max_rep_duration_ms.

(** Forty samples at 5 with a dip to 0 at sample 22. *)
Definition dip_at_22 : list Q := repeat 5 22 ++ [0] ++ repeat 5 17.

(** Five samples, 100 ms apart: the x axis rises from -1 to -0.6 and falls
    back; the other two axes do not move. *)
Definition low_bump_rep : list MainCsv.imu_sample :=
  map (fun tx => {| MainCsv.timestamp_ms := fst tx;
                    MainCsv.accelX := snd tx;
                    MainCsv.accelY := 0;
                    MainCsv.accelZ := 9.8 |})
      [(0, -(1)); (100, -(0.8)); (200, -(0.6)); (300, -(0.8)); (400, -(1))].

(** ** Boundaries and labels *)

(** The number of boundaries at or before sample [j]. *)
Definition count_le (j : nat) (boundaries : list nat) : nat :=
  length (filter (fun b => (b <=? j)%nat) boundaries).


(** ** File names and findings *)

(** A file name of ASCII characters only, on which [upper] is
    [str.upper()]. *)
Definition ascii_only (s : string) : Prop :=
  Forall (fun c => (nat_of_ascii c < 128)%nat) (list_ascii_of_string s).


(** The two-valley session and the flat labelled session, stored one
    after the other as two recordings. *)
Definition two_recordings : list (string * sample) :=
  map (pair "first.csv") (rows two_valley_session) ++
  map (pair "second.csv") (rows flat_labelled_session).


(** ** Reported values *)



(** The keys of a dictionary, in order. *)
Definition dict_keys (v : pyval) : list string :=
  match v with
  | VDict d => map fst d
  | _ => []
  end.

(** The fields of the session fatigue report that hold a number, the
    fields of its early-versus-late block, and the three entries of the
    full report that the dictionary for fewer than three reps does not
    have. *)
Definition report_number_fields : list string :=
  ["fatigue_score"; "D_omega"; "I_T"; "I_J"; "I_S"; "consistency_score";
   "rom_trend"; "smoothness_trend"; "duration_trend"; "peak_trend";
   "rom_consistency"; "smoothness_consistency"; "duration_consistency";
   "peak_consistency"; "rom_change_percent"; "smoothness_degradation_percent"].

Definition early_vs_late_fields : list string :=
  ["rom_change_percent"; "smoothness_degradation_percent";
   "duration_increase_percent"; "peak_degradation_percent";
   "gyro_peak_change_percent"; "jerk_increase_percent";
   "shakiness_increase_percent"; "avg_gyro_peak_first"; "avg_gyro_peak_last";
   "avg_shakiness_first"; "avg_shakiness_last"; "avg_rom_first";
   "avg_rom_last"; "avg_smoothness_first"; "avg_smoothness_last";
   "avg_duration_first_ms"; "avg_duration_last_ms"].

Definition gyro_only_fields : list string :=
  ["has_gyro"; "gyro_trend"; "gyro_consistency"].


(** The rows of a session, stored as the recording [name]. *)
Definition recording (name : string) (df : dataframe) : dataframe :=
  {| source_file := Some name; rows := rows df |}.

(** The name of the recording, when there is one, is made of ASCII
    characters only. *)
Definition ascii_source (df : dataframe) : Prop :=
  match source_file df with
  | Some f => ascii_only f
  | None => True
  end.

(* ===================================================================== *)
(** * Properties                                                           *)
(* ===================================================================== *)

Section Ldlj.
Context {lib : Scipy}.

Lemma py_max_lower a b : a <= Np.py_max a b.
Proof. unfold Np.py_max. destruct (Qlt_le_dec a b); lra. Qed.

Lemma py_min_upper a b : Np.py_min a b <= a.
Proof. unfold Np.py_min. destruct (Qlt_le_dec b a); lra. Qed.

Lemma py_min_lower a b c : c <= a -> c <= b -> c <= Np.py_min a b.
Proof. unfold Np.py_min. destruct (Qlt_le_dec b a); lra. Qed.

Lemma ldlj_scores_range nj dr tp :
  0 <= fst (ldlj_scores nj dr tp) /\ fst (ldlj_scores nj dr tp) <= 100.
Proof.
  unfold ldlj_scores; cbn [fst].
  assert (Hz : 0 <= inject_Z (Z.max 0 (tp - 2))).
  { change 0 with (inject_Z 0). rewrite <- Zle_Qle. lia. }
  pose proof (py_max_lower 0 (nj - 1.5)) as Hj.
  pose proof (py_max_lower 0 (dr - 0.5)) as Hd.
  pose proof (py_min_upper 40 (Np.py_max 0 (nj - 1.5) * 13.3)).
  pose proof (py_min_upper 35 (Np.py_max 0 (dr - 0.5) * 10)).
  pose proof (py_min_upper 25 (inject_Z (Z.max 0 (tp - 2)) * 3.3)).
  assert (0 <= Np.py_min 40 (Np.py_max 0 (nj - 1.5) * 13.3))
    by (apply py_min_lower; lra).
  assert (0 <= Np.py_min 35 (Np.py_max 0 (dr - 0.5) * 10))
    by (apply py_min_lower; lra).
  assert (0 <= Np.py_min 25 (inject_Z (Z.max 0 (tp - 2)) * 3.3))
    by (apply py_min_lower; lra).
  split; lra.
Qed.

Lemma ldlj_scores_sum nj dr tp :
  fst (ldlj_scores nj dr tp) + snd (ldlj_scores nj dr tp) == 100.
Proof.
  destruct (ldlj_scores_range nj dr tp) as [H0 H100].
  unfold ldlj_scores in *; cbn [fst snd] in *.
  set (irr := _ + _ + _) in *.
  unfold Np.py_max, Np.py_min.
  destruct (Qlt_le_dec (100 - irr) 100);
    destruct (Qlt_le_dec 0 _); lra.
Qed.

End Ldlj.

(** ** The reference implementation meets the interface *)

Section RefContract.

Lemma seq_strongly_sorted a n : StronglySorted lt (seq a n).
Proof.
  revert a; induction n as [|n IH]; intros a; simpl; constructor.
  - apply IH.
  - apply Forall_forall. intros y Hy. apply in_seq in Hy. lia.
Qed.

Lemma filter_strongly_sorted (f : nat -> bool) l :
  StronglySorted lt l -> StronglySorted lt (filter f l).
Proof.
  induction 1 as [|a l Hs IH Hall]; simpl; [constructor|].
  destruct (f a); [constructor|]; auto.
  apply Forall_forall. intros y Hy. apply filter_In in Hy.
  rewrite Forall_forall in Hall. apply Hall, Hy.
Qed.

Lemma keep_flagged_in peaks keep p :
  In p (Ref.keep_flagged peaks keep) -> In p peaks.
Proof.
  revert keep; induction peaks as [|q peaks IH]; intros [|b keep]; simpl;
    try tauto.
  destruct b; simpl; intros H.
  - destruct H; eauto.
  - eauto.
Qed.

Lemma keep_flagged_sorted peaks keep :
  StronglySorted lt peaks -> StronglySorted lt (Ref.keep_flagged peaks keep).
Proof.
  intros Hs; revert keep.
  induction Hs as [|q peaks Hs IH Hall]; intros [|b keep]; simpl;
    try constructor.
  destruct b; [constructor|]; auto.
  apply Forall_forall. intros y Hy. apply keep_flagged_in in Hy.
  rewrite Forall_forall in Hall. auto.
Qed.

Lemma local_maxima_sorted x : StronglySorted lt (Ref.local_maxima x).
Proof. apply filter_strongly_sorted, seq_strongly_sorted. Qed.

Lemma local_maxima_interior x i :
  In i (Ref.local_maxima x) -> (1 <= i /\ S i < length x)%nat.
Proof.
  unfold Ref.local_maxima. intros H. apply filter_In in H as [H _].
  apply in_seq in H. lia.
Qed.

Lemma ref_find_peaks_sorted x d p : StronglySorted lt (Ref.find_peaks x d p).
Proof.
  unfold Ref.find_peaks. apply filter_strongly_sorted.
  destruct d; [apply keep_flagged_sorted|]; apply local_maxima_sorted.
Qed.

Lemma ref_find_peaks_interior x d p i :
  In i (Ref.find_peaks x d p) -> (1 <= i /\ S i < length x)%nat.
Proof.
  unfold Ref.find_peaks. intros H. apply filter_In in H as [H _].
  destruct d; [apply keep_flagged_in in H|]; now apply local_maxima_interior.
Qed.

Lemma ref_np_sqrt_zero x : x == 0 -> Ref.np_sqrt x == 0.
Proof.
  unfold Ref.np_sqrt, Qeq; simpl. intros H.
  assert (Qnum x = 0%Z) as -> by lia. reflexivity.
Qed.

End RefContract.

#[export] Instance RefScipy : Scipy := {|
  find_peaks := Ref.find_peaks;
  savgol_filter := Ref.savgol_filter;
  np_sqrt := Ref.np_sqrt;
  find_peaks_sorted := ref_find_peaks_sorted;
  find_peaks_interior := ref_find_peaks_interior;
  savgol_filter_length := fun x _ _ => eq_refl;
  np_sqrt_zero := ref_np_sqrt_zero
|}.

(* ===================================================================== *)
(** * Smoothness metric: [compute_ldlj]                                    *)
(* ===================================================================== *)

Section LdljTheorems.
Context {lib : Scipy}.

Lemma duration_nonpositive (t0 tn : Q) :
  tn - t0 <= 0 -> Np.leb ((tn - t0) / 1000) 0 = true.
Proof.
  intros H. unfold Np.leb. apply Qle_bool_iff.
  unfold Qdiv. change (/ 1000) with (1 # 1000). lra.
Qed.

Lemma duration_positive (t0 tn : Q) :
  t0 < tn -> Np.leb ((tn - t0) / 1000) 0 = false.
Proof.
  intros H. unfold Np.leb. destruct (Qle_bool _ _) eqn:E; [|reflexivity].
  apply Qle_bool_iff in E. unfold Qdiv in E.
  change (/ 1000) with (1 # 1000) in E. lra.
Qed.

(** C10.  A rep with fewer than four samples, a rep whose last timestamp is
    not after its first one, and a rep on which the body of the [try] block
    raises all get the fixed pair: irregularity 0, smoothness 50. *)
Theorem compute_ldlj_short_circuit
    (accel_x accel_y accel_z timestamps_ms : list Q)
    (filtered_mag : option (list Q)) :
  (length accel_x < 4)%nat \/
  (exists t0 tn, hd_error timestamps_ms = Some t0 /\
                 Np.last_error timestamps_ms = Some tn /\ tn - t0 <= 0) \/
  compute_ldlj_try accel_x accel_y accel_z timestamps_ms filtered_mag = None ->
  compute_ldlj accel_x accel_y accel_z timestamps_ms filtered_mag = (0, 50).
Proof.
  unfold compute_ldlj.
  intros [Hlen | [(t0 & tn & H0 & Hn & Hd) | Hexc]].
  - unfold compute_ldlj_try.
    apply Nat.ltb_lt in Hlen. now rewrite Hlen.
  - unfold compute_ldlj_try.
    destruct (length accel_x <? 4)%nat; [reflexivity|].
    rewrite Hn, H0; simpl. now rewrite (duration_nonpositive Hd).
  - now rewrite Hexc.
Qed.

(** C3 (amended).  On the main path of [compute_ldlj] - at least four
    samples, last timestamp after the first, no exception in the body - the
    two returned scores add up to 100. *)
Theorem compute_ldlj_scores_sum
    (accel_x accel_y accel_z timestamps_ms : list Q)
    (filtered_mag : option (list Q)) (t0 tn : Q) :
  (4 <= length accel_x)%nat ->
  hd_error timestamps_ms = Some t0 ->
  Np.last_error timestamps_ms = Some tn ->
  t0 < tn ->
  compute_ldlj_try accel_x accel_y accel_z timestamps_ms filtered_mag <> None ->
  let r := compute_ldlj accel_x accel_y accel_z timestamps_ms filtered_mag in
  fst r + snd r == 100.
Proof.
  intros Hlen H0 Hn Hlt Hdef r. subst r.
  unfold compute_ldlj. revert Hdef. unfold compute_ldlj_try.
  apply Nat.ltb_ge in Hlen. rewrite Hlen, Hn, H0. simpl Np.bind.
  rewrite (duration_positive Hlt).
  repeat match goal with
         | |- context [Np.bind ?c _] =>
             destruct c; simpl Np.bind; [|congruence]
         end.
  intros _. apply ldlj_scores_sum.
Qed.

Lemma zip_with_length f xs ys :
  length ys = length xs -> length (Np.zip_with f xs ys) = length xs.
Proof.
  revert ys; induction xs as [|x xs IH]; intros [|y ys] H; simpl in *;
    try reflexivity; try discriminate.
  f_equal. apply IH. lia.
Qed.

Lemma accel_magnitude_defined ax ay az :
  length ay = length ax -> length az = length ax ->
  exists m, accel_magnitude ax ay az = Some m /\ length m = length ax.
Proof.
  intros Hy Hz. unfold accel_magnitude, Np.broadcast.
  rewrite !length_map, <- Hy, Nat.eqb_refl. cbn [Np.bind].
  rewrite zip_with_length by (rewrite !length_map; lia).
  rewrite !length_map, Hz, Hy, Nat.eqb_refl. cbn [Np.bind].
  eexists. split; [reflexivity|].
  rewrite length_map, zip_with_length.
  - rewrite zip_with_length; rewrite !length_map; lia.
  - rewrite zip_with_length; rewrite !length_map; lia.
Qed.

(** On three acceleration arrays of one length and a non-empty array of
    timestamps the body of [compute_ldlj] does not raise. *)
Lemma compute_ldlj_try_defined ax ay az ts fm :
  length ay = length ax -> length az = length ax -> ts <> [] ->
  compute_ldlj_try ax ay az ts fm <> None.
Proof.
  intros Hy Hz Hts. unfold compute_ldlj_try.
  destruct (length ax <? 4)%nat eqn:Hlen; [discriminate|].
  apply Nat.ltb_ge in Hlen.
  destruct ts as [|t0 ts']; [congruence|]. cbn [Np.last_error hd_error Np.bind].
  destruct (Np.leb _ 0); [discriminate|].
  destruct (accel_magnitude_defined ax ay az Hy Hz) as (m & Hm & Hml).
  assert (Hsig : exists signal,
             match fm with
             | Some fm0 => if (length fm0 =? length ax)%nat then Some fm0
                           else accel_magnitude ax ay az
             | None => accel_magnitude ax ay az
             end = Some signal /\ length signal = length ax).
  { destruct fm as [fm0|]; [|eauto].
    destruct (length fm0 =? length ax)%nat eqn:E; [|eauto].
    apply Nat.eqb_eq in E. eauto. }
  destruct Hsig as (signal & -> & Hsl). cbn [Np.bind].
  destruct signal as [|x xs]; [simpl in Hsl; lia|].
  cbn [Np.np_max Np.np_min Np.bind find_peaks_call]. discriminate.
Qed.

End LdljTheorems.

Lemma compute_ldlj_short_circuit_witness :
  compute_ldlj short_rep short_rep short_rep short_rep_ts None = (0, 50).
Proof.
  apply (compute_ldlj_short_circuit (lib := RefScipy)).
  left. vm_compute. lia.
Defined.

(** C3, counterexample.  For a three-sample rep the two scores add up to
    50, not to 100. *)
Lemma compute_ldlj_short_rep_sums_to_50 :
  let r := compute_ldlj short_rep short_rep short_rep short_rep_ts None in
  r = (0, 50) /\ ~ (fst r + snd r == 100).
Proof.
  split; [reflexivity|]. vm_compute. discriminate.
Qed.

Lemma compute_ldlj_scores_sum_witness :
  let r := compute_ldlj four_sample_rep four_sample_rep four_sample_rep
             four_sample_ts None in
  fst r + snd r == 100.
Proof.
  apply (compute_ldlj_scores_sum (lib := RefScipy)) with (t0 := 0) (tn := 300).
  - vm_compute. lia.
  - reflexivity.
  - reflexivity.
  - reflexivity.
  - apply compute_ldlj_try_defined; [reflexivity|reflexivity|discriminate].
Defined.

(* ===================================================================== *)
(** * Session fatigue: [compute_fatigue_indicators]                        *)
(* ===================================================================== *)

Section Arithmetic.

Lemma py_max_Qmax a b : Np.py_max a b == Qmax a b.
Proof.
  unfold Np.py_max. destruct (Qlt_le_dec a b) as [H|H].
  - symmetry. apply Q.max_r. lra.
  - symmetry. apply Q.max_l. exact H.
Qed.

Lemma py_min_Qmin a b : Np.py_min a b == Qmin a b.
Proof.
  unfold Np.py_min. destruct (Qlt_le_dec b a) as [H|H].
  - symmetry. apply Q.min_r. lra.
  - symmetry. apply Q.min_l. exact H.
Qed.

Lemma Qmax_cases a b : (a <= b /\ Qmax a b == b) \/ (b <= a /\ Qmax a b == a).
Proof.
  destruct (Qlt_le_dec a b) as [H|H].
  - left. split; [lra|]. apply Q.max_r. lra.
  - right. split; [lra|]. now apply Q.max_l.
Qed.

Lemma Qmin_cases a b : (a <= b /\ Qmin a b == a) \/ (b <= a /\ Qmin a b == b).
Proof.
  destruct (Qlt_le_dec a b) as [H|H].
  - left. split; [lra|]. apply Q.min_l. lra.
  - right. split; [lra|]. now apply Q.min_r.
Qed.

Lemma gtb_true x y : Np.gtb x y = true <-> y < x.
Proof.
  unfold Np.gtb. destruct (Qle_bool x y) eqn:E; simpl.
  - apply Qle_bool_iff in E. split; [discriminate|lra].
  - split; [|reflexivity]. intros _.
    destruct (Qlt_le_dec y x) as [H|H]; [exact H|].
    apply Qle_bool_iff in H. congruence.
Qed.

Lemma ltb_true x y : Np.ltb x y = true <-> x < y.
Proof. apply (gtb_true y x). Qed.

Lemma gtb_false x y : Np.gtb x y = false <-> x <= y.
Proof.
  unfold Np.gtb. destruct (Qle_bool x y) eqn:E; simpl.
  - apply Qle_bool_iff in E. tauto.
  - split; [discriminate|]. intros H. apply Qle_bool_iff in H. congruence.
Qed.

Lemma ltb_false x y : Np.ltb x y = false <-> y <= x.
Proof. apply (gtb_false y x). Qed.

End Arithmetic.

Ltac max_min_cases :=
  repeat match goal with
         | |- context [Qmax ?a ?b] =>
             let H := fresh "Hord" in
             let H' := fresh "Hmax" in
             destruct (Qmax_cases a b) as [[H H']|[H H']];
             revert H H'; generalize (Qmax a b); intro
         | |- context [Qmin ?a ?b] =>
             let H := fresh "Hord" in
             let H' := fresh "Hmin" in
             destruct (Qmin_cases a b) as [[H H']|[H H']];
             revert H H'; generalize (Qmin a b); intro
         end;
  intros.

Section FatigueTheorems.
Context {lib : Scipy}.

Lemma fatigue_raw_spec (l : list metrics) :
  fatigue_raw l == composite_spec (D_omega l) (I_T l) (I_J l) (I_S l).
Proof.
  unfold fatigue_raw, worst_indicator, D_omega_clamped, I_T_clamped,
    I_J_clamped, I_S_clamped, composite_spec.
  generalize (D_omega l) (I_T l) (I_J l) (I_S l). intros D T J S.
  assert (Hw : Np.py_max (Np.py_max (Np.py_max (Np.py_max 0 D) (Np.py_max 0 T))
                                    (Np.py_max 0 J)) (Np.py_max 0 S)
               == Qmax (Qmax (Qmax 0 D) (Qmax 0 T)) (Qmax (Qmax 0 J) (Qmax 0 S))).
  { rewrite !py_max_Qmax. now rewrite <- Q.max_assoc. }
  revert Hw. generalize (Np.py_max (Np.py_max (Np.py_max (Np.py_max 0 D)
    (Np.py_max 0 T)) (Np.py_max 0 J)) (Np.py_max 0 S)).
  intros w Hw.
  destruct (Np.gtb w 0.40) eqn:Hg;
    [apply gtb_true in Hg; rewrite py_min_Qmin | apply gtb_false in Hg];
    rewrite !py_max_Qmax;
    destruct (Qlt_le_dec 0.40 _) as [Hs|Hs]; rewrite <- ?Hw in *;
    try reflexivity; lra.
Qed.

Lemma composite_spec_range D T J S :
  0 <= composite_spec D T J S /\ composite_spec D T J S <= 1.
Proof.
  unfold composite_spec.
  destruct (Qlt_le_dec 0.40 _) as [Hs|Hs]; revert Hs;
    max_min_cases; split; lra.
Qed.

Lemma fatigue_score_spec (l : list metrics) :
  fatigue_score l ==
  clamp 0 (composite_spec (D_omega l) (I_T l) (I_J l) (I_S l) * 100) 100.
Proof.
  unfold fatigue_score, clamp. rewrite py_min_Qmin, fatigue_raw_spec.
  destruct (composite_spec_range (D_omega l) (I_T l) (I_J l) (I_S l)).
  revert H H0.
  generalize (composite_spec (D_omega l) (I_T l) (I_J l) (I_S l)).
  intros c. max_min_cases; lra.
Qed.

Lemma fatigue_level_spec (l : list metrics) :
  fatigue_level l = level_spec (fatigue_score l).
Proof.
  unfold fatigue_level, level_spec.
  generalize (fatigue_score l). intros s.
  repeat match goal with
         | |- context [Np.ltb ?a ?b] =>
             let E := fresh "E" in
             destruct (Np.ltb a b) eqn:E;
             [apply ltb_true in E | apply ltb_false in E]
         end;
  repeat match goal with
         | |- context [Qlt_le_dec ?a ?b] => destruct (Qlt_le_dec a b)
         end; try reflexivity; lra.
Qed.

(** ** Rounding of reported values *)

Lemma round_half_even_close (x : Q) :
  Qabs (inject_Z (Np.round_half_even x) - x) <= 1 # 2.
Proof.
  unfold Np.round_half_even.
  pose proof (Qfloor_le x) as Hlo. pose proof (Qlt_floor x) as Hhi.
  rewrite inject_Z_plus in Hhi. change (inject_Z 1) with 1 in Hhi.
  apply Qabs_Qle_condition.
  destruct (Qlt_le_dec (x - inject_Z (Qfloor x)) (1 # 2)) as [H|H];
    [split; lra|].
  destruct (Qlt_le_dec (1 # 2) (x - inject_Z (Qfloor x))) as [H'|H'].
  - rewrite inject_Z_plus. change (inject_Z 1) with 1. split; lra.
  - destruct (Z.even (Qfloor x)); [split; lra|].
    rewrite inject_Z_plus. change (inject_Z 1) with 1. split; lra.
Qed.

Lemma py_round_one_decimal (x : Q) :
  Np.py_round x 1 == inject_Z (Np.round_half_even (x * 10)) / 10 /\
  Qabs (Np.py_round x 1 - x) <= 0.05.
Proof.
  unfold Np.py_round. change (inject_Z (10 ^ Z.of_nat 1)) with 10.
  split; [reflexivity|].
  pose proof (round_half_even_close (x * 10)) as H.
  apply Qabs_Qle_condition in H as [H1 H2].
  apply Qabs_Qle_condition.
  generalize dependent (inject_Z (Np.round_half_even (x * 10))). intros z H1 H2.
  unfold Qdiv. change (/ 10) with (1 # 10). split; lra.
Qed.



Lemma py_round_of_tenths (x : Q) (k : Z) :
  x == inject_Z k / 10 -> Np.py_round x 1 == x.
Proof.
  intros Hx. destruct (py_round_one_decimal x) as [Ht _]. rewrite Ht.
  pose proof (round_half_even_close (x * 10)) as H.
  assert (Hk : x * 10 == inject_Z k) by (rewrite Hx; field).
  apply Qabs_Qle_condition in H as [H1 H2].
  set (z := Np.round_half_even (x * 10)) in *.
  assert (Hz : z = k).
  { assert (Ha : inject_Z (z - k) < inject_Z 1).
    { unfold Zminus. rewrite inject_Z_plus, inject_Z_opp.
      change (inject_Z 1) with 1. lra. }
    assert (Hb : inject_Z (-1) < inject_Z (z - k)).
    { unfold Zminus. rewrite inject_Z_plus, inject_Z_opp.
      change (inject_Z (-1)) with (-(1)). lra. }
    rewrite <- Zlt_Qlt in Ha, Hb. lia. }
  rewrite Hz, Hx. reflexivity.
Qed.

Lemma reported_exactly (r : pyval) (key : string) (x value : Q) (k : Z) :
  dict_get r key = Some (VNum (Np.py_round x 1)) ->
  x == value -> value == inject_Z k / 10 ->
  exists q, dict_get r key = Some (VNum q) /\ q == value.
Proof.
  intros Hget Hx Hk. exists (Np.py_round x 1). split; [exact Hget|].
  rewrite (@py_round_of_tenths x k) by (rewrite Hx; exact Hk). exact Hx.
Qed.


Lemma assoc_in {A : Type} key (d : list (string * A)) v :
  assoc key d = Some v -> In (key, v) d.
Proof.
  induction d as [|[k w] d IH]; simpl; [discriminate|].
  destruct (String.eqb k key) eqn:E.
  - apply String.eqb_eq in E. intros [= ->]. left. now subst.
  - intros H. right. auto.
Qed.

(** C2.  For fewer than three reps - the empty list included - the
    function returns, without raising, a dictionary with every field of
    the session fatigue report: the score and the fifteen other numbers of
    the report are 0, the level is ["insufficient_data"], the direction
    ["stable"], the seventeen numbers of the early-versus-late block are 0,
    the performance report carries its three entries, and
    [n_reps_analyzed] is the length of the input.  Its keys are those of
    the full report in the same order, apart from the three entries
    [has_gyro], [gyro_trend] and [gyro_consistency]; no number in it other
    than [n_reps_analyzed] differs from 0. *)
Theorem insufficient_data_sentinel (l : list metrics) :
  (length l < 3)%nat ->
  let r := compute_fatigue_indicators l in
  dict_get r "fatigue_score" = Some (VNum 0) /\
  dict_get r "fatigue_level" = Some (VStr "insufficient_data") /\
  dict_get r "n_reps_analyzed" = Some (VNum (Np.of_nat (length l))) /\
  Forall (fun key => dict_get r key = Some (VNum 0)) report_number_fields /\
  dict_get r "gyro_direction" = Some (VStr "stable") /\
  (exists block,
     dict_get r "early_vs_late" = Some block /\
     dict_keys block = early_vs_late_fields /\
     Forall (fun key => dict_get block key = Some (VNum 0)) early_vs_late_fields) /\
  (exists report finding,
     dict_get r "performance_report" = Some report /\
     dict_get report "session_quality" = Some (VStr "Insufficient Data") /\
     dict_get report "consistency_rating" = Some (VStr "Unknown") /\
     dict_get report "key_findings" = Some (VList [VStr finding])) /\
  dict_keys r =
    ["fatigue_score"; "fatigue_level"; "D_omega"; "I_T"; "I_J"; "I_S";
     "gyro_direction"; "consistency_score"; "rom_trend"; "smoothness_trend";
     "duration_trend"; "peak_trend"; "rom_consistency";
     "smoothness_consistency"; "duration_consistency"; "peak_consistency";
     "rom_change_percent"; "smoothness_degradation_percent"; "early_vs_late";
     "performance_report"; "n_reps_analyzed"] /\
  (forall l', (3 <= length l')%nat ->
     let full := compute_fatigue_indicators l' in
     dict_keys r = filter (fun key => negb (existsb (String.eqb key) gyro_only_fields))
                          (dict_keys full) /\
     exists block block',
       dict_get r "early_vs_late" = Some block /\
       dict_get full "early_vs_late" = Some block' /\
       dict_keys block = dict_keys block') /\
  (forall key v, dict_get r key = Some v -> key <> "n_reps_analyzed" ->
                 Forall (fun q => q = 0) (numeric_leaves v)).
Proof.
  intros Hlen r.
  assert (Hr : r = insufficient_data (length l)).
  { subst r. unfold compute_fatigue_indicators.
    apply Nat.ltb_lt in Hlen. now rewrite Hlen. }
  rewrite Hr.
  split; [reflexivity|]. split; [reflexivity|]. split; [reflexivity|].
  split; [repeat constructor|]. split; [reflexivity|].
  split.
  { eexists. split; [reflexivity|]. split; [reflexivity|repeat constructor]. }
  split.
  { do 2 eexists. repeat split. }
  split; [reflexivity|].
  split.
  { intros l' Hl' full.
    assert (Hf : full = full_analysis l').
    { subst full. unfold compute_fatigue_indicators.
      apply Nat.ltb_ge in Hl'. now rewrite Hl'. }
    rewrite Hf. split; [reflexivity|].
    do 2 eexists. split; [reflexivity|]. split; reflexivity. }
  intros key v Hget Hkey. unfold insufficient_data, dict_get in Hget.
  apply assoc_in in Hget. simpl in Hget.
  repeat destruct Hget as [Hget|Hget];
    try (injection Hget as <- <-; simpl; repeat constructor);
    contradiction.
Qed.

(** ** Consistency *)

Lemma np_sum_from (l : list Q) (a : Q) :
  fold_left Qplus l a == a + Np.np_sum l.
Proof.
  unfold Np.np_sum. revert a.
  induction l as [|x l IH]; intros a; simpl; [lra|].
  rewrite (IH (a + x)), (IH (0 + x)). lra.
Qed.

Lemma np_sum_cons x l : Np.np_sum (x :: l) == x + Np.np_sum l.
Proof. unfold Np.np_sum at 1. simpl. rewrite np_sum_from. lra. Qed.

Lemma np_sum_repeat c n : Np.np_sum (repeat c n) == Np.of_nat n * c.
Proof.
  induction n as [|n IH].
  - reflexivity.
  - cbn [repeat]. rewrite np_sum_cons, IH. unfold Np.of_nat.
    rewrite Nat2Z.inj_succ, <- Z.add_1_r, inject_Z_plus.
    change (inject_Z 1) with 1. ring.
Qed.

Lemma of_nat_pos n : (1 <= n)%nat -> 0 < Np.of_nat n.
Proof.
  intros H. unfold Np.of_nat. change 0 with (inject_Z 0).
  rewrite <- Zlt_Qlt. lia.
Qed.

Lemma np_mean_repeat c n : (1 <= n)%nat -> Np.np_mean (repeat c n) == c.
Proof.
  intros H. unfold Np.np_mean. rewrite repeat_length, np_sum_repeat.
  pose proof (of_nat_pos H). field. lra.
Qed.

Lemma np_sum_zero l : Forall (fun x => x == 0) l -> Np.np_sum l == 0.
Proof.
  induction 1 as [|x l Hx _ IH]; [reflexivity|].
  rewrite np_sum_cons, Hx, IH. lra.
Qed.

Lemma np_mean_zero l : Forall (fun x => x == 0) l -> Np.np_mean l == 0.
Proof.
  intros H. unfold Np.np_mean. rewrite (np_sum_zero H).
  unfold Qdiv. lra.
Qed.

Lemma np_std_repeat c n : (1 <= n)%nat -> np_std (repeat c n) == 0.
Proof.
  intros H. unfold np_std. apply np_sqrt_zero, np_mean_zero.
  apply Forall_forall. intros y Hy. apply in_map_iff in Hy as (x & <- & Hx).
  apply repeat_spec in Hx. subst x. rewrite (np_mean_repeat c H). lra.
Qed.

Lemma eqb_false x y : ~ x == y -> Np.eqb x y = false.
Proof.
  intros H. unfold Np.eqb. destruct (Qeq_bool x y) eqn:E; [|reflexivity].
  apply Qeq_bool_iff in E. contradiction.
Qed.

Lemma eqb_true x y : x == y -> Np.eqb x y = true.
Proof. intros H. now apply Qeq_bool_iff. Qed.




End FatigueTheorems.



Lemma insufficient_data_sentinel_witness :
  let r := compute_fatigue_indicators [rep_of_duration 1000; rep_of_duration 1200] in
  dict_get r "fatigue_score" = Some (VNum 0) /\
  dict_get r "n_reps_analyzed" = Some (VNum 2) /\
  dict_get (compute_fatigue_indicators []) "n_reps_analyzed" = Some (VNum 0).
Proof.
  destruct (insufficient_data_sentinel (lib := RefScipy)
              [rep_of_duration 1000; rep_of_duration 1200] ltac:(simpl; lia))
    as (H1 & _ & H2 & _).
  destruct (insufficient_data_sentinel (lib := RefScipy) [] ltac:(simpl; lia))
    as (_ & _ & H3 & _).
  split; [exact H1|]. split; [exact H2|exact H3].
Defined.



(* ===================================================================== *)
(** * Segmentation: [resegment_single_source]                              *)
(* ===================================================================== *)

Ltac bind_inv H :=
  repeat match type of H with
         | Np.bind ?c _ = Some _ =>
             let E := fresh "E" in
             destruct c eqn:E; simpl Np.bind in H; [|discriminate H]
         end.

Section SegmentationTheorems.
Context {lib : Scipy}.

Lemma Sorted_snoc {A : Type} (R : A -> A -> Prop) (l : list A) (x d : A) :
  Sorted R l -> (l <> [] -> R (last l d) x) -> Sorted R (l ++ [x]).
Proof.
  induction l as [|a l IH]; intros Hs Hlast; simpl.
  - repeat constructor.
  - apply Sorted_inv in Hs as [Hs Hhd]. constructor.
    + apply IH; [exact Hs|]. intros Hne. destruct l; [congruence|].
      apply Hlast. discriminate.
    + destruct l as [|b l]; simpl.
      * constructor. apply Hlast. discriminate.
      * constructor. now apply HdRel_inv in Hhd.
Qed.




(** ** The degenerate segmentation *)

Lemma smooth_length e signal : length (smooth e signal) = length signal.
Proof.
  unfold smooth. destruct (is_weight_stack e).
  - destruct (5 <=? _)%nat; [apply savgol_filter_length|reflexivity].
  - destruct (11 <? _)%nat; [apply savgol_filter_length|reflexivity].
Qed.

Lemma argmax_from_bound l : forall i best m,
  Np.argmax_from i best m l = best \/
  (i <= Np.argmax_from i best m l < i + length l)%nat.
Proof.
  induction l as [|y l IH]; intros i best m; simpl; [now left|].
  destruct (Qlt_le_dec m y).
  - destruct (IH (S i) i y) as [->|H]; right; lia.
  - destruct (IH (S i) best m) as [->|H]; [now left|right; lia].
Qed.

Lemma np_argmax_bound l i : Np.np_argmax l = Some i -> (i < length l)%nat.
Proof.
  destruct l as [|x l]; simpl; [discriminate|]. intros [= <-].
  destruct (argmax_from_bound l 1 0 x) as [->|H]; lia.
Qed.

Lemma slice_length {A : Type} (l : list A) lo hi :
  (hi <= length l)%nat -> length (Np.slice l lo hi) = (hi - lo)%nat.
Proof.
  intros H. unfold Np.slice. rewrite length_firstn, length_skipn. lia.
Qed.

Lemma nth_error_defined {A : Type} (l : list A) i :
  (i < length l)%nat -> exists x, nth_error l i = Some x.
Proof.
  intros H. destruct (nth_error l i) eqn:E; [eauto|].
  apply nth_error_None in E. lia.
Qed.

Lemma rep_entry_defined ts sig sm k a e :
  length sig = length ts -> length sm = length ts ->
  (a <= e < length ts)%nat ->
  exists r,
    rep_entry ts sig sm k a e None = Some r /\
    assoc "rep" r = Some (Np.of_nat k) /\
    assoc "start_idx" r = Some (Np.of_nat a) /\
    assoc "end_idx" r = Some (Np.of_nat e) /\
    map fst r = tail_rep_keys.
Proof.
  intros Hsig Hsm Hae. unfold rep_entry.
  destruct (nth_error_defined ts (i := a)) as [ta ->]; [lia|].
  destruct (nth_error_defined ts (i := e)) as [te ->]; [lia|]. simpl Np.bind.
  assert (Hlen : length (Np.slice sm a (S e)) = (S e - a)%nat)
    by (apply slice_length; lia).
  destruct (Np.np_argmax (Np.slice sm a (S e))) as [pl|] eqn:Ep.
  2:{ destruct (Np.slice sm a (S e)) as [|x xs];
      [cbn [length] in Hlen; lia | discriminate Ep]. }
  apply np_argmax_bound in Ep. simpl Np.bind.
  destruct (nth_error_defined ts (i := (a + pl)%nat)) as [tp ->]; [lia|].
  destruct (nth_error_defined sig (i := (a + pl)%nat)) as [vp ->]; [lia|].
  destruct (nth_error_defined sig (i := a)) as [va ->]; [lia|]. simpl Np.bind.
  eexists. split; [reflexivity|]. repeat split.
Qed.

Lemma assign_all_from (labels : list Z) (v : Z) : forall a hi,
  (a + length labels <= S hi)%nat ->
  map (fun il => if (0 <=? fst il)%nat && (fst il <=? hi)%nat
                 then v else snd il)
      (combine (seq a (length labels)) labels)
  = repeat v (length labels).
Proof.
  induction labels as [|x labels IH]; intros a hi H; [reflexivity|].
  cbn [length] in *. cbn [seq combine map repeat fst snd]. f_equal.
  - destruct (a <=? hi)%nat eqn:E; [reflexivity|].
    apply Nat.leb_gt in E. lia.
  - apply IH. lia.
Qed.

Lemma assign_all (labels : list Z) (v : Z) :
  assign labels 0 (length labels - 1) v = repeat v (length labels).
Proof. unfold assign. apply assign_all_from. lia. Qed.

Lemma filter_by_duration_prefix ts mn mx cands :
  forall valid vv,
    filter_by_duration ts mn mx valid cands = Some vv ->
    exists ext, vv = valid ++ ext.
Proof.
  induction cands as [|idx rest IH]; intros valid vv H; simpl in H.
  - injection H as <-. exists []. now rewrite app_nil_r.
  - bind_inv H. destruct (_ && _).
    + apply IH in H as [ext ->]. exists (idx :: ext).
      now rewrite <- app_assoc.
    + now apply IH in H.
Qed.

Lemma tail_search_prefix ts sm d p mn valid vv :
  tail_search ts sm d p mn valid = Some vv -> exists ext, vv = valid ++ ext.
Proof.
  unfold tail_search. intros H.
  assert (Hid : exists ext, valid = valid ++ ext)
    by (exists []; now rewrite app_nil_r).
  destruct (_ =? _)%nat; [injection H as <-; exact Hid|].
  bind_inv H.
  destruct (Np.geb _ _); [|injection H as <-; exact Hid].
  destruct (_ <? _)%Z; [|injection H as <-; exact Hid].
  bind_inv H.
  destruct (0 <? _)%nat; injection H as <-; [eauto|exact Hid].
Qed.

Lemma guided_loop_prefix sm reps orig :
  forall valid, exists ext, guided_loop sm reps orig valid = valid ++ ext.
Proof.
  induction orig as [|r rest IH]; intros valid; simpl.
  - exists []. now rewrite app_nil_r.
  - destruct (guided_valley sm (where_rep reps r)) as [v|]; [|apply IH].
    destruct (_ <? _)%nat; [|apply IH].
    destruct (IH (valid ++ [v])) as [ext ->]. exists (v :: ext).
    now rewrite <- app_assoc.
Qed.

(** The first boundary is always the first sample. *)
Lemma boundaries_start df mn mx vv log :
  boundaries df mn mx = Some (vv, log) -> exists rest, vv = O :: rest.
Proof.
  unfold boundaries. intros H. bind_inv H.
  destruct p as [valid dlog].
  assert (Hvalid : exists rest, valid = O :: rest).
  { unfold detected_boundaries in E. bind_inv E.
    destruct p as [[cands p'] clog]. bind_inv E.
    injection E as <- _.
    apply filter_by_duration_prefix in E3 as [ext1 ->].
    apply tail_search_prefix in E4 as [ext2 ->]. simpl. eauto. }
  destruct (_ && _).
  - injection H as <- _. unfold guided_fallback.
    destruct (guided_loop_prefix
                (smooth (detect_exercise (source_file df))
                        (map filteredMag (rows df)))
                (map rep (rows df)) (original_reps_of (map rep (rows df))) [O])
      as [ext ->].
    destruct (_ <? _)%nat; simpl; eauto.
  - injection H as <- _. exact Hvalid.
Qed.

(** C7 (amended).  When the whole ladder yields fewer than two boundaries
    and the session has at least two samples, the result is exactly one
    rep: number 1, from sample 0 to the last sample, and every sample is
    labelled 1.  Its dictionary has the keys of any rep that runs to the
    end of a session, and no other. *)
Theorem degenerate_single_rep (df : dataframe) (min_ms max_ms : Q)
    (valid_valleys : list nat) (log : list event) :
  boundaries df min_ms max_ms = Some (valid_valleys, log) ->
  (length valid_valleys < 2)%nat ->
  (2 <= length (rows df))%nat ->
  exists r,
    resegment_single_source df min_ms max_ms =
      Some {| rep_column := repeat 1%Z (length (rows df));
              rep_original := map rep (rows df);
              rep_info := [r];
              printed := log |} /\
    assoc "rep" r = Some 1 /\
    assoc "start_idx" r = Some 0 /\
    assoc "end_idx" r = Some (Np.of_nat (length (rows df) - 1)) /\
    map fst r = tail_rep_keys.
Proof.
  intros Hb Hshort Hn.
  destruct (boundaries_start _ _ _ Hb) as [rest ->].
  destruct rest as [|b rest]; [|simpl in Hshort; lia].
  unfold resegment_single_source. rewrite Hb.
  simpl Np.bind. unfold build_last. simpl last.
  rewrite length_map.
  assert (Hlt : (0 <? length (rows df) - 1)%nat = true)
    by (apply Nat.ltb_lt; lia).
  rewrite Hlt.
  destruct (@rep_entry_defined
              (map timestamp_ms (rows df)) (map filteredMag (rows df))
              (smooth (detect_exercise (source_file df))
                      (map filteredMag (rows df)))
              1%nat 0%nat (length (rows df) - 1)%nat)
    as (r & Hr & Hrep & Hstart & Hend & Hkeys).
  { now rewrite !length_map. }
  { now rewrite smooth_length, !length_map. }
  { rewrite length_map. lia. }
  exists r. simpl length. rewrite Hr.
  cbn [Np.bind fst snd]. change (Z.of_nat 1) with 1%Z.
  replace (assign (repeat 0%Z (length (rows df))) 0 (length (rows df) - 1) 1%Z)
    with (repeat 1%Z (length (rows df))).
  - repeat split; assumption.
  - pose proof (assign_all (repeat 0%Z (length (rows df))) 1%Z) as Ha.
    rewrite repeat_length in Ha. now rewrite Ha.
Qed.

(** ** The fallback ladder *)

Lemma argmin_from_spec l : forall i best m,
  (Np.argmin_from i best m l = best /\ forall y, In y l -> m <= y) \/
  (exists k, Np.argmin_from i best m l = (i + k)%nat /\ (k < length l)%nat /\
             nth k l 0 <= m /\ forall y, In y l -> nth k l 0 <= y).
Proof.
  induction l as [|y l IH]; intros i best m; simpl.
  - left. split; [reflexivity|]. tauto.
  - destruct (Qlt_le_dec y m) as [Hlt|Hle].
    + right. destruct (IH (S i) i y) as [[-> Hall]|(k & -> & Hk & Hm & Hall)].
      * exists O. repeat split; [lia|simpl; lia|simpl; lra|].
        simpl. intros z [<-|Hz]; [lra|auto].
      * exists (S k). repeat split; [lia|simpl; lia|simpl; lra|].
        simpl. intros z [<-|Hz]; [lra|auto].
    + destruct (IH (S i) best m) as [[-> Hall]|(k & -> & Hk & Hm & Hall)].
      * left. split; [reflexivity|]. intros z [<-|Hz]; [lra|auto].
      * right. exists (S k). repeat split; [lia|simpl; lia|simpl; lra|].
        simpl. intros z [<-|Hz]; [lra|auto].
Qed.

Lemma np_argmin_spec l k :
  Np.np_argmin l = Some k ->
  (k < length l)%nat /\ forall j, (j < length l)%nat -> nth k l 0 <= nth j l 0.
Proof.
  destruct l as [|x l]; simpl; [discriminate|]. intros [= <-].
  destruct (argmin_from_spec l 1 0 x) as [[-> Hall]|(k & -> & Hk & Hm & Hall)].
  - split; [lia|]. intros [|j] Hj; [lra|]. apply Hall, nth_In. lia.
  - split; [simpl; lia|]. simpl. intros [|j] Hj; [lra|].
    apply Hall, nth_In. lia.
Qed.

Lemma slice_nth (l : list Q) lo hi k :
  (k < hi - lo)%nat -> nth k (Np.slice l lo hi) 0 = nth (lo + k) l 0.
Proof.
  intros H. unfold Np.slice. rewrite nth_firstn.
  apply Nat.ltb_lt in H. rewrite H. apply nth_skipn.
Qed.

Lemma guided_valley_window sm idxs v :
  guided_valley sm idxs = Some v ->
  exists rep_start_idx,
    hd_error idxs = Some rep_start_idx /\
    let rep_end_idx := last idxs O in
    let w := search_window (rep_end_idx - rep_start_idx) in
    (10 <= w)%nat /\
    (rep_end_idx - w <= v)%nat /\
    (v < Nat.min (length sm) (rep_end_idx + w))%nat /\
    forall j, (rep_end_idx - w <= j)%nat ->
              (j < Nat.min (length sm) (rep_end_idx + w))%nat ->
              nth v sm 0 <= nth j sm 0.
Proof.
  unfold guided_valley. destruct idxs as [|s0 rest]; [discriminate|].
  set (e := last (s0 :: rest) O). set (w := search_window (e - s0)).
  intros H. exists s0. split; [reflexivity|]. cbv zeta.
  assert (Hw : (10 <= w)%nat) by (unfold w, search_window; lia).
  destruct (3 <? _)%nat eqn:Hlen; [|discriminate].
  destruct (Np.np_argmin _) as [k|] eqn:Ek; [|discriminate].
  injection H as <-. apply np_argmin_spec in Ek as [Hk Hmin].
  rewrite slice_length in Hk, Hmin by lia.
  repeat split; try lia.
  intros j Hlo Hhi.
  specialize (Hmin (j - (e - w))%nat ltac:(lia)).
  rewrite !slice_nth in Hmin by lia.
  now replace (e - w + (j - (e - w)))%nat with j in Hmin by lia.
Qed.

Lemma detect_candidates_ladder signal_smooth d p :
  (1 <= d)%Z ->
  detect_candidates signal_smooth d p =
  Some (ladder (find_peaks (Np.np_neg signal_smooth) (Some d))
               (find_peaks signal_smooth (Some d)) p).
Proof.
  intros Hd. unfold detect_candidates, retry_loop, find_valleys, ladder,
    find_peaks_call.
  assert (Hlt : (d <? 1)%Z = false) by (apply Z.ltb_ge; lia).
  rewrite Hlt. cbn [Np.bind].
  repeat match goal with
         | |- context [(2 <=? length ?v)%nat] =>
             let E := fresh "E" in
             destruct (2 <=? length v)%nat eqn:E;
             [apply Nat.leb_le in E | apply Nat.leb_gt in E]
         | |- context [(length ?v <? 2)%nat] =>
             let E := fresh "E" in
             destruct (length v <? 2)%nat eqn:E;
             [apply Nat.ltb_lt in E | apply Nat.ltb_ge in E]
         | _ => progress cbn [Np.bind app]
         end; try reflexivity; try lia.
Qed.


(** ** The last sample on the guided path *)

Lemma last_in {A : Type} (l : list A) (d : A) : l <> [] -> In (last l d) l.
Proof.
  induction l as [|a l IH]; [congruence|]. intros _.
  destruct l as [|b l]; [now left|]. right. apply IH. discriminate.
Qed.

Lemma guided_loop_inv sm reps orig :
  forall valid,
    valid <> [] -> Sorted lt valid ->
    Forall (fun b => (b < length sm)%nat) valid ->
    let res := guided_loop sm reps orig valid in
    res <> [] /\ Sorted lt res /\ Forall (fun b => (b < length sm)%nat) res.
Proof.
  induction orig as [|r rest IH]; intros valid Hne Hs Hall; simpl; [auto|].
  destruct (guided_valley sm (where_rep reps r)) as [v|] eqn:Ev;
    [|now apply IH].
  destruct (_ <? _)%nat eqn:El; [|now apply IH].
  apply Nat.ltb_lt in El.
  apply guided_valley_window in Ev as (s0 & _ & _ & _ & Hv & _).
  apply IH.
  - destruct valid; discriminate.
  - apply Sorted_snoc with (d := O); auto.
  - apply Forall_app. split; [exact Hall|]. constructor; [lia|constructor].
Qed.

Lemma guided_fallback_shape sm reps orig :
  (1 <= length sm)%nat -> length reps = length sm ->
  let vv := guided_fallback sm reps orig in
  Sorted lt vv /\ Forall (fun b => (b <= length sm - 1)%nat) vv /\
  last vv O = (length sm - 1)%nat.
Proof.
  intros Hn Hlen. unfold guided_fallback.
  destruct (guided_loop_inv sm reps orig (valid := [O]))
    as (Hne & Hs & Hall); [discriminate|repeat constructor|repeat constructor; lia|].
  cbv zeta in Hne, Hs, Hall.
  set (res := guided_loop sm reps orig [O]) in *. rewrite Hlen.
  destruct (_ <? _)%nat eqn:El.
  - apply Nat.ltb_lt in El. repeat split.
    + apply Sorted_snoc with (d := O); auto.
    + apply Forall_app. split.
      * eapply Forall_impl; [|exact Hall]. simpl. intros. lia.
      * repeat constructor.
    + apply last_last.
  - apply Nat.ltb_ge in El. repeat split; [exact Hs| |].
    + eapply Forall_impl; [|exact Hall]. simpl. intros. lia.
    + pose proof (last_in O Hne) as Hin. rewrite Forall_forall in Hall.
      apply Hall in Hin. lia.
Qed.

Lemma nth_error_combine_seq (l : list Z) : forall a j,
  nth_error (combine (seq a (length l)) l) j =
  option_map (fun x => ((a + j)%nat, x)) (nth_error l j).
Proof.
  induction l as [|x l IH]; intros a [|j]; simpl; try reflexivity.
  - now rewrite Nat.add_0_r.
  - rewrite IH. destruct (nth_error l j); simpl; [|reflexivity].
    do 2 f_equal. lia.
Qed.

Lemma assign_above labels lo hi v j :
  (hi < j)%nat -> nth_error (assign labels lo hi v) j = nth_error labels j.
Proof.
  intros H. unfold assign. rewrite nth_error_map, nth_error_combine_seq.
  destruct (nth_error labels j); simpl; [|reflexivity].
  assert (Hhi : (j <=? hi)%nat = false) by (apply Nat.leb_gt; exact H).
  now rewrite Hhi, andb_false_r.
Qed.

Lemma build_reps_above ts sig sm j : forall vv i labels out,
  Sorted lt vv -> Forall (fun b => (b <= j)%nat) vv ->
  build_reps ts sig sm vv i labels = Some out ->
  nth_error (fst out) j = nth_error labels j.
Proof.
  induction vv as [|a vv IH]; intros i labels out Hs Hall H; simpl in H.
  - now injection H as <-.
  - destruct vv as [|b vv]; [now injection H as <-|].
    bind_inv H. injection H as <-. cbn [fst].
    apply Sorted_inv in Hs as [Hs Hhd]. apply HdRel_inv in Hhd.
    apply Forall_inv_tail in Hall.
    rewrite (IH _ _ _ Hs Hall E0).
    apply assign_above. apply Forall_inv in Hall. lia.
Qed.

(** Whenever the guided fallback supplies the boundaries, the last sample
    of the session keeps label 0. *)
Lemma guided_path_last_sample_unlabelled (df : dataframe) (min_ms max_ms : Q)
    (valid : list nat) (log : list event) (out : segmentation) :
  detected_boundaries df min_ms max_ms = Some (valid, log) ->
  (length valid <= 1)%nat ->
  original_reps_of (map rep (rows df)) <> [] ->
  resegment_single_source df min_ms max_ms = Some out ->
  nth_error (rep_column out) (length (rows df) - 1) = Some 0%Z.
Proof.
  intros Hd Hshort Horig Hrun.
  assert (Hn : (1 <= length (rows df))%nat).
  { unfold detected_boundaries in Hd. bind_inv Hd.
    unfold adaptive_prominence in E. bind_inv E.
    pose proof (smooth_length (detect_exercise (source_file df))
                  (map filteredMag (rows df))) as Hl.
    destruct (smooth _ _); [discriminate|].
    rewrite length_map in Hl. simpl in Hl. lia. }
  unfold resegment_single_source, boundaries in Hrun. rewrite Hd in Hrun.
  cbn [Np.bind] in Hrun.
  assert (Hc : ((length valid <=? 1)%nat &&
                (1 <=? length (original_reps_of (map rep (rows df))))%nat)
               = true).
  { apply andb_true_iff. split; [now apply Nat.leb_le|].
    apply Nat.leb_le. destruct (original_reps_of _); [congruence|simpl; lia]. }
  rewrite Hc in Hrun. cbn [Np.bind] in Hrun.
  set (sm := smooth (detect_exercise (source_file df))
                    (map filteredMag (rows df))) in *.
  assert (Hsm : length sm = length (rows df))
    by (unfold sm; now rewrite smooth_length, length_map).
  destruct (guided_fallback_shape sm (map rep (rows df))
              (original_reps_of (map rep (rows df))))
    as (Hs & Hall & Hlast); [lia|now rewrite length_map|].
  cbv zeta in Hs, Hall, Hlast.
  set (vv := guided_fallback sm (map rep (rows df))
               (original_reps_of (map rep (rows df)))) in *.
  bind_inv Hrun. injection Hrun as <-. cbn [rep_column].
  unfold build_last in E0. rewrite length_map, Hlast, Hsm, Nat.ltb_irrefl in E0.
  injection E0 as <-. cbn [fst].
  rewrite Hsm in Hall.
  rewrite (@build_reps_above _ _ _ _ _ _ _ _ Hs Hall E).
  apply nth_error_repeat. lia.
Qed.

(** ** The order of the fallbacks *)

Lemma search_window_fifth (rep_duration : nat) :
  search_window rep_duration = Nat.max (rep_duration / 5) 10.
Proof.
  unfold search_window, Np.py_int, Np.of_nat.
  cbn [Qnum Qden Qmult inject_Z].
  change (Z.pos (1 * 10)) with 10%Z.
  rewrite Z.quot_div_nonneg by lia.
  replace (Z.of_nat rep_duration * 2)%Z with (2 * Z.of_nat rep_duration)%Z by lia.
  change 10%Z with (2 * 5)%Z at 1.
  rewrite Z.div_mul_cancel_l by lia.
  change 5%Z with (Z.of_nat 5). rewrite <- Nat2Z.inj_div.
  change 10%Z with (Z.of_nat 10). rewrite <- Nat2Z.inj_max.
  apply Nat2Z.id.
Qed.

Lemma guided_loop_step sm reps r rest acc :
  guided_loop sm reps (r :: rest) acc =
  guided_loop sm reps rest
    (match guided_valley sm (where_rep reps r) with
     | Some valley_idx =>
         if (last acc O <? valley_idx)%nat then acc ++ [valley_idx] else acc
     | None => acc
     end).
Proof.
  cbn [guided_loop]. destruct (guided_valley sm (where_rep reps r)) as [v|];
    [destruct (last acc O <? v)%nat|]; reflexivity.
Qed.

Lemma guided_loop_members sm reps (P : nat -> Prop) : forall orig acc,
  (forall r v, In r orig -> guided_valley sm (where_rep reps r) = Some v -> P v) ->
  Forall P acc -> Forall P (guided_loop sm reps orig acc).
Proof.
  induction orig as [|r rest IH]; intros acc Hv Hacc; [exact Hacc|].
  rewrite guided_loop_step. apply IH.
  - intros r' v Hin. apply Hv. right. exact Hin.
  - destruct (guided_valley sm (where_rep reps r)) as [v|] eqn:E; [|exact Hacc].
    destruct (last acc O <? v)%nat; [|exact Hacc].
    apply Forall_app. split; [exact Hacc|].
    constructor; [|constructor]. apply (Hv r v); [left; reflexivity|exact E].
Qed.

Lemma guided_fallback_members sm reps orig b :
  In b (guided_fallback sm reps orig) ->
  b = O \/ b = (length reps - 1)%nat \/
  exists r, In r orig /\ guided_valley sm (where_rep reps r) = Some b.
Proof.
  unfold guided_fallback.
  set (P := fun b => b = O \/ b = (length reps - 1)%nat \/
                     exists r, In r orig /\
                               guided_valley sm (where_rep reps r) = Some b).
  assert (Hloop : Forall P (guided_loop sm reps orig [O])).
  { apply guided_loop_members.
    - intros r v Hr Hv. right. right. exists r. split; assumption.
    - constructor; [left; reflexivity|constructor]. }
  rewrite Forall_forall in Hloop.
  destruct (_ <? _)%nat; [|apply Hloop].
  intros Hin. apply in_app_or in Hin as [Hin|[<-|[]]]; [apply Hloop, Hin|].
  right. left. reflexivity.
Qed.

Lemma find_peaks_call_distance x d p r :
  find_peaks_call x (Some d) p = Some r -> (1 <= d)%Z.
Proof.
  unfold find_peaks_call. destruct (d <? 1)%Z eqn:E; [discriminate|].
  intros _. apply Z.ltb_ge in E. exact E.
Qed.

(** C6 (amended).  Whenever the boundaries of a session are computed,
    they were obtained in this order.  Valleys are detected at the profile
    prominence and, as long as fewer than two are detected, at one half,
    one quarter and one tenth of it; failing that, peaks are detected at
    half the prominence and used if there are two.  The duration filter,
    starting from sample 0, and then the tail search run on these
    candidates.  The guided fallback comes last and replaces the result
    exactly when at most the start boundary is left and labelled reps
    exist; its message is the last one printed.  The guided boundaries
    start at sample 0, increase strictly and end at the last sample; every
    other one is a minimum of the smoothed signal over the window
    of max(span / 5, 10) samples on either side of the last sample of a
    labelled rep, and such a minimum is appended only when it lies after
    the last boundary accepted so far. *)
Theorem fallback_ladder_order
    (df : dataframe) (min_ms max_ms : Q)
    (valid_valleys : list nat) (log : list event) :
  boundaries df min_ms max_ms = Some (valid_valleys, log) ->
  let e := detect_exercise (source_file df) in
  let p := profile_of e min_ms max_ms in
  let timestamps := map timestamp_ms (rows df) in
  let reps := map rep (rows df) in
  let signal_smooth := smooth e (map filteredMag (rows df)) in
  let original_reps := original_reps_of reps in
  (exists min_prominence min_distance candidates prominence log_d
          filtered detected,
     adaptive_prominence p signal_smooth = Some min_prominence /\
     min_distance_of e timestamps = Some min_distance /\
     (1 <= min_distance)%Z /\
     ladder (find_peaks (Np.np_neg signal_smooth) (Some min_distance))
            (find_peaks signal_smooth (Some min_distance)) min_prominence
       = (candidates, prominence, log_d) /\
     filter_by_duration timestamps (min_rep_duration_ms p)
       (max_rep_duration_ms p) [O] candidates = Some filtered /\
     tail_search timestamps signal_smooth min_distance prominence
       (min_rep_duration_ms p) filtered = Some detected /\
     ((2 <= length detected)%nat \/ original_reps = [] ->
      valid_valleys = detected /\ log = log_d) /\
     ((length detected <= 1)%nat -> original_reps <> [] ->
      valid_valleys = guided_fallback signal_smooth reps original_reps /\
      log = log_d ++ [GuidedFallback original_reps])) /\
  (forall original_reps,
     let guided := guided_fallback signal_smooth reps original_reps in
     Sorted lt guided /\
     last guided O = (length reps - 1)%nat /\
     forall b, In b guided ->
       b = O \/ b = (length reps - 1)%nat \/
       exists r, In r original_reps /\
                 guided_valley signal_smooth (where_rep reps r) = Some b) /\
  (forall r rest accepted,
     guided_loop signal_smooth reps (r :: rest) accepted =
     guided_loop signal_smooth reps rest
       (match guided_valley signal_smooth (where_rep reps r) with
        | Some valley_idx =>
            if (last accepted O <? valley_idx)%nat
            then accepted ++ [valley_idx] else accepted
        | None => accepted
        end)) /\
  (forall sm rep_indices v,
     guided_valley sm rep_indices = Some v ->
     exists rep_start_idx,
       hd_error rep_indices = Some rep_start_idx /\
       let rep_end_idx := last rep_indices O in
       let w := Nat.max ((rep_end_idx - rep_start_idx) / 5) 10 in
       (rep_end_idx - w <= v)%nat /\
       (v < Nat.min (length sm) (rep_end_idx + w))%nat /\
       forall j, (rep_end_idx - w <= j)%nat ->
                 (j < Nat.min (length sm) (rep_end_idx + w))%nat ->
                 nth v sm 0 <= nth j sm 0) /\
  (forall sm distance prominence,
     (1 <= distance)%Z ->
     detect_candidates sm distance prominence =
     Some (ladder (find_peaks (Np.np_neg sm) (Some distance))
                  (find_peaks sm (Some distance)) prominence)).
Proof.
  intros H e p timestamps reps signal_smooth original_reps.
  assert (Hrun := H).
  unfold boundaries in H. fold e reps original_reps signal_smooth in H.
  destruct (detected_boundaries df min_ms max_ms) as [[detected log_d]|] eqn:Hd;
    [|discriminate H].
  cbn [Np.bind] in H.
  unfold detected_boundaries in Hd.
  fold e p timestamps signal_smooth in Hd.
  destruct (adaptive_prominence p signal_smooth) as [p0|] eqn:Ep;
    [|discriminate Hd].
  cbn [Np.bind] in Hd.
  assert (Hsm : length signal_smooth = length (rows df))
    by (unfold signal_smooth; now rewrite smooth_length, length_map).
  assert (Hn : (1 <= length (rows df))%nat).
  { rewrite <- Hsm. unfold adaptive_prominence in Ep.
    destruct signal_smooth; [discriminate Ep|simpl; lia]. }
  destruct (min_distance_of e timestamps) as [d|] eqn:Ed; [|discriminate Hd].
  cbn [Np.bind] in Hd.
  destruct (detect_candidates signal_smooth d p0) as [[[cands p'] clog]|] eqn:Ec;
    [|discriminate Hd].
  cbn [Np.bind] in Hd.
  destruct (filter_by_duration timestamps (min_rep_duration_ms p)
              (max_rep_duration_ms p) [O] cands) as [filtered|] eqn:Ef;
    [|discriminate Hd].
  cbn [Np.bind] in Hd.
  destruct (tail_search timestamps signal_smooth d p' (min_rep_duration_ms p)
              filtered) as [det|] eqn:Et; [|discriminate Hd].
  cbn [Np.bind] in Hd. injection Hd as -> ->.
  assert (Hd1 : (1 <= d)%Z).
  { unfold detect_candidates in Ec.
    destruct (find_valleys signal_smooth d p0) as [v0|] eqn:Ev;
      [|discriminate Ec].
    unfold find_valleys in Ev. eapply find_peaks_call_distance. exact Ev. }
  rewrite detect_candidates_ladder in Ec by exact Hd1.
  injection Ec as Hladder.
  split.
  { exists p0, d, cands, p', log_d, filtered, detected.
    do 3 (split; [first [reflexivity|assumption]|]).
    split; [exact Hladder|]. split; [exact Ef|]. split; [exact Et|].
    split.
    - intros Hcase.
      assert (Hc : ((length detected <=? 1)%nat &&
                    (1 <=? length original_reps)%nat) = false).
      { destruct Hcase as [Hlen| ->].
        - apply andb_false_iff. left. apply Nat.leb_gt. lia.
        - apply andb_false_iff. right. reflexivity. }
      rewrite Hc in H. injection H as <- <-. split; reflexivity.
    - intros Hlen Horig.
      assert (Hc : ((length detected <=? 1)%nat &&
                    (1 <=? length original_reps)%nat) = true).
      { apply andb_true_iff. split; [now apply Nat.leb_le|].
        apply Nat.leb_le. destruct original_reps; [congruence|simpl; lia]. }
      rewrite Hc in H. injection H as <- <-. split; reflexivity. }
  split.
  { intros orig guided.
    destruct (guided_fallback_shape signal_smooth reps orig)
      as (Hs & _ & Hlast).
    - unfold signal_smooth. rewrite smooth_length, length_map. exact Hn.
    - unfold signal_smooth, reps. now rewrite smooth_length, !length_map.
    - cbv zeta in Hs, Hlast.
      assert (Hlen : length signal_smooth = length reps)
        by (unfold signal_smooth, reps; now rewrite smooth_length, !length_map).
      rewrite Hlen in Hlast.
      split; [exact Hs|]. split; [exact Hlast|].
      intros b. apply guided_fallback_members. }
  split; [intros; apply guided_loop_step|].
  split; [|intros sm d0 p1 Hd0; now apply detect_candidates_ladder].
  intros sm rep_indices v Hv.
  destruct (guided_valley_window _ _ Hv) as (s0 & Hhd & Hw).
  cbv zeta in Hw. rewrite search_window_fifth in Hw.
  exists s0. split; [exact Hhd|]. cbv zeta. tauto.
Qed.

End SegmentationTheorems.

(* ===================================================================== *)
(** * Phase split: [extract_features_per_rep]                              *)
(* ===================================================================== *)

Section PhaseTheorems.
Context {lib : Scipy}.

Lemma argmax_from_spec l : forall i best m,
  (Np.argmax_from i best m l = best /\ forall y, In y l -> y <= m) \/
  (exists k, Np.argmax_from i best m l = (i + k)%nat /\ (k < length l)%nat /\
             m <= nth k l 0 /\ forall y, In y l -> y <= nth k l 0).
Proof.
  induction l as [|y l IH]; intros i best m; simpl.
  - left. split; [reflexivity|]. tauto.
  - destruct (Qlt_le_dec m y) as [Hlt|Hle].
    + right. destruct (IH (S i) i y) as [[-> Hall]|(k & -> & Hk & Hm & Hall)].
      * exists O. repeat split; [lia|simpl; lia|simpl; lra|].
        simpl. intros z [<-|Hz]; [lra|auto].
      * exists (S k). repeat split; [lia|simpl; lia|simpl; lra|].
        simpl. intros z [<-|Hz]; [lra|auto].
    + destruct (IH (S i) best m) as [[-> Hall]|(k & -> & Hk & Hm & Hall)].
      * left. split; [reflexivity|]. intros z [<-|Hz]; [lra|auto].
      * right. exists (S k). repeat split; [lia|simpl; lia|simpl; lra|].
        simpl. intros z [<-|Hz]; [lra|auto].
Qed.

Lemma np_argmax_spec l k :
  Np.np_argmax l = Some k ->
  (k < length l)%nat /\ forall j, (j < length l)%nat -> nth j l 0 <= nth k l 0.
Proof.
  destruct l as [|x l]; simpl; [discriminate|]. intros [= <-].
  destruct (argmax_from_spec l 1 0 x) as [[-> Hall]|(k & -> & Hk & Hm & Hall)].
  - split; [lia|]. intros [|j] Hj; [lra|]. apply Hall, nth_In. lia.
  - split; [simpl; lia|]. simpl. intros [|j] Hj; [lra|].
    apply Hall, nth_In. lia.
Qed.


Lemma axis_signal_length rep_data a :
  length (MainCsv.axis_signal rep_data a) = length rep_data.
Proof. destruct a; apply length_map. Qed.

Lemma axis_range_defined rep_data a :
  rep_data <> [] -> exists r, MainCsv.axis_range rep_data a = Some r.
Proof.
  intros H. unfold MainCsv.axis_range.
  pose proof (axis_signal_length rep_data a) as Hl.
  destruct (MainCsv.axis_signal rep_data a) as [|x xs].
  - destruct rep_data; [congruence|discriminate].
  - simpl. eauto.
Qed.




Lemma all_peaks_of_spec sig :
  MainCsv.all_peaks_of sig =
    Some (find_peaks sig (Some 10%Z) 0.5 ++
          find_peaks (Np.np_neg sig) (Some 10%Z) 0.5) /\
  Forall (fun i => (i < length sig)%nat)
         (find_peaks sig (Some 10%Z) 0.5 ++
          find_peaks (Np.np_neg sig) (Some 10%Z) 0.5).
Proof.
  split; [reflexivity|]. apply Forall_app. split; apply Forall_forall.
  - intros i Hi. apply find_peaks_interior in Hi. lia.
  - intros i Hi. apply find_peaks_interior in Hi.
    unfold Np.np_neg in Hi. rewrite length_map in Hi. lia.
Qed.



End PhaseTheorems.



(** C5.  On the flat labelled session the guided fallback places the
    boundaries at samples 0 and 7; the single rep covers samples 0 to 6 and
    the last sample, which lies after the first boundary, keeps label 0:
    it belongs to no rep.  On the two-valley session, where the last
    segment is built by the ordinary path, the last sample is labelled. *)
Theorem guided_fallback_drops_last_sample :
  (exists out r,
     run flat_labelled_session = Some out /\
     In (GuidedFallback [1; 2]%Z) (printed out) /\
     rep_info out = [r] /\
     assoc "start_idx" r = Some 0 /\
     assoc "end_idx" r = Some 6 /\
     assoc "next_rep_start_idx" r = Some 7 /\
     rep_column out = [1; 1; 1; 1; 1; 1; 1; 0]%Z) /\
  (exists out,
     run two_valley_session = Some out /\
     rep_column out = [1; 1; 1; 1; 1; 1; 1; 1; 2; 2; 2]%Z).
Proof.
  split.
  - do 2 eexists. split; [vm_compute; reflexivity|].
    repeat split; try reflexivity. simpl. auto 10.
  - eexists. split; [vm_compute; reflexivity|]. reflexivity.
Qed.

(** C7, counterexample.  The close-valley session ends in the degenerate
    single rep.  Its dictionary has the same keys as the final rep of the
    two-valley session, which was segmented normally, and the messages
    printed are the same (none): nothing in the output marks it. *)
Lemma degenerate_rep_is_not_flagged :
  exists out_d out_n r_d r_n r1,
    run close_valley_session = Some out_d /\ rep_info out_d = [r_d] /\
    run two_valley_session = Some out_n /\ rep_info out_n = [r1; r_n] /\
    assoc "start_idx" r_d = Some 0 /\ assoc "end_idx" r_d = Some 7 /\
    map fst r_d = map fst r_n /\
    map fst r_d = tail_rep_keys /\
    printed out_d = printed out_n.
Proof.
  do 5 eexists. split; [vm_compute; reflexivity|].
  split; [reflexivity|]. split; [vm_compute; reflexivity|].
  repeat split; reflexivity.
Qed.

Lemma degenerate_single_rep_witness :
  exists r,
    run close_valley_session =
      Some {| rep_column := repeat 1%Z 8;
              rep_original := repeat 0%Z 8;
              rep_info := [r];
              printed := [] |} /\
    assoc "end_idx" r = Some 7.
Proof.
  destruct (degenerate_single_rep (lib := RefScipy) close_valley_session
              default_min_rep_duration_ms default_max_rep_duration_ms
              (valid_valleys := [O]) (log := []))
    as (r & Hrun & _ & _ & Hend & _).
  - vm_compute. reflexivity.
  - simpl. lia.
  - vm_compute. lia.
  - exists r. split; [exact Hrun | exact Hend].
Defined.

(** C6, counterexample.  On the close-valley session two valleys are
    detected at the profile prominence, both are rejected by the duration
    filter, and nothing is retried: no message is printed and the session
    ends as a single rep.  In the guided fallback, a labelled rep of span
    10 whose last sample is 30 gets the boundary 22, the minimum within ten
    samples of the end, which is more than 20% of the span away from it. *)
Lemma no_retry_when_valleys_are_rejected :
  let df := close_valley_session in
  let timestamps := map timestamp_ms (rows df) in
  let signal := map filteredMag (rows df) in
  (exists p,
     adaptive_prominence (profile_of UNKNOWN 800 8000) signal = Some p /\
     detect_candidates signal 5 p = Some ([1; 6]%nat, p, [])) /\
  filter_by_duration timestamps 800 8000 [O] [1; 6]%nat = Some [O] /\
  (exists out, run df = Some out /\ printed out = [] /\
               length (rep_info out) = 1%nat) /\
  guided_valley dip_at_22 (seq 20 11) = Some 22%nat /\
  search_window (30 - 20) = 10%nat /\
  Np.py_int (Np.of_nat (30 - 20) * 0.2) = 2%Z /\
  (22 < 30 - 2)%nat.
Proof.
  split; [eexists; split; vm_compute; reflexivity|].
  split; [vm_compute; reflexivity|].
  split; [eexists; split; [vm_compute; reflexivity|split; reflexivity]|].
  split; [vm_compute; reflexivity|].
  split; [reflexivity|]. split; [reflexivity|lia].
Qed.

Lemma fallback_ladder_order_witness :
  let df := flat_labelled_session in
  guided_fallback (smooth (detect_exercise (source_file df))
                          (map filteredMag (rows df)))
                  (map rep (rows df)) (original_reps_of (map rep (rows df)))
  = [0; 7]%nat.
Proof.
  destruct (fallback_ladder_order (lib := RefScipy) flat_labelled_session
              800 8000 (valid_valleys := [0; 7]%nat)
              (log := [TooFewValleys; Retry 0.05 0; Retry 0.025 0; Retry 0.01 0;
                       TryingPeaks; GuidedFallback [1; 2]%Z]))
    as [(p0 & d & cands & p' & log_d & filtered & detected &
         Hp & Hd & _ & Hl & Hf & Ht & _ & Hg) _].
  - vm_compute. reflexivity.
  - vm_compute in Hp. injection Hp as <-.
    vm_compute in Hd. injection Hd as <-.
    vm_compute in Hl. injection Hl as <- <- <-.
    vm_compute in Hf. injection Hf as <-.
    vm_compute in Ht. injection Ht as <-.
    symmetry. apply Hg; [simpl; lia|discriminate].
Defined.



(* ===================================================================== *)
(** * Further properties of the scripts                                    *)
(* ===================================================================== *)

Section MoreLdlj.
Context {lib : Scipy}.

Lemma compute_ldlj_try_cases ax ay az ts fm r :
  compute_ldlj_try ax ay az ts fm = Some r ->
  r = (0, 50) \/ exists nj dr tp, r = ldlj_scores nj dr tp.
Proof.
  unfold compute_ldlj_try. intros H.
  destruct (length ax <? 4)%nat; [left; congruence|].
  bind_inv H. destruct (Np.leb _ 0); [left; congruence|].
  bind_inv H. right. injection H as <-. eauto.
Qed.

(** X1.  On every input, short-circuit and exception paths included, the
    irregularity and the smoothness returned by [compute_ldlj] lie between
    0 and 100. *)
Theorem compute_ldlj_scores_bounded
    (accel_x accel_y accel_z timestamps_ms : list Q)
    (filtered_mag : option (list Q)) :
  let r := compute_ldlj accel_x accel_y accel_z timestamps_ms filtered_mag in
  0 <= fst r /\ fst r <= 100 /\ 0 <= snd r /\ snd r <= 100.
Proof.
  unfold compute_ldlj.
  destruct (compute_ldlj_try _ _ _ _ _) as [r|] eqn:E;
    [|cbn; repeat split; lra].
  apply compute_ldlj_try_cases in E as [->|(nj & dr & tp & ->)];
    [cbn; repeat split; lra|].
  cbv zeta.
  pose proof (ldlj_scores_range nj dr tp) as [H0 H1].
  pose proof (ldlj_scores_sum nj dr tp) as Hs.
  repeat split; lra.
Qed.

Lemma contribution_monotone cap base k x x' :
  0 <= k -> x <= x' ->
  Np.py_min cap (Np.py_max 0 (x - base) * k) <=
  Np.py_min cap (Np.py_max 0 (x' - base) * k).
Proof.
  intros Hk Hx.
  assert (Hm : Np.py_max 0 (x - base) <= Np.py_max 0 (x' - base)).
  { unfold Np.py_max.
    destruct (Qlt_le_dec 0 (x - base)), (Qlt_le_dec 0 (x' - base)); lra. }
  assert (Hp : Np.py_max 0 (x - base) * k <= Np.py_max 0 (x' - base) * k)
    by (apply Qmult_le_compat_r; assumption).
  revert Hp. generalize (Np.py_max 0 (x - base) * k)
                        (Np.py_max 0 (x' - base) * k).
  intros u v Huv. unfold Np.py_min.
  destruct (Qlt_le_dec u cap), (Qlt_le_dec v cap); lra.
Qed.

(** X2.  The irregularity score never decreases, and the smoothness score
    never increases, when the normalized jerk, the direction-change rate
    or the number of detected peaks and valleys grows. *)
Theorem ldlj_scores_monotone (nj nj' dr dr' : Q) (tp tp' : Z) :
  nj <= nj' -> dr <= dr' -> (tp <= tp')%Z ->
  fst (ldlj_scores nj dr tp) <= fst (ldlj_scores nj' dr' tp') /\
  snd (ldlj_scores nj' dr' tp') <= snd (ldlj_scores nj dr tp).
Proof.
  intros Hj Hd Hp.
  assert (Hfst : fst (ldlj_scores nj dr tp) <= fst (ldlj_scores nj' dr' tp')).
  { unfold ldlj_scores; cbn [fst].
    pose proof (@contribution_monotone 40 1.5 13.3 nj nj' ltac:(lra) Hj).
    pose proof (@contribution_monotone 35 0.5 10 dr dr' ltac:(lra) Hd).
    assert (Hz : inject_Z (Z.max 0 (tp - 2)) <= inject_Z (Z.max 0 (tp' - 2)))
      by (rewrite <- Zle_Qle; lia).
    assert (Np.py_min 25 (inject_Z (Z.max 0 (tp - 2)) * 3.3) <=
            Np.py_min 25 (inject_Z (Z.max 0 (tp' - 2)) * 3.3)).
    { revert Hz. generalize (inject_Z (Z.max 0 (tp - 2)))
                            (inject_Z (Z.max 0 (tp' - 2))).
      intros u v Huv. unfold Np.py_min.
      destruct (Qlt_le_dec (u * 3.3) 25), (Qlt_le_dec (v * 3.3) 25); lra. }
    lra. }
  split; [exact Hfst|].
  pose proof (ldlj_scores_sum nj dr tp). pose proof (ldlj_scores_sum nj' dr' tp').
  lra.
Qed.

Lemma fold_max_ge l : forall x,
  x <= fold_left (fun m y => if Qlt_le_dec m y then y else m) l x.
Proof.
  induction l as [|y l IH]; intros x; simpl; [lra|].
  destruct (Qlt_le_dec x y); [specialize (IH y)|specialize (IH x)]; lra.
Qed.

Lemma fold_min_le l : forall x,
  fold_left (fun m y => if Qlt_le_dec y m then y else m) l x <= x.
Proof.
  induction l as [|y l IH]; intros x; simpl; [lra|].
  destruct (Qlt_le_dec y x); [specialize (IH y)|specialize (IH x)]; lra.
Qed.

Lemma np_min_le_np_max l hi lo :
  Np.np_max l = Some hi -> Np.np_min l = Some lo -> lo <= hi.
Proof.
  destruct l as [|x l]; simpl; [discriminate|]. intros [= <-] [= <-].
  pose proof (fold_max_ge l x). pose proof (fold_min_le l x). lra.
Qed.

(** X3.  [compute_range_of_motion] never raises.  The range of motion is
    not negative and the normalized range lies between 0 and 100.  On
    fewer than two samples the dictionary is all zero and has no ["mean"]
    and ["std"] entries, which only longer signals get. *)
Theorem compute_range_of_motion_bounds (signal : list Q) (signal_name : string) :
  exists d rom rom_normalized,
    compute_range_of_motion signal signal_name = Some d /\
    assoc "rom" d = Some rom /\ 0 <= rom /\
    assoc "rom_normalized" d = Some rom_normalized /\
    0 <= rom_normalized /\ rom_normalized <= 100 /\
    ((length signal < 2)%nat ->
       d = [("rom", 0); ("rom_normalized", 0); ("peak", 0); ("trough", 0)]) /\
    ((2 <= length signal)%nat ->
       map fst d = ["rom"; "rom_normalized"; "peak"; "trough"; "mean"; "std"]).
Proof.
  unfold compute_range_of_motion.
  destruct (length signal <? 2)%nat eqn:Hlen.
  - apply Nat.ltb_lt in Hlen. do 3 eexists. split; [reflexivity|].
    cbn. repeat split; try reflexivity; try lra. intros. lia.
  - apply Nat.ltb_ge in Hlen.
    destruct (Np.np_max signal) as [hi|] eqn:Ehi;
      [|destruct signal; [simpl in Hlen; lia|discriminate]].
    destruct (Np.np_min signal) as [lo|] eqn:Elo;
      [|destruct signal; [simpl in Hlen; lia|discriminate]].
    pose proof (np_min_le_np_max _ Ehi Elo) as Hle. cbn [Np.bind].
    do 3 eexists. split; [reflexivity|]. cbn [assoc String.eqb Ascii.eqb Bool.eqb].
    split; [reflexivity|]. split; [lra|]. split; [reflexivity|].
    split; [|split; [|split; [intros; lia|reflexivity]]].
    + destruct (Np.gtb _ 0) eqn:Eg; [|lra]. apply gtb_true in Eg.
      apply py_min_lower; [lra|].
      apply Qmult_le_0_compat; [|lra].
      apply Qle_shift_div_l; [exact Eg|]. lra.
    + destruct (Np.gtb _ 0); [apply py_min_upper|lra].
Qed.

End MoreLdlj.

Lemma compute_range_of_motion_bounds_witness :
  exists d, compute_range_of_motion [1; 3] "filteredMag" = Some d /\
            map fst d = ["rom"; "rom_normalized"; "peak"; "trough"; "mean"; "std"].
Proof.
  destruct (@compute_range_of_motion_bounds RefScipy [1; 3] "filteredMag")
    as (d & rom & rom_normalized & Hd & _ & _ & _ & _ & _ & _ & Hkeys).
  exists d. split; [exact Hd|]. apply Hkeys. simpl. lia.
Defined.

Lemma ldlj_scores_monotone_witness :
  fst (ldlj_scores 2 1 3) <= fst (ldlj_scores 3 2 5) /\
  snd (ldlj_scores 3 2 5) <= snd (ldlj_scores 2 1 3).
Proof.
  apply ldlj_scores_monotone; [lra|lra|lia].
Defined.

(** ** Sessions that do not change *)

Section MoreFatigue.
Context {lib : Scipy}.

Lemma np_sum_all_eq c l :
  Forall (fun x => x == c) l -> Np.np_sum l == Np.of_nat (length l) * c.
Proof.
  induction 1 as [|x l Hx _ IH]; [unfold Np.np_sum, Np.of_nat; simpl; ring|].
  cbn [length]. rewrite np_sum_cons, Hx, IH. unfold Np.of_nat.
  rewrite Nat2Z.inj_succ, <- Z.add_1_r, inject_Z_plus. ring.
Qed.

Lemma np_mean_all_eq c l :
  l <> [] -> Forall (fun x => x == c) l -> Np.np_mean l == c.
Proof.
  intros Hne H. unfold Np.np_mean. rewrite (np_sum_all_eq H).
  assert (0 < Np.of_nat (length l)).
  { apply of_nat_pos. destruct l; [congruence|simpl; lia]. }
  field. lra.
Qed.

Lemma Forall_firstn_skipn {A : Type} (P : A -> Prop) k l :
  Forall P l -> Forall P (firstn k l) /\ Forall P (skipn k l).
Proof.
  intros H. rewrite <- (firstn_skipn k l) in H. apply Forall_app in H. exact H.
Qed.

Lemma third_pos (l : list metrics) : (1 <= third l)%nat.
Proof. unfold third. lia. Qed.

Lemma avg_all_eq (l : list metrics) vals c :
  vals <> [] -> Forall (fun x => x == c) vals ->
  avg_first l vals == c /\ avg_last l vals == c.
Proof.
  intros Hne H. pose proof (third_pos l) as Ht.
  assert (Hlen : (1 <= length vals)%nat)
    by (destruct vals; [congruence|simpl; lia]).
  unfold avg_first, avg_last, Np.last_k. split; apply np_mean_all_eq.
  - intros E. apply (f_equal (@length Q)) in E.
    rewrite length_firstn in E. simpl in E. lia.
  - apply (Forall_firstn_skipn (third l) H).
  - intros E. apply (f_equal (@length Q)) in E.
    rewrite length_skipn in E. simpl in E. lia.
  - apply (Forall_firstn_skipn (length vals - third l) H).
Qed.

Lemma column_repeat m n key d :
  column (repeat m n) key d = repeat (get m key d) n.
Proof. unfold column. apply map_repeat. Qed.

Lemma avg_column_repeat (l : list metrics) m n key d :
  (1 <= n)%nat ->
  avg_first l (column (repeat m n) key d) == get m key d /\
  avg_last l (column (repeat m n) key d) == get m key d.
Proof.
  intros Hn. rewrite column_repeat. apply avg_all_eq.
  - destruct n; [lia|discriminate].
  - apply Forall_forall. intros x Hx. apply repeat_spec in Hx. subst. reflexivity.
Qed.

Lemma relative_change_zero first last :
  first == last ->
  (if Np.gtb first 0 then (last - first) / first else 0) == 0 /\
  (if Np.gtb first 0 then Qabs (first - last) / first else 0) == 0.
Proof.
  intros E. destruct (Np.gtb first 0) eqn:G; [|split; reflexivity].
  apply gtb_true in G. split.
  - rewrite E. field. lra.
  - assert (H0 : first - last == 0) by lra. rewrite H0. change (Qabs 0) with 0. field. lra.
Qed.

Lemma py_round_zero x n : x == 0 -> Np.py_round x n == 0.
Proof.
  intros E. unfold Np.py_round, Np.round_half_even.
  set (scale := inject_Z (10 ^ Z.of_nat n)).
  assert (Hs : x * scale == 0) by (rewrite E; ring).
  rewrite (Qfloor_comp _ _ Hs). change (Qfloor 0) with 0%Z.
  destruct (Qlt_le_dec (x * scale - inject_Z 0) (1 # 2)) as [_|H].
  - unfold Qdiv. change (inject_Z 0) with 0. ring.
  - exfalso. change (inject_Z 0) with 0 in H. lra.
Qed.

Lemma composite_spec_zero D T J S :
  D == 0 -> T == 0 -> J == 0 -> S == 0 -> composite_spec D T J S == 0.
Proof.
  intros HD HT HJ HS. unfold composite_spec.
  destruct (Qlt_le_dec 0.40 _) as [H|H]; revert H; max_min_cases; lra.
Qed.

Lemma indicators_of_constant_session (m : metrics) (n : nat) :
  (1 <= n)%nat ->
  let l := repeat m n in
  D_omega l == 0 /\ I_T l == 0 /\ I_J l == 0 /\ I_S l == 0 /\
  gyro_direction l = "surge".
Proof.
  intros Hn l.
  assert (Hcol : forall key d,
            avg_first l (column l key d) == avg_last l (column l key d)).
  { intros key d. destruct (@avg_column_repeat l m n key d Hn) as [H1 H2].
    fold l in H1, H2. rewrite H1, H2. reflexivity. }
  repeat split.
  - unfold D_omega, gyro_peaks, peaks.
    destruct (has_gyro l); apply relative_change_zero, Hcol.
  - unfold I_T, avg_dur_first, avg_dur_last, durations.
    apply relative_change_zero, Hcol.
  - unfold I_J, avg_jerk_first, avg_jerk_last, jerk_values.
    apply relative_change_zero, Hcol.
  - unfold I_S, avg_shaky_first, avg_shaky_last, shakiness_vals.
    destruct (has_shakiness l); [|reflexivity].
    apply relative_change_zero, Hcol.
  - unfold gyro_direction, gyro_peaks, peaks.
    destruct (has_gyro l);
      match goal with
      | |- (if Np.ltb ?a ?b then _ else _) = _ =>
          assert (Hf : Np.ltb a b = false)
            by (apply ltb_false; rewrite Hcol; lra);
          rewrite Hf; reflexivity
      end.
Qed.

(** X4.  A session of at least three reps that all carry the same metrics
    shows no fatigue: the four indicators and the score are 0, the level is
    ["minimal"], the session quality ["Excellent"], and the direction of
    the angular-velocity change is reported as ["surge"], the label of the
    branch taken when the late average is not below the early one. *)
Theorem constant_session_no_fatigue (m : metrics) (n : nat) :
  (3 <= n)%nat ->
  let l := repeat m n in
  let r := compute_fatigue_indicators l in
  D_omega l == 0 /\ I_T l == 0 /\ I_J l == 0 /\ I_S l == 0 /\
  fatigue_score l == 0 /\
  (exists q, dict_get r "fatigue_score" = Some (VNum q) /\ q == 0) /\
  dict_get r "fatigue_level" = Some (VStr "minimal") /\
  dict_get r "gyro_direction" = Some (VStr "surge") /\
  dict_get (performance_report l) "session_quality" = Some (VStr "Excellent").
Proof.
  intros Hn l r.
  destruct (@indicators_of_constant_session m n ltac:(lia))
    as (HD & HT & HJ & HS & Hdir). fold l in HD, HT, HJ, HS, Hdir.
  assert (Hscore : fatigue_score l == 0).
  { rewrite fatigue_score_spec. unfold clamp.
    pose proof (composite_spec_zero HD HT HJ HS) as Hc. revert Hc.
    generalize (composite_spec (D_omega l) (I_T l) (I_J l) (I_S l)).
    intros c Hc. max_min_cases; lra. }
  assert (Hlt : Np.ltb (fatigue_score l) 10 = true)
    by (apply ltb_true; lra).
  assert (Hr : r = full_analysis l).
  { unfold r, compute_fatigue_indicators.
    replace (length l) with n by (unfold l; now rewrite repeat_length).
    destruct (n <? 3)%nat eqn:E; [apply Nat.ltb_lt in E; lia|reflexivity]. }
  repeat match goal with |- _ /\ _ => split end; try assumption.
  - rewrite Hr. eexists. split; [reflexivity|]. apply py_round_zero, Hscore.
  - rewrite Hr. cbn [full_analysis dict_get assoc String.eqb Ascii.eqb Bool.eqb].
    unfold fatigue_level. rewrite Hlt. reflexivity.
  - rewrite Hr. cbn [full_analysis dict_get assoc String.eqb Ascii.eqb Bool.eqb].
    rewrite Hdir. reflexivity.
  - cbn [performance_report dict_get assoc String.eqb Ascii.eqb Bool.eqb].
    unfold get_session_quality. rewrite Hlt. reflexivity.
Qed.

End MoreFatigue.

Lemma constant_session_no_fatigue_witness :
  fatigue_score (repeat (rep_of_duration 1000) 3) == 0.
Proof.
  apply (@constant_session_no_fatigue RefScipy (rep_of_duration 1000) 3).
  simpl. lia.
Defined.
(** ** Consistency, trend and the angular-velocity indicator *)

Section MoreTrend.
Context {lib : Scipy}.

Lemma get_consistency_repeat c n :
  (2 <= n)%nat ->
  get_consistency (repeat c n) == if Qeq_bool c 0 then 0 else 100.
Proof.
  intros Hn. unfold get_consistency. rewrite repeat_length.
  assert (Hm : Np.np_mean (repeat c n) == c) by (apply np_mean_repeat; lia).
  assert (Hs : np_std (repeat c n) == 0) by (apply np_std_repeat; lia).
  apply Nat.ltb_ge in Hn. rewrite Hn. cbn [orb].
  destruct (Qeq_bool c 0) eqn:Ec.
  - apply Qeq_bool_iff in Ec. rewrite eqb_true by (rewrite Hm; exact Ec).
    reflexivity.
  - apply Qeq_bool_neq in Ec. rewrite eqb_false by (rewrite Hm; exact Ec).
    rewrite py_min_Qmin, py_max_Qmax, Hs, Hm.
    assert (Hz : 0 / c * 333 == 0) by (field; exact Ec).
    rewrite Hz. reflexivity.
Qed.

Lemma any_positive_repeat v n :
  (1 <= n)%nat -> any_positive (repeat v n) = Np.gtb v 0.
Proof.
  intros Hn. unfold any_positive.
  induction n as [|[|n] IH]; [lia|simpl; apply orb_false_r|].
  change (repeat v (S (S n))) with (v :: repeat v (S n)). cbn [existsb].
  rewrite IH by lia. apply orb_diag.
Qed.

Lemma steady_mean_tenths (a b c d : Q) :
  exists k : Z,
    ((if Qeq_bool a 0 then 0 else 100) + (if Qeq_bool b 0 then 0 else 100) +
     (if Qeq_bool c 0 then 0 else 100) + (if Qeq_bool d 0 then 0 else 100)) / 4
    == inject_Z k / 10.
Proof.
  destruct (Qeq_bool a 0), (Qeq_bool b 0), (Qeq_bool c 0), (Qeq_bool d 0);
    first [exists 0%Z; reflexivity | exists 250%Z; reflexivity
          | exists 500%Z; reflexivity | exists 750%Z; reflexivity
          | exists 1000%Z; reflexivity].
Qed.

Lemma steady_tenths (a : Q) :
  exists k : Z, (if Qeq_bool a 0 then 0 else 100) == inject_Z k / 10.
Proof.
  destruct (Qeq_bool a 0); [exists 0%Z|exists 1000%Z]; reflexivity.
Qed.

(** X5.  For a session of at least three reps that all carry the same
    metrics, the report counts the metrics that are not zero: each of
    range of motion, smoothness, duration and peak is reported with
    consistency 100 when its constant value is not zero and 0 when it is,
    and the consistency score reported is their mean.  Reps that carry
    none of these entries therefore get a consistency score of 25, from
    the default smoothness of 50 alone, and the rating ["Poor"]. *)
Theorem constant_session_consistency (m : metrics) (n : nat) :
  (3 <= n)%nat ->
  let l := repeat m n in
  let r := compute_fatigue_indicators l in
  let reported (key : string) (value : Q) :=
    exists q, dict_get r key = Some (VNum q) /\ q == value in
  let steady (v : Q) : Q := if Qeq_bool v 0 then 0 else 100 in
  let rom := if Np.gtb (get m "rom_degrees" 0) 0
             then get m "rom_degrees" 0 else get m "rom" 0 in
  reported "rom_consistency" (steady rom) /\
  reported "smoothness_consistency" (steady (get m "smoothness_score" 50)) /\
  reported "duration_consistency" (steady (get m "duration_ms" 0)) /\
  reported "peak_consistency" (steady (get m "peak" 0)) /\
  reported "consistency_score"
    ((steady rom + steady (get m "smoothness_score" 50) +
      steady (get m "duration_ms" 0) + steady (get m "peak" 0)) / 4) /\
  ((forall key, assoc key m = None) ->
   reported "consistency_score" 25 /\
   exists report,
     dict_get r "performance_report" = Some report /\
     dict_get report "consistency_rating" = Some (VStr "Poor")).
Proof.
  intros Hn l r reported steady rom.
  assert (Hn2 : (2 <= n)%nat) by lia.
  assert (Hr : r = full_analysis l).
  { subst r. unfold compute_fatigue_indicators, l. rewrite repeat_length.
    apply Nat.ltb_ge in Hn. now rewrite Hn. }
  assert (Hroms : roms l = repeat rom n).
  { unfold roms, has_rom_degrees, l, rom. rewrite !column_repeat.
    rewrite any_positive_repeat by lia. destruct (Np.gtb _ 0); reflexivity. }
  assert (Hscore : consistency_score l ==
    (steady rom + steady (get m "smoothness_score" 50) +
     steady (get m "duration_ms" 0) + steady (get m "peak" 0)) / 4).
  { unfold consistency_score. rewrite Hroms.
    unfold smoothness, durations, peaks, l. rewrite !column_repeat.
    pose proof (get_consistency_repeat rom Hn2) as H1.
    pose proof (get_consistency_repeat (get m "smoothness_score" 50) Hn2) as H2.
    pose proof (get_consistency_repeat (get m "duration_ms" 0) Hn2) as H3.
    pose proof (get_consistency_repeat (get m "peak" 0) Hn2) as H4.
    fold (steady rom) in H1. fold (steady (get m "smoothness_score" 50)) in H2.
    fold (steady (get m "duration_ms" 0)) in H3.
    fold (steady (get m "peak" 0)) in H4.
    revert H1 H2 H3 H4.
    generalize (get_consistency (repeat rom n))
               (get_consistency (repeat (get m "smoothness_score" 50) n))
               (get_consistency (repeat (get m "duration_ms" 0) n))
               (get_consistency (repeat (get m "peak" 0) n)).
    intros c1 c2 c3 c4 H1 H2 H3 H4.
    unfold Np.np_mean, Np.np_sum. simpl. unfold Np.of_nat. simpl.
    rewrite H1, H2, H3, H4. field. }
  assert (Hone : forall key series v,
            dict_get r key = Some (VNum (Np.py_round (get_consistency series) 1)) ->
            series = repeat v n -> reported key (steady v)).
  { intros key series v Hget ->. destruct (steady_tenths v) as [k Hk].
    eapply reported_exactly; [exact Hget| |exact Hk].
    apply get_consistency_repeat. exact Hn2. }
  assert (Hall : reported "consistency_score"
    ((steady rom + steady (get m "smoothness_score" 50) +
      steady (get m "duration_ms" 0) + steady (get m "peak" 0)) / 4)).
  { destruct (steady_mean_tenths rom (get m "smoothness_score" 50)
                (get m "duration_ms" 0) (get m "peak" 0)) as [k Hk].
    eapply reported_exactly; [rewrite Hr; reflexivity|exact Hscore|exact Hk]. }
  split; [apply Hone with (series := roms l); [rewrite Hr; reflexivity|exact Hroms]|].
  split; [apply Hone with (series := smoothness l);
          [rewrite Hr; reflexivity|unfold smoothness, l; apply column_repeat]|].
  split; [apply Hone with (series := durations l);
          [rewrite Hr; reflexivity|unfold durations, l; apply column_repeat]|].
  split; [apply Hone with (series := peaks l);
          [rewrite Hr; reflexivity|unfold peaks, l; apply column_repeat]|].
  split; [exact Hall|].
  intros Hnone.
  assert (H25 : consistency_score l == 25).
  { rewrite Hscore. unfold rom, steady, get. rewrite !Hnone. reflexivity. }
  split.
  { destruct Hall as (q & Hq & Hv). exists q. split; [exact Hq|].
    rewrite Hv, <- Hscore. exact H25. }
  exists (performance_report l). split; [rewrite Hr; reflexivity|].
  cbn [performance_report dict_get assoc String.eqb Ascii.eqb Bool.eqb].
  unfold get_consistency_rating, Np.geb.
  assert (H70 : Qle_bool 70 (consistency_score l) = false).
  { destruct (Qle_bool 70 _) eqn:E; [|reflexivity].
    apply Qle_bool_iff in E. lra. }
  assert (H50 : Qle_bool 50 (consistency_score l) = false).
  { destruct (Qle_bool 50 _) eqn:E; [|reflexivity].
    apply Qle_bool_iff in E. lra. }
  rewrite H70, H50. reflexivity.
Qed.

(** *** The slope of a straight line *)

Lemma np_sum_app l x : Np.np_sum (l ++ [x]) == Np.np_sum l + x.
Proof.
  unfold Np.np_sum. rewrite fold_left_app. simpl. reflexivity.
Qed.

Lemma arange_S n : arange (S n) = arange n ++ [Np.of_nat n].
Proof. unfold arange. rewrite seq_S, map_app. reflexivity. Qed.

Lemma arange_length n : length (arange n) = n.
Proof. unfold arange. now rewrite length_map, length_seq. Qed.

Lemma of_nat_S n : Np.of_nat (S n) == Np.of_nat n + 1.
Proof.
  unfold Np.of_nat. rewrite Nat2Z.inj_succ, <- Z.add_1_r, inject_Z_plus.
  reflexivity.
Qed.

Lemma np_sum_arange n :
  Np.np_sum (arange n) == Np.of_nat n * (Np.of_nat n - 1) / 2.
Proof.
  induction n as [|n IH]; [reflexivity|].
  rewrite arange_S, np_sum_app, IH, of_nat_S. field.
Qed.

Lemma np_mean_arange n :
  (1 <= n)%nat -> Np.np_mean (arange n) == (Np.of_nat n - 1) / 2.
Proof.
  intros Hn. unfold Np.np_mean. rewrite arange_length, np_sum_arange.
  pose proof (of_nat_pos Hn). field. lra.
Qed.

Lemma np_sum_map_scaled (h k : Q -> Q) (b c : Q) (xs : list Q) :
  (forall x, h x == c + b * k x) ->
  Np.np_sum (map h xs) == Np.of_nat (length xs) * c + b * Np.np_sum (map k xs).
Proof.
  intros E. induction xs as [|x xs IH];
    [unfold Np.np_sum, Np.of_nat; simpl; ring|].
  cbn [map length]. rewrite !np_sum_cons, IH, E, of_nat_S. ring.
Qed.

Lemma zip_with_map f (g : Q -> Q) xs :
  Np.zip_with f xs (map g xs) = map (fun x => f x (g x)) xs.
Proof.
  induction xs as [|x xs IH]; [reflexivity|]. simpl. now rewrite IH.
Qed.

Lemma np_sum_ge_member l :
  Forall (fun x => 0 <= x) l -> 0 <= Np.np_sum l /\
  forall x, In x l -> x <= Np.np_sum l.
Proof.
  induction 1 as [|y l Hy _ [IH0 IH]].
  - split; [unfold Np.np_sum; simpl; lra|intros x []].
  - split; [rewrite np_sum_cons; lra|].
    intros x [<-|Hx]; rewrite np_sum_cons; [lra|]. specialize (IH x Hx). lra.
Qed.

Lemma square_nonneg (x : Q) : 0 <= x * x.
Proof.
  destruct (Qlt_le_dec x 0).
  - setoid_replace (x * x) with ((- x) * (- x)) by ring.
    apply Qmult_le_0_compat; lra.
  - apply Qmult_le_0_compat; lra.
Qed.

Lemma variance_arange_pos n :
  (2 <= n)%nat ->
  0 < Np.np_mean (map (fun a => (a - Np.np_mean (arange n)) *
                                (a - Np.np_mean (arange n))) (arange n)).
Proof.
  intros Hn. set (xm := Np.np_mean (arange n)).
  assert (Hxm : xm == (Np.of_nat n - 1) / 2) by (apply np_mean_arange; lia).
  assert (H2 : 2 <= Np.of_nat n).
  { unfold Np.of_nat. change 2 with (inject_Z 2). rewrite <- Zle_Qle. lia. }
  assert (Hhalf : 1 # 2 <= xm).
  { rewrite Hxm. unfold Qdiv. change (/ 2) with (1 # 2). lra. }
  unfold Np.np_mean. rewrite length_map, arange_length.
  assert (Hpos : 0 < Np.of_nat n) by lra.
  apply Qlt_shift_div_l; [exact Hpos|].
  assert (Hall : Forall (fun x => 0 <= x)
            (map (fun a => (a - xm) * (a - xm)) (arange n))).
  { apply Forall_forall. intros y Hy. apply in_map_iff in Hy as (x & <- & _).
    apply square_nonneg. }
  destruct (np_sum_ge_member Hall) as [_ Hmem].
  assert (Hin : In ((0 - xm) * (0 - xm))
                  (map (fun a => (a - xm) * (a - xm)) (arange n))).
  { apply in_map_iff. exists 0. split; [reflexivity|].
    unfold arange. apply in_map_iff. exists O. split; [reflexivity|].
    apply in_seq. lia. }
  specialize (Hmem _ Hin).
  assert (Hsq : (1 # 2) * (1 # 2) <= (0 - xm) * (0 - xm)).
  { setoid_replace ((0 - xm) * (0 - xm)) with (xm * xm) by ring.
    apply Qmult_le_compat_nonneg; split; lra. }
  lra.
Qed.

Lemma linregress_slope_line (a b : Q) (n : nat) :
  (2 <= n)%nat ->
  linregress_slope (arange n) (map (fun x => a + b * x) (arange n)) == b.
Proof.
  intros Hn. unfold linregress_slope.
  pose proof (variance_arange_pos Hn) as Hvar. revert Hvar.
  set (xs := arange n). set (xm := Np.np_mean xs).
  set (ym := Np.np_mean (map (fun x => a + b * x) xs)).
  assert (Hlen : 0 < Np.of_nat (length xs)).
  { apply of_nat_pos. unfold xs. rewrite arange_length. lia. }
  assert (Hym : ym == a + b * xm).
  { unfold ym, xm, Np.np_mean. rewrite length_map.
    rewrite (@np_sum_map_scaled (fun x => a + b * x) (fun x => x) b a xs)
      by (intros; reflexivity).
    rewrite map_id. field. lra. }
  rewrite zip_with_map. intros Hvar. unfold Np.np_mean in Hvar |- *.
  rewrite !length_map in Hvar. rewrite !length_map.
  rewrite (@np_sum_map_scaled
             (fun x => (x - xm) * (a + b * x - ym))
             (fun x => (x - xm) * (x - xm)) b 0 xs)
    by (intros x; rewrite Hym; ring).
  revert Hvar Hlen.
  generalize (Np.np_sum (map (fun x => (x - xm) * (x - xm)) xs))
             (Np.of_nat (length xs)).
  intros s L Hs HL.
  assert (Hs0 : 0 < s).
  { setoid_replace s with (s / L * L) by (field; lra).
    apply Qmult_lt_0_compat; assumption. }
  field. split; lra.
Qed.

(** X6.  On values that lie on a straight line [a + b * i] over the rep
    indices 0, 1, ..., n - 1, the regression slope is [b], and the trend
    is the slope as a percentage of the mean value [a + b * (n - 1) / 2],
    as long as the standard deviation and the mean are not zero.  A
    series that does not change has trend 0. *)
Theorem get_trend_of_line (a b : Q) (n : nat) :
  let values := map (fun x => a + b * x) (arange n) in
  (2 <= n)%nat -> ~ np_std values == 0 -> ~ Np.np_mean values == 0 ->
  linregress_slope (arange n) values == b /\
  Np.np_mean values == a + b * (Np.of_nat n - 1) / 2 /\
  get_trend (arange n) values == b / (a + b * (Np.of_nat n - 1) / 2) * 100 /\
  (forall c k, get_trend (arange k) (repeat c k) = 0).
Proof.
  intros values Hn Hstd Hmean.
  assert (Hslope : linregress_slope (arange n) values == b)
    by (apply linregress_slope_line; exact Hn).
  assert (Hm : Np.np_mean values == a + b * (Np.of_nat n - 1) / 2).
  { unfold values, Np.np_mean. rewrite length_map, arange_length.
    rewrite (@np_sum_map_scaled (fun x => a + b * x) (fun x => x) b a (arange n))
      by (intros; reflexivity).
    rewrite map_id, arange_length, np_sum_arange.
    pose proof (@of_nat_pos n ltac:(lia)). field. lra. }
  repeat match goal with |- _ /\ _ => split end; try assumption.
  - unfold get_trend.
    replace (length values) with n
      by (unfold values; now rewrite length_map, arange_length).
    apply Nat.ltb_ge in Hn. rewrite Hn, (eqb_false Hstd), (eqb_false Hmean).
    cbn [orb negb]. rewrite Hslope, Hm. reflexivity.
  - intros c k. unfold get_trend. rewrite repeat_length.
    destruct (k <? 2)%nat eqn:E; [reflexivity|]. apply Nat.ltb_ge in E.
    rewrite eqb_true by (apply np_std_repeat; lia). reflexivity.
Qed.


End MoreTrend.

Lemma constant_session_consistency_witness :
  exists q,
    dict_get (compute_fatigue_indicators (lib := RefScipy)
                (repeat (rep_of_duration 1000) 3)) "duration_consistency"
      = Some (VNum q) /\ q == 100.
Proof.
  destruct (@constant_session_consistency RefScipy (rep_of_duration 1000) 3
              ltac:(lia)) as (_ & _ & H & _).
  exact H.
Defined.

Lemma get_trend_of_line_witness :
  get_trend (lib := RefScipy) (arange 3)
    (map (fun x => 1000 + 100 * x) (arange 3)) ==
  100 / (1000 + 100 * (Np.of_nat 3 - 1) / 2) * 100.
Proof.
  apply (@get_trend_of_line RefScipy 1000 100 3);
    [lia|intros H; vm_compute in H; discriminate
        |intros H; vm_compute in H; discriminate].
Defined.

(** ** The shape of a segmentation *)

(** Inversion of a successful [bind], leaving the continuation as it is. *)
Ltac bind_some H :=
  repeat match type of H with
         | Np.bind ?c _ = Some _ =>
             let E := fresh "E" in
             destruct c eqn:E; cbn [Np.bind] in H; [|discriminate H]
         end.

Section MoreSegmentation.
Context {lib : Scipy}.

Lemma find_peaks_call_spec x d p r :
  find_peaks_call x d p = Some r -> r = find_peaks x d p.
Proof.
  unfold find_peaks_call. destruct d as [d|]; [destruct (d <? 1)%Z|];
    congruence.
Qed.

Lemma find_peaks_call_interior x d p r :
  find_peaks_call x d p = Some r ->
  StronglySorted lt r /\ Forall (fun i => (1 <= i /\ S i < length x)%nat) r.
Proof.
  intros H. apply find_peaks_call_spec in H. subst r. split.
  - apply find_peaks_sorted.
  - apply Forall_forall. intros i Hi. eapply find_peaks_interior; eauto.
Qed.

Lemma find_valleys_interior sm d p v :
  find_valleys sm d p = Some v ->
  StronglySorted lt v /\ Forall (fun i => (1 <= i /\ S i < length sm)%nat) v.
Proof.
  unfold find_valleys. intros H. apply find_peaks_call_interior in H.
  unfold Np.np_neg in H. rewrite length_map in H. exact H.
Qed.

Lemma retry_loop_interior sm d p : forall factors v0 v p' log,
  (StronglySorted lt v0 /\
   Forall (fun i => (1 <= i /\ S i < length sm)%nat) v0) ->
  retry_loop factors sm d p v0 = Some (v, p', log) ->
  StronglySorted lt v /\ Forall (fun i => (1 <= i /\ S i < length sm)%nat) v.
Proof.
  induction factors as [|f factors IH]; intros v0 v p' log H0 H;
    cbn [retry_loop] in H.
  - injection H as <- _ _. exact H0.
  - bind_some H. apply find_valleys_interior in E.
    destruct (2 <=? length l)%nat.
    + injection H as <- _ _. exact E.
    + bind_some H. destruct p0 as [[v1 p1] log1]. injection H as <- _ _.
      eapply IH; [exact E|exact E0].
Qed.

Lemma detect_candidates_interior sm d p v p' log :
  detect_candidates sm d p = Some (v, p', log) ->
  StronglySorted lt v /\ Forall (fun i => (1 <= i /\ S i < length sm)%nat) v.
Proof.
  unfold detect_candidates. intros H. bind_some H.
  apply find_valleys_interior in E.
  destruct (length l <? 2)%nat; [|injection H as <- _ _; exact E].
  bind_some H. destruct p0 as [[v1 p1] log1].
  apply (retry_loop_interior _ _ _ _ E) in E0.
  destruct (length v1 <? 2)%nat; [|injection H as <- _ _; exact E0].
  bind_some H. apply find_peaks_call_interior in E1.
  destruct (2 <=? length l0)%nat; injection H as <- _ _; assumption.
Qed.

Lemma filter_by_duration_increasing ts mn mx : forall cands valid vv,
  valid <> [] -> Sorted lt valid ->
  Forall (fun b => (b < length ts)%nat) valid ->
  StronglySorted lt cands ->
  Forall (fun c => (last valid O < c /\ c < length ts)%nat) cands ->
  filter_by_duration ts mn mx valid cands = Some vv ->
  Sorted lt vv /\ Forall (fun b => (b < length ts)%nat) vv.
Proof.
  induction cands as [|idx rest IH]; intros valid vv Hne Hs Hb Hc Hall H;
    cbn [filter_by_duration] in H.
  - injection H as <-. split; assumption.
  - bind_some H. inversion Hc as [|? ? Hrest Hlt]; subst.
    inversion Hall as [|? ? [Hidx Hidx'] Hall']; subst.
    destruct (_ && _).
    + apply IH in H; try assumption.
      * destruct valid; [congruence|discriminate].
      * apply Sorted_snoc with (d := O); auto.
      * apply Forall_app. split; [assumption|repeat constructor; assumption].
      * rewrite last_last. rewrite Forall_forall in Hlt, Hall' |- *.
        intros c Hin. specialize (Hlt c Hin). specialize (Hall' c Hin). lia.
    + apply IH in H; assumption.
Qed.

Lemma tail_search_increasing ts sm d p mn valid vv :
  length sm = length ts -> valid <> [] -> Sorted lt valid ->
  Forall (fun b => (b < length ts)%nat) valid ->
  tail_search ts sm d p mn valid = Some vv ->
  Sorted lt vv /\ Forall (fun b => (b < length ts)%nat) vv.
Proof.
  intros Hlen Hne Hs Hb. unfold tail_search.
  destruct (_ =? _)%nat; [intros [= <-]; split; assumption|].
  intros H. bind_some H.
  destruct (Np.geb _ _); [|injection H as <-; split; assumption].
  destruct (_ <? _)%Z; [|injection H as <-; split; assumption].
  bind_some H. apply find_valleys_interior in E1 as [_ Hint].
  destruct (0 <? length l)%nat eqn:El;
    [|injection H as <-; split; assumption].
  injection H as <-. apply Nat.ltb_lt in El.
  assert (Hin : In (last l O) l).
  { apply last_in. destruct l; [simpl in El; lia|discriminate]. }
  rewrite Forall_forall in Hint. apply Hint in Hin.
  rewrite length_skipn, Hlen in Hin. split.
  - apply Sorted_snoc with (d := O); [assumption|]. intros _. lia.
  - apply Forall_app. split; [assumption|]. repeat constructor. lia.
Qed.

Lemma adaptive_prominence_nonempty pr sm p :
  adaptive_prominence pr sm = Some p -> (1 <= length sm)%nat.
Proof.
  unfold adaptive_prominence. destruct sm; [discriminate|]. simpl. lia.
Qed.

Lemma detected_boundaries_increasing df mn mx vv log :
  detected_boundaries df mn mx = Some (vv, log) ->
  (1 <= length (rows df))%nat /\ vv <> [] /\ Sorted lt vv /\
  Forall (fun b => (b < length (rows df))%nat) vv.
Proof.
  unfold detected_boundaries. intros H. bind_some H.
  destruct p as [[cands p'] clog]. bind_some H. injection H as <- _.
  apply adaptive_prominence_nonempty in E. rewrite smooth_length in E.
  rewrite length_map in E.
  apply detect_candidates_interior in E1 as [Hcs Hci].
  rewrite smooth_length, length_map in Hci.
  assert (Hf : Sorted lt l /\
               Forall (fun b => (b < length (map timestamp_ms (rows df)))%nat) l).
  { eapply filter_by_duration_increasing; [| | | | |exact E2];
      try rewrite length_map.
    - discriminate.
    - repeat constructor.
    - repeat constructor. exact E.
    - exact Hcs.
    - eapply Forall_impl; [|exact Hci]. simpl. intros. lia. }
  destruct Hf as [Hfs Hfb].
  assert (Hl : l <> []).
  { apply filter_by_duration_prefix in E2 as [ext ->]. discriminate. }
  assert (Ht : Sorted lt l0 /\
               Forall (fun b => (b < length (map timestamp_ms (rows df)))%nat) l0).
  { eapply tail_search_increasing; [| | | |exact E3]; try assumption.
    now rewrite smooth_length, !length_map. }
  rewrite length_map in Ht. destruct Ht as [Hts Htb].
  repeat split; try assumption.
  apply tail_search_prefix in E3 as [ext ->]. destruct l; [congruence|discriminate].
Qed.

(** X8.  Whenever the boundaries of a session are computed, on the
    detection path or on the guided fallback, the session is not empty,
    the first boundary is sample 0, the boundaries are strictly
    increasing, and every boundary is a sample of the session. *)
Theorem boundaries_well_formed (df : dataframe) (min_ms max_ms : Q)
    (valid_valleys : list nat) (log : list event) :
  boundaries df min_ms max_ms = Some (valid_valleys, log) ->
  (1 <= length (rows df))%nat /\
  hd_error valid_valleys = Some O /\
  StronglySorted lt valid_valleys /\
  Forall (fun b => (b < length (rows df))%nat) valid_valleys.
Proof.
  intros H.
  destruct (boundaries_start _ _ _ H) as [rest Hrest].
  unfold boundaries in H. bind_some H. destruct p as [valid dlog].
  apply detected_boundaries_increasing in E as (Hn & Hne & Hs & Hb).
  assert (Hgoal : Sorted lt valid_valleys /\
                  Forall (fun b => (b < length (rows df))%nat) valid_valleys).
  { destruct (_ && _); injection H as <- _; [|split; assumption].
    destruct (@guided_fallback_shape
                (smooth (detect_exercise (source_file df))
                        (map filteredMag (rows df)))
                (map rep (rows df)) (original_reps_of (map rep (rows df))))
      as (Hgs & Hgb & _).
    - rewrite smooth_length, length_map. exact Hn.
    - now rewrite smooth_length, !length_map.
    - cbv zeta in Hgs, Hgb. rewrite smooth_length, length_map in Hgb.
      split; [exact Hgs|]. eapply Forall_impl; [|exact Hgb].
      simpl. intros. lia. }
  destruct Hgoal as [Hgs Hgb].
  repeat split; try assumption.
  - rewrite Hrest. reflexivity.
  - apply Sorted_StronglySorted; [|exact Hgs]. intros x y z. lia.
Qed.

(** *** The rep column *)

Lemma assign_nth labels lo hi v j :
  nth_error (assign labels lo hi v) j =
  option_map (fun x => if (lo <=? j)%nat && (j <=? hi)%nat then v else x)
             (nth_error labels j).
Proof.
  unfold assign. rewrite nth_error_map, nth_error_combine_seq.
  destruct (nth_error labels j); reflexivity.
Qed.

Lemma assign_length labels lo hi v :
  length (assign labels lo hi v) = length labels.
Proof.
  unfold assign. rewrite length_map, length_combine, length_seq. lia.
Qed.

Lemma count_le_cons j b l :
  count_le j (b :: l) = ((if (b <=? j)%nat then 1 else 0) + count_le j l)%nat.
Proof. unfold count_le. simpl. destruct (b <=? j)%nat; reflexivity. Qed.

Lemma count_le_none j l :
  Forall (fun b => (j < b)%nat) l -> count_le j l = O.
Proof.
  induction 1 as [|b l Hb _ IH]; [reflexivity|].
  rewrite count_le_cons, IH.
  destruct (Nat.leb_spec b j); [lia|reflexivity].
Qed.

Lemma count_le_all j l :
  Forall (fun b => (b <= j)%nat) l -> count_le j l = length l.
Proof.
  induction 1 as [|b l Hb _ IH]; [reflexivity|].
  rewrite count_le_cons, IH.
  destruct (Nat.leb_spec b j); [reflexivity|lia].
Qed.

Lemma sorted_le_last l :
  StronglySorted lt l -> Forall (fun b => (b <= last l O)%nat) l.
Proof.
  induction 1 as [|b l Hs IH Hlt]; [constructor|].
  destruct l as [|c l]; [repeat constructor|].
  change (last (b :: c :: l) O) with (last (c :: l) O).
  constructor; [|exact IH].
  assert (Hin : In (last (c :: l) O) (c :: l)) by (apply last_in; discriminate).
  rewrite Forall_forall in Hlt. apply Hlt in Hin. lia.
Qed.

Lemma build_reps_labels ts sig sm : forall vv i labels out,
  StronglySorted lt vv ->
  build_reps ts sig sm vv i labels = Some out ->
  length (fst out) = length labels /\
  forall j,
    nth_error (fst out) j =
    option_map (fun x => if (hd O vv <=? j)%nat && (j <? last vv O)%nat
                         then Z.of_nat (i + count_le j vv) else x)
               (nth_error labels j).
Proof.
  induction vv as [|s vv IH]; intros i labels out Hs H.
  - injection H as <-. split; [reflexivity|]. intros j. cbn [hd last fst].
    destruct (nth_error labels j); [|reflexivity]. cbn [option_map].
    now rewrite andb_false_r.
  - destruct vv as [|e rest].
    + injection H as <-. split; [reflexivity|]. intros j. cbn [hd last fst].
      destruct (nth_error labels j); [|reflexivity]. cbn [option_map].
      destruct (Nat.leb_spec s j), (Nat.ltb_spec j s); try reflexivity; lia.
    + cbn [build_reps] in H. bind_some H. injection H as <-. cbn [fst].
      inversion Hs as [|? ? Hs' Hlt]; subst.
      destruct (IH _ _ _ Hs' E0) as [Hlen Hnth].
      split; [rewrite Hlen; apply assign_length|].
      intros j. rewrite Hnth, assign_nth.
      pose proof (sorted_le_last Hs') as Hlast.
      assert (He : (s < e)%nat) by (inversion Hlt; assumption).
      assert (Hel : (e <= last (e :: rest) O)%nat)
        by (inversion Hlast; assumption).
      change (last (s :: e :: rest) O) with (last (e :: rest) O).
      cbn [hd]. rewrite (count_le_cons j s).
      destruct (nth_error labels j) as [x|]; [|reflexivity]. cbn [option_map].
      f_equal.
      destruct (Nat.leb_spec e j), (Nat.ltb_spec j (last (e :: rest) O)),
               (Nat.leb_spec s j), (Nat.leb_spec j (e - 1));
        cbn [andb]; try lia; try reflexivity.
      rewrite count_le_none; [f_equal; lia|].
      inversion Hs' as [|? ? _ Hlt']; subst. constructor; [lia|].
      eapply Forall_impl; [|exact Hlt']. simpl. intros. lia.
Qed.

Lemma count_le_mono vv i j :
  (i <= j)%nat -> (count_le i vv <= count_le j vv)%nat.
Proof.
  intros Hij. induction vv as [|b vv IH]; [reflexivity|].
  rewrite !count_le_cons.
  destruct (Nat.leb_spec b i), (Nat.leb_spec b j); lia.
Qed.

Lemma rep_column_nth (df : dataframe) (min_ms max_ms : Q)
    (valid_valleys : list nat) (log : list event) (out : segmentation) :
  boundaries df min_ms max_ms = Some (valid_valleys, log) ->
  resegment_single_source df min_ms max_ms = Some out ->
  let n := length (rows df) in
  length (rep_column out) = n /\
  forall j, (j < n)%nat ->
    nth_error (rep_column out) j =
    Some (if (j =? n - 1)%nat && (last valid_valleys O =? n - 1)%nat
          then 0%Z else Z.of_nat (count_le j valid_valleys)).
Proof.
  intros Hb H n.
  destruct (boundaries_well_formed _ _ _ Hb) as (Hn & Hhd & Hs & Hall).
  unfold resegment_single_source in H. rewrite Hb in H. cbn [Np.bind] in H.
  bind_some H. injection H as <-. cbn [rep_column].
  destruct (build_reps_labels _ _ _ _ _ Hs E) as [Hlen Hnth].
  rewrite repeat_length in Hlen.
  pose proof (sorted_le_last Hs) as Hlast.
  assert (Hl : (last valid_valleys O < n)%nat).
  { rewrite Forall_forall in Hall. apply Hall, last_in.
    destruct valid_valleys; discriminate. }
  assert (H0 : hd O valid_valleys = O)
    by (destruct valid_valleys; [discriminate|injection Hhd as ->; reflexivity]).
  unfold build_last in E0. rewrite length_map in E0. fold n in E0.
  assert (Hrep : forall j, (j < n)%nat ->
            nth_error (repeat 0%Z (length (rows df))) j = Some 0%Z)
    by (intros j Hj; apply nth_error_repeat; exact Hj).
  destruct (last valid_valleys O <? n - 1)%nat eqn:Et.
  - apply Nat.ltb_lt in Et. bind_some E0. injection E0 as <-. cbn [fst].
    split; [rewrite assign_length; exact Hlen|].
    intros j Hj. rewrite assign_nth, Hnth, (Hrep j Hj), H0. cbn [option_map].
    f_equal.
    destruct (Nat.eqb_spec (last valid_valleys O) (n - 1)); [lia|].
    rewrite andb_false_r.
    destruct (Nat.leb_spec (last valid_valleys O) j),
             (Nat.leb_spec j (n - 1)), (Nat.ltb_spec j (last valid_valleys O));
      cbn [andb Nat.leb]; try lia; try reflexivity.
    rewrite count_le_all; [reflexivity|].
    eapply Forall_impl; [|exact Hlast]. simpl. intros. lia.
  - apply Nat.ltb_ge in Et. injection E0 as <-.
    split; [exact Hlen|].
    intros j Hj. rewrite Hnth, (Hrep j Hj), H0. cbn [option_map]. f_equal.
    destruct (Nat.eqb_spec (last valid_valleys O) (n - 1)); [|lia].
    rewrite andb_true_r.
    destruct (Nat.eqb_spec j (n - 1)), (Nat.ltb_spec j (last valid_valleys O));
      cbn [andb Nat.leb]; try lia; reflexivity.
Qed.

(** X9.  In the rep column of a segmentation every sample carries the
    number of boundaries at or before it: the first sample has label 1,
    the labels never decrease and they grow by one at each boundary.  The
    one exception is the last sample when the last boundary falls on it,
    which keeps the label 0.  The input labels are kept in the
    ['rep_original'] column. *)
Theorem rep_column_counts_boundaries (df : dataframe) (min_ms max_ms : Q)
    (valid_valleys : list nat) (log : list event) (out : segmentation) :
  boundaries df min_ms max_ms = Some (valid_valleys, log) ->
  resegment_single_source df min_ms max_ms = Some out ->
  let n := length (rows df) in
  length (rep_column out) = n /\
  rep_original out = map rep (rows df) /\
  (forall j, (j < n)%nat ->
     nth_error (rep_column out) j =
     Some (if (j =? n - 1)%nat && (last valid_valleys O =? n - 1)%nat
           then 0%Z else Z.of_nat (count_le j valid_valleys))) /\
  count_le 0 valid_valleys = 1%nat /\
  (forall i j, (i <= j)%nat ->
     (count_le i valid_valleys <= count_le j valid_valleys)%nat) /\
  (forall j, In (S j) valid_valleys ->
     count_le (S j) valid_valleys = S (count_le j valid_valleys)).
Proof.
  intros Hb H n.
  destruct (@rep_column_nth _ _ _ _ _ _ Hb H) as [Hlen Hnth].
  destruct (boundaries_well_formed _ _ _ Hb) as (_ & Hhd & Hs & _).
  split; [exact Hlen|]. split.
  { unfold resegment_single_source in H. bind_some H.
    destruct p as [vv lg]. bind_some H. injection H as <-. reflexivity. }
  split; [exact Hnth|]. split.
  { destruct valid_valleys as [|b vv]; [discriminate|].
    injection Hhd as ->. rewrite count_le_cons. cbn [Nat.leb].
    rewrite count_le_none; [reflexivity|].
    inversion Hs; assumption. }
  split; [intros i j; apply count_le_mono|].
  intros j Hin. clear - Hs Hin.
  induction Hs as [|b vv Hs IH Hlt]; [destruct Hin|].
  rewrite !count_le_cons. destruct Hin as [->|Hin].
  - rewrite !count_le_none.
    + destruct (Nat.leb_spec (S j) (S j)), (Nat.leb_spec (S j) j); lia.
    + eapply Forall_impl; [|exact Hlt]. simpl. intros. lia.
    + exact Hlt.
  - rewrite (IH Hin). rewrite Forall_forall in Hlt. specialize (Hlt _ Hin).
    destruct (Nat.leb_spec b (S j)), (Nat.leb_spec b j); lia.
Qed.

(** *** The list of reps *)

Lemma rep_entry_inv ts sig sm k a e nxt r :
  rep_entry ts sig sm k a e nxt = Some r ->
  (S e <= length sm)%nat ->
  (a <= e < length ts)%nat /\
  assoc "rep" r = Some (Np.of_nat k) /\
  assoc "start_idx" r = Some (Np.of_nat a) /\
  assoc "end_idx" r = Some (Np.of_nat e) /\
  assoc "next_rep_start_idx" r = option_map Np.of_nat nxt /\
  exists p,
    assoc "peak_idx" r = Some (Np.of_nat p) /\
    (a <= p <= e)%nat /\
    (forall j, (a <= j <= e)%nat -> nth j sm 0 <= nth p sm 0) /\
    assoc "peak_value" r = nth_error sig p /\
    assoc "valley_value" r = nth_error sig a.
Proof.
  unfold rep_entry. intros H Hsm. bind_some H. injection H as <-.
  assert (He : (e < length ts)%nat) by (apply nth_error_Some; congruence).
  assert (Hlen : length (Np.slice sm a (S e)) = (S e - a)%nat)
    by (apply slice_length; lia).
  destruct (np_argmax_spec _ E1) as [Hn Hmax]. rewrite Hlen in Hn, Hmax.
  split; [lia|].
  assert (Hk : forall d : metrics,
            assoc "peak_idx"
              (match nxt with
               | Some e' => [("next_rep_start_idx", Np.of_nat e')]
               | None => []
               end ++ d) = assoc "peak_idx" d /\
            assoc "peak_value"
              (match nxt with
               | Some e' => [("next_rep_start_idx", Np.of_nat e')]
               | None => []
               end ++ d) = assoc "peak_value" d /\
            assoc "valley_value"
              (match nxt with
               | Some e' => [("next_rep_start_idx", Np.of_nat e')]
               | None => []
               end ++ d) = assoc "valley_value" d)
    by (intros d; destruct nxt; repeat split; reflexivity).
  repeat match goal with |- _ /\ _ => split end; try reflexivity.
  - destruct nxt; reflexivity.
  - exists (a + n)%nat.
    cbn [app assoc String.eqb Ascii.eqb Bool.eqb].
    destruct (Hk [("start_time_ms", q); ("end_time_ms", q0);
                  ("duration_ms", q0 - q); ("peak_idx", Np.of_nat (a + n));
                  ("peak_time_ms", q1); ("peak_value", q2);
                  ("valley_value", q3); ("amplitude", q2 - q3)])
      as (-> & -> & ->).
    cbn [assoc String.eqb Ascii.eqb Bool.eqb].
    repeat match goal with |- _ /\ _ => split end;
      try reflexivity; try lia; try (symmetry; assumption).
    intros j Hj.
    replace j with (a + (j - a))%nat by lia.
    rewrite <- !(@slice_nth sm a (S e)) by lia. apply Hmax. lia.
Qed.

Lemma build_reps_info ts sig sm : forall vv i labels out,
  build_reps ts sig sm vv i labels = Some out ->
  length (snd out) = (length vv - 1)%nat /\
  forall k r, nth_error (snd out) k = Some r ->
    rep_entry ts sig sm (S (i + k)) (nth k vv O) (nth (S k) vv O - 1)
      (Some (nth (S k) vv O)) = Some r.
Proof.
  induction vv as [|s vv IH]; intros i labels out H.
  - injection H as <-. split; [reflexivity|]. intros [|k] r; discriminate.
  - destruct vv as [|e rest].
    + injection H as <-. split; [reflexivity|]. intros [|k] r; discriminate.
    + cbn [build_reps] in H. bind_some H. injection H as <-. cbn [snd].
      destruct (IH _ _ _ E0) as [Hlen Hnth]. split.
      * cbn [length] in *. lia.
      * intros [|k] r Hr.
        -- injection Hr as <-. rewrite Nat.add_0_r. exact E.
        -- cbn [nth_error] in Hr. apply Hnth in Hr.
           replace (S (i + S k)) with (S (S i + k)) by lia. exact Hr.
Qed.

Lemma last_as_nth (l : list nat) : last l O = nth (length l - 1) l O.
Proof.
  induction l as [|x l IH]; [reflexivity|].
  destruct l as [|y l]; [reflexivity|].
  change (last (x :: y :: l) O) with (last (y :: l) O). rewrite IH.
  cbn [length]. rewrite !Nat.sub_succ, !Nat.sub_0_r. reflexivity.
Qed.

Lemma sorted_nth_step (l : list nat) : forall k,
  StronglySorted lt l -> (S k < length l)%nat ->
  (nth k l O < nth (S k) l O)%nat.
Proof.
  induction l as [|x l IH]; intros k Hs Hk; [simpl in Hk; lia|].
  inversion Hs as [|? ? Hs' Hlt]; subst.
  destruct k as [|k].
  - destruct l as [|y l]; [simpl in Hk; lia|]. inversion Hlt; assumption.
  - apply IH; [assumption|simpl in Hk; lia].
Qed.

(** X10.  The list of reps follows the boundaries: rep number [k + 1]
    starts at boundary [k] and ends one sample before boundary [k + 1],
    which it records as the start of the next rep; the rep after the last
    boundary runs to the last sample and records no next start, and it
    exists only when the last boundary is not the last sample.  In every
    rep the recorded peak is a sample of the rep at which the smoothed
    signal is greatest. *)
Theorem rep_info_follows_boundaries (df : dataframe) (min_ms max_ms : Q)
    (valid_valleys : list nat) (log : list event) (out : segmentation) :
  boundaries df min_ms max_ms = Some (valid_valleys, log) ->
  resegment_single_source df min_ms max_ms = Some out ->
  let n := length (rows df) in
  let signal_smooth :=
    smooth (detect_exercise (source_file df)) (map filteredMag (rows df)) in
  let closed k := (S k <? length valid_valleys)%nat in
  length (rep_info out) =
    (if (last valid_valleys O <? n - 1)%nat
     then length valid_valleys else length valid_valleys - 1)%nat /\
  forall k r, nth_error (rep_info out) k = Some r ->
    let a := nth k valid_valleys O in
    let e := if closed k then (nth (S k) valid_valleys O - 1)%nat
             else (n - 1)%nat in
    (a <= e < n)%nat /\
    assoc "rep" r = Some (Np.of_nat (S k)) /\
    assoc "start_idx" r = Some (Np.of_nat a) /\
    assoc "end_idx" r = Some (Np.of_nat e) /\
    assoc "next_rep_start_idx" r =
      (if closed k then Some (Np.of_nat (nth (S k) valid_valleys O)) else None) /\
    exists p,
      assoc "peak_idx" r = Some (Np.of_nat p) /\ (a <= p <= e)%nat /\
      forall j, (a <= j <= e)%nat ->
                nth j signal_smooth 0 <= nth p signal_smooth 0.
Proof.
  intros Hb H n sm closed.
  destruct (boundaries_well_formed _ _ _ Hb) as (Hn & Hhd & Hs & Hall).
  unfold resegment_single_source in H. rewrite Hb in H. cbn [Np.bind] in H.
  bind_some H. injection H as <-. cbn [rep_info].
  destruct (build_reps_info _ _ _ _ _ _ E) as [Hlen Hnth].
  assert (Hne : (1 <= length valid_valleys)%nat)
    by (destruct valid_valleys; [discriminate|simpl; lia]).
  assert (Hsm : length sm = n)
    by (unfold sm; now rewrite smooth_length, length_map).
  assert (Hbound : forall k, (k < length valid_valleys)%nat ->
                             (nth k valid_valleys O < n)%nat).
  { intros k Hk. rewrite Forall_forall in Hall. apply Hall, nth_In, Hk. }
  unfold build_last in E0. rewrite length_map in E0. fold n in E0.
  assert (Hbody : forall k r, nth_error (snd p) k = Some r ->
    (nth k valid_valleys O <= nth (S k) valid_valleys O - 1 < n)%nat /\
    closed k = true /\
    assoc "rep" r = Some (Np.of_nat (S k)) /\
    assoc "start_idx" r = Some (Np.of_nat (nth k valid_valleys O)) /\
    assoc "end_idx" r = Some (Np.of_nat (nth (S k) valid_valleys O - 1)) /\
    assoc "next_rep_start_idx" r =
      Some (Np.of_nat (nth (S k) valid_valleys O)) /\
    exists pk,
      assoc "peak_idx" r = Some (Np.of_nat pk) /\
      (nth k valid_valleys O <= pk <= nth (S k) valid_valleys O - 1)%nat /\
      forall j, (nth k valid_valleys O <= j <= nth (S k) valid_valleys O - 1)%nat ->
                nth j sm 0 <= nth pk sm 0).
  { intros k r Hr.
    assert (Hk : (S k < length valid_valleys)%nat).
    { assert (Hlt : (k < length (snd p))%nat)
        by (apply nth_error_Some; congruence).
      lia. }
    pose proof (@sorted_nth_step _ k Hs Hk) as Hstep.
    pose proof (Hbound _ Hk) as Hb1.
    apply Hnth in Hr. cbn [Nat.add] in Hr.
    apply rep_entry_inv in Hr; [|fold sm; lia].
    destruct Hr as (Hr0 & Hr1 & Hr2 & Hr3 & Hr4 & pk & Hp1 & Hp2 & Hp3 & _).
    repeat match goal with |- _ /\ _ => split end; try assumption; try lia.
    - unfold closed. apply Nat.ltb_lt. exact Hk.
    - exists pk. repeat split; try assumption; lia. }
  destruct (last valid_valleys O <? n - 1)%nat eqn:Et.
  - apply Nat.ltb_lt in Et. bind_some E0. injection E0 as <-. cbn [snd].
    split; [rewrite length_app; cbn [length]; lia|].
    intros k r Hr.
    destruct (Nat.lt_ge_cases k (length (snd p))) as [Hk|Hk].
    + rewrite nth_error_app1 in Hr by exact Hk.
      destruct (Hbody _ _ Hr) as (H1 & Hc & H2 & H3 & H4 & H5 & H6).
      rewrite Hc. repeat split; try assumption; lia.
    + rewrite nth_error_app2 in Hr by exact Hk.
      destruct (k - length (snd p))%nat as [|d] eqn:Ed;
        [|destruct d; discriminate].
      injection Hr as <-.
      assert (Hkk : k = (length valid_valleys - 1)%nat) by lia.
      assert (Hc : closed k = false)
        by (unfold closed; apply Nat.ltb_ge; lia).
      assert (Ha : nth k valid_valleys O = last valid_valleys O)
        by (rewrite Hkk; symmetry; apply last_as_nth).
      rewrite Hc, Ha.
      apply rep_entry_inv in E1; [|fold sm; lia].
      destruct E1 as (Hr0 & Hr1 & Hr2 & Hr3 & Hr4 & pk & Hp1 & Hp2 & Hp3 & _).
      replace (S k) with (length valid_valleys) by lia.
      repeat match goal with |- _ /\ _ => split end; try assumption; try lia.
      exists pk. repeat split; try assumption; lia.
  - injection E0 as <-. cbn [snd]. rewrite app_nil_r.
    split; [exact Hlen|].
    intros k r Hr.
    destruct (Hbody _ _ Hr) as (H1 & Hc & H2 & H3 & H4 & H5 & H6).
    rewrite Hc. repeat split; try assumption; lia.
Qed.

(** *** When the segmentation returns and when it raises *)

Lemma rep_entry_total ts sig sm k a e nxt :
  length sig = length ts -> length sm = length ts ->
  (a <= e < length ts)%nat ->
  exists r, rep_entry ts sig sm k a e nxt = Some r.
Proof.
  intros Hsig Hsm Hae. unfold rep_entry.
  destruct (nth_error_defined ts (i := a)) as [ta ->]; [lia|].
  destruct (nth_error_defined ts (i := e)) as [te ->]; [lia|]. cbn [Np.bind].
  assert (Hlen : length (Np.slice sm a (S e)) = (S e - a)%nat)
    by (apply slice_length; lia).
  destruct (Np.np_argmax (Np.slice sm a (S e))) as [pl|] eqn:Ep.
  2:{ destruct (Np.slice sm a (S e)) as [|x xs];
      [cbn [length] in Hlen; lia | discriminate Ep]. }
  apply np_argmax_bound in Ep. cbn [Np.bind].
  destruct (nth_error_defined ts (i := (a + pl)%nat)) as [tp ->]; [lia|].
  destruct (nth_error_defined sig (i := (a + pl)%nat)) as [vp ->]; [lia|].
  destruct (nth_error_defined sig (i := a)) as [va ->]; [lia|]. cbn [Np.bind].
  eexists. reflexivity.
Qed.

Lemma build_reps_total ts sig sm : forall vv i labels,
  length sig = length ts -> length sm = length ts ->
  StronglySorted lt vv -> Forall (fun b => (b < length ts)%nat) vv ->
  exists out, build_reps ts sig sm vv i labels = Some out.
Proof.
  induction vv as [|s vv IH]; intros i labels Hsig Hsm Hs Hb;
    [eexists; reflexivity|].
  destruct vv as [|e rest]; [eexists; reflexivity|].
  change (build_reps ts sig sm (s :: e :: rest) i labels)
    with (r <- rep_entry ts sig sm (S i) s (e - 1) (Some e) ;;
          out <- build_reps ts sig sm (e :: rest) (S i)
                   (assign labels s (e - 1) (Z.of_nat (S i))) ;;
          Some (fst out, r :: snd out)).
  inversion Hs as [|? ? Hs' Hlt]; subst. inversion Hb as [|? ? Hbs Hb']; subst.
  assert (He : (s < e)%nat) by (inversion Hlt; assumption).
  assert (Hen : (e < length ts)%nat) by (inversion Hb'; assumption).
  destruct (@rep_entry_total ts sig sm (S i) s (e - 1) (Some e) Hsig Hsm)
    as [r ->]; [lia|]. cbn [Np.bind].
  destruct (IH (S i) (assign labels s (e - 1) (Z.of_nat (S i))) Hsig Hsm Hs' Hb')
    as [out ->].
  cbn [Np.bind]. eexists. reflexivity.
Qed.

Lemma filter_by_duration_total ts mn mx : forall cands valid,
  valid <> [] -> Forall (fun b => (b < length ts)%nat) valid ->
  Forall (fun b => (b < length ts)%nat) cands ->
  exists vv, filter_by_duration ts mn mx valid cands = Some vv.
Proof.
  induction cands as [|idx rest IH]; intros valid Hne Hb Hc;
    [eexists; reflexivity|].
  cbn [filter_by_duration]. inversion Hc as [|? ? Hidx Hrest]; subst.
  assert (Hl : (last valid O < length ts)%nat).
  { rewrite Forall_forall in Hb. apply Hb, last_in, Hne. }
  destruct (nth_error_defined ts Hl) as [tl ->].
  destruct (nth_error_defined ts Hidx) as [ti ->]. cbn [Np.bind].
  destruct (_ && _).
  - apply IH; [destruct valid; discriminate| |assumption].
    apply Forall_app. split; [assumption|repeat constructor; assumption].
  - apply IH; assumption.
Qed.

Lemma tail_search_total ts sm d p mn valid :
  (2 <= d)%Z -> valid <> [] -> Forall (fun b => (b < length ts)%nat) valid ->
  exists vv, tail_search ts sm d p mn valid = Some vv.
Proof.
  intros Hd Hne Hb. unfold tail_search.
  destruct (_ =? _)%nat; [eexists; reflexivity|].
  assert (Hl : (last valid O < length ts)%nat).
  { rewrite Forall_forall in Hb. apply Hb, last_in, Hne. }
  destruct (nth_error_defined ts Hl) as [tl ->]. cbn [Np.bind].
  destruct ts as [|t0 ts]; [simpl in Hl; lia|]. cbn [Np.last_error Np.bind].
  destruct (Np.geb _ _); [|eexists; reflexivity].
  destruct (_ <? _)%Z; [|eexists; reflexivity].
  unfold find_valleys, find_peaks_call.
  assert (Hhalf : (d / 2 <? 1)%Z = false).
  { apply Z.ltb_ge. apply Z.div_le_lower_bound; lia. }
  rewrite Hhalf. cbn [Np.bind].
  destruct (0 <? _)%nat; eexists; reflexivity.
Qed.

Lemma py_int_lower (x : Q) (k : Z) : inject_Z k <= x -> (k <= Np.py_int x)%Z.
Proof.
  unfold Np.py_int, Qle. cbn [Qnum Qden inject_Z]. intros H.
  apply Z.quot_le_lower_bound; lia.
Qed.


Lemma min_distance_of_regular e ts :
  (1 < length ts)%nat ->
  0 < Np.np_median (Np.np_diff ts) ->
  Np.np_median (Np.np_diff ts) <= (if is_weight_stack e then 750 else 250) ->
  exists d, min_distance_of e ts = Some d /\ (2 <= d)%Z.
Proof.
  intros Hn Hpos Hle. unfold min_distance_of.
  apply Nat.ltb_lt in Hn. rewrite Hn.
  set (m := Np.np_median (Np.np_diff ts)) in *.
  rewrite eqb_false by lra.
  destruct (is_weight_stack e); eexists; (split; [reflexivity|]);
    apply py_int_lower; change (inject_Z 2) with 2.
  - assert (Hs : 4 # 3 <= 1000 / m) by (apply Qle_shift_div_l; lra). lra.
  - assert (Hs : 4 <= 1000 / m) by (apply Qle_shift_div_l; lra). lra.
Qed.

(** X11.  A session that is not empty, whose recording has a name of
    ASCII characters (or no name), and whose samples are a positive median
    interval of at most 250 ms apart (750 ms for the weight-stack
    exercises) is always segmented: no step of detection, filtering,
    fallback or rep building raises.  A session of a single sample is
    segmented as well. *)
Theorem resegment_single_source_returns (df : dataframe) (min_ms max_ms : Q) :
  let timestamps := map timestamp_ms (rows df) in
  let e := detect_exercise (source_file df) in
  let median_dt := Np.np_median (Np.np_diff timestamps) in
  ascii_source df ->
  rows df <> [] ->
  ((1 < length (rows df))%nat ->
   0 < median_dt /\ median_dt <= (if is_weight_stack e then 750 else 250)) ->
  exists out, resegment_single_source df min_ms max_ms = Some out.
Proof.
  intros ts e median_dt _ Hne Hdt.
  set (sig := map filteredMag (rows df)).
  set (sm := smooth e sig).
  assert (Hn : (1 <= length (rows df))%nat)
    by (destruct (rows df); [congruence|simpl; lia]).
  assert (Hts : length ts = length (rows df)) by apply length_map.
  assert (Hsig : length sig = length ts) by (unfold sig; now rewrite !length_map).
  assert (Hsm : length sm = length ts)
    by (unfold sm; now rewrite smooth_length).
  assert (Hd : exists d, min_distance_of e ts = Some d /\ (2 <= d)%Z).
  { destruct (Nat.ltb_spec 1 (length (rows df))) as [H1|H1].
    - destruct (Hdt H1) as [Hpos Hle].
      apply min_distance_of_regular; [lia|exact Hpos|exact Hle].
    - unfold min_distance_of. rewrite Hts.
      destruct (Nat.ltb_spec 1 (length (rows df))); [lia|].
      eexists. split; [reflexivity|lia]. }
  destruct Hd as (d & Hd & Hd2).
  assert (Hdet : exists vv log, detected_boundaries df min_ms max_ms = Some (vv, log)).
  { unfold detected_boundaries. fold e. fold sig. fold sm. fold ts.
    unfold adaptive_prominence.
    destruct sm as [|x sm'] eqn:Esm; [simpl in Hsm; lia|].
    cbn [Np.np_max Np.np_min Np.bind]. rewrite Hd. cbn [Np.bind].
    rewrite detect_candidates_ladder by lia.
    destruct (ladder _ _ _) as [[cands p'] clog] eqn:El. cbn [Np.bind].
    assert (Hc : StronglySorted lt cands /\
                 Forall (fun i => (1 <= i /\ S i < length (x :: sm'))%nat) cands).
    { eapply detect_candidates_interior.
      rewrite detect_candidates_ladder by (instantiate (1 := d); lia).
      rewrite El. reflexivity. }
    destruct Hc as [Hcs Hci]. rewrite Hsm in Hci.
    destruct (@filter_by_duration_total ts (min_rep_duration_ms (profile_of e min_ms max_ms))
                (max_rep_duration_ms (profile_of e min_ms max_ms)) cands [O])
      as [v1 Hv1].
    - discriminate.
    - repeat constructor. lia.
    - eapply Forall_impl; [|exact Hci]. simpl. intros. lia.
    - rewrite Hv1. cbn [Np.bind].
      assert (Hv1b : Forall (fun b => (b < length ts)%nat) v1).
      { eapply filter_by_duration_increasing; [| | | | |exact Hv1].
        + discriminate.
        + repeat constructor.
        + repeat constructor. lia.
        + exact Hcs.
        + eapply Forall_impl; [|exact Hci]. simpl. intros. lia. }
      assert (Hv1n : v1 <> []).
      { apply filter_by_duration_prefix in Hv1 as [ext ->]. discriminate. }
      destruct (@tail_search_total ts (x :: sm') d p'
                  (min_rep_duration_ms (profile_of e min_ms max_ms)) v1 Hd2 Hv1n Hv1b)
        as [v2 ->].
      cbn [Np.bind]. eauto. }
  destruct Hdet as (vd & dlog & Hdet).
  assert (Hbd : exists vv log, boundaries df min_ms max_ms = Some (vv, log)).
  { unfold boundaries. rewrite Hdet. cbn [Np.bind].
    destruct (_ && _); eauto. }
  destruct Hbd as (vv & log & Hbd).
  destruct (boundaries_well_formed _ _ _ Hbd) as (_ & Hhd & Hs & Hall).
  unfold resegment_single_source. rewrite Hbd. cbn [Np.bind].
  fold e. fold sig. fold sm. fold ts. rewrite <- Hts in Hall.
  destruct (@build_reps_total ts sig sm vv O (repeat 0%Z (length (rows df)))
              Hsig Hsm Hs Hall) as [body ->].
  cbn [Np.bind]. unfold build_last.
  destruct (_ <? _)%nat eqn:Et.
  - apply Nat.ltb_lt in Et.
    destruct (@rep_entry_total ts sig sm (length vv) (last vv O)
                (length ts - 1) None Hsig Hsm) as [r ->]; [lia|].
    cbn [Np.bind]. eexists. reflexivity.
  - cbn [Np.bind]. eexists. reflexivity.
Qed.


End MoreSegmentation.
Lemma boundaries_well_formed_witness : StronglySorted lt [0; 8]%nat.
Proof.
  apply (@boundaries_well_formed RefScipy two_valley_session 800 8000
           [0; 8]%nat []).
  vm_compute. reflexivity.
Defined.

Lemma rep_column_counts_boundaries_witness :
  exists out, run flat_labelled_session = Some out /\
              nth_error (rep_column out) 7 = Some 0%Z.
Proof.
  destruct (run flat_labelled_session) as [out|] eqn:E;
    [|vm_compute in E; discriminate].
  exists out. split; [reflexivity|].
  pose proof (@rep_column_counts_boundaries RefScipy flat_labelled_session
                800 8000 [0; 7]%nat
                [TooFewValleys; Retry 0.05 0; Retry 0.025 0; Retry 0.01 0;
                 TryingPeaks; GuidedFallback [1; 2]%Z] out) as H.
  cbv zeta in H. destruct H as (_ & _ & H & _); [vm_compute; reflexivity|exact E|].
  apply (H 7%nat). simpl. lia.
Defined.

Lemma rep_info_follows_boundaries_witness :
  exists out, run two_valley_session = Some out /\
              length (rep_info out) = 2%nat.
Proof.
  destruct (run two_valley_session) as [out|] eqn:E;
    [|vm_compute in E; discriminate].
  exists out. split; [reflexivity|].
  pose proof (@rep_info_follows_boundaries RefScipy two_valley_session
                800 8000 [0; 8]%nat [] out) as H.
  cbv zeta in H. destruct H as (H & _); [vm_compute; reflexivity|exact E|].
  exact H.
Defined.

Lemma resegment_single_source_returns_witness :
  exists out,
    resegment_single_source (recording "bench_press_01.csv" two_valley_session)
      800 8000 = Some out.
Proof.
  apply (@resegment_single_source_returns RefScipy
           (recording "bench_press_01.csv" two_valley_session) 800 8000).
  - unfold ascii_source, ascii_only. cbn [source_file recording].
    repeat (apply Forall_cons; [vm_compute; lia|]). apply Forall_nil.
  - discriminate.
  - intros _. split; vm_compute; [reflexivity|discriminate].
Defined.

(** ** Exercise profiles and the report *)

Section MoreProfiles.
Context {lib : Scipy}.





Lemma upper_ascii_idempotent c :
  (nat_of_ascii c < 128)%nat -> upper_ascii (upper_ascii c) = upper_ascii c.
Proof.
  destruct c as [[] [] [] [] [] [] [] []]; intros H;
    try reflexivity; vm_compute in H; lia.
Qed.

Lemma upper_idempotent s : ascii_only s -> upper (upper s) = upper s.
Proof.
  unfold ascii_only. induction s as [|c s IH]; intros H; [reflexivity|].
  cbn [list_ascii_of_string] in H. inversion H; subst.
  cbn [upper]. rewrite upper_ascii_idempotent, IH; auto.
Qed.

(** X14.  The exercise is detected from the name of the source file
    without regard to letter case: a file name of ASCII characters and its
    upper-case form select the same exercise, hence the same profile. *)
Theorem detect_exercise_ignores_case (f : string) (min_ms max_ms : Q) :
  ascii_only f ->
  detect_exercise (Some (upper f)) = detect_exercise (Some f) /\
  profile_of (detect_exercise (Some (upper f))) min_ms max_ms =
  profile_of (detect_exercise (Some f)) min_ms max_ms.
Proof.
  intros H.
  assert (E : detect_exercise (Some (upper f)) = detect_exercise (Some f))
    by (unfold detect_exercise; now rewrite (upper_idempotent H)).
  split; [exact E|]. now rewrite E.
Qed.

Lemma percent_change_ratio first last :
  percent_change first last ==
  (if Np.gtb first 0 then (last - first) / first else 0) * 100.
Proof.
  unfold percent_change. destruct (Np.gtb first 0); [reflexivity|ring].
Qed.

(** X15.  The early-versus-late percentages of the report are the fatigue
    indicators in percent: the duration increase is [I_T * 100], the jerk
    increase [I_J * 100], the shakiness increase [I_S * 100], and the
    absolute value of the gyro peak change is [D_omega * 100] when the
    session has gyro data. *)
Theorem early_vs_late_matches_indicators (l : list metrics) :
  duration_increase l == I_T l * 100 /\
  jerk_increase_pct l == I_J l * 100 /\
  shakiness_increase_pct l == I_S l * 100 /\
  (has_gyro l = true -> Qabs (gyro_change_pct l) == D_omega l * 100).
Proof.
  repeat match goal with |- _ /\ _ => split end.
  - unfold duration_increase, I_T. apply percent_change_ratio.
  - unfold jerk_increase_pct, I_J. apply percent_change_ratio.
  - unfold shakiness_increase_pct, I_S.
    destruct (has_shakiness l); [apply percent_change_ratio|ring].
  - intros Hg. unfold gyro_change_pct, D_omega, avg_gyro_first_val,
      avg_gyro_last_val, percent_change.
    rewrite Hg.
    set (first := avg_first l (gyro_peaks l)).
    set (last := avg_last l (gyro_peaks l)).
    destruct (Np.gtb first 0) eqn:G; [|reflexivity].
    apply gtb_true in G.
    destruct (Qlt_le_dec last first) as [Hl|Hl].
    + rewrite Qabs_neg.
      * rewrite (Qabs_pos (first - last)) by lra. field. lra.
      * setoid_replace ((last - first) / first * 100)
          with (- ((first - last) * (100 / first))) by (field; lra).
        assert (0 <= (first - last) * (100 / first)); [|lra].
        apply Qmult_le_0_compat; [lra|]. apply Qle_shift_div_l; lra.
    + rewrite Qabs_pos.
      * rewrite (Qabs_neg (first - last)) by lra. field. lra.
      * setoid_replace ((last - first) / first * 100)
          with ((last - first) * (100 / first)) by (field; lra).
        apply Qmult_le_0_compat; [lra|]. apply Qle_shift_div_l; lra.
Qed.


Lemma geb_leb_true x lo hi :
  Np.ltb x lo = false -> Np.gtb x hi = false -> lo <= x /\ x <= hi.
Proof.
  intros H1 H2. apply ltb_false in H1. apply gtb_false in H2. split; assumption.
Qed.


End MoreProfiles.


Lemma detect_exercise_ignores_case_witness :
  detect_exercise (Some (upper "bench_press_01.csv")) =
  detect_exercise (Some "bench_press_01.csv").
Proof.
  apply (@detect_exercise_ignores_case "bench_press_01.csv" 800 8000).
  unfold ascii_only. repeat constructor.
Defined.

Lemma early_vs_late_matches_indicators_witness :
  Qabs (gyro_change_pct [[("gyro_peak", 2)]; [("gyro_peak", 2)];
                         [("gyro_peak", 3)]]) ==
  D_omega [[("gyro_peak", 2)]; [("gyro_peak", 2)]; [("gyro_peak", 3)]] * 100.
Proof.
  apply (@early_vs_late_matches_indicators
           [[("gyro_peak", 2)]; [("gyro_peak", 2)]; [("gyro_peak", 3)]]).
  reflexivity.
Defined.

(** ** Range of motion and phase durations in [main_csv.py] *)

Section MorePhases.
Context {lib : Scipy}.

Lemma fold_max_spec l : forall x,
  let m := fold_left (fun m y => if Qlt_le_dec m y then y else m) l x in
  (m = x \/ In m l) /\ forall y, In y l -> y <= m.
Proof.
  induction l as [|z l IH]; intros x; cbn [fold_left].
  - split; [left; reflexivity|intros y []].
  - destruct (Qlt_le_dec x z) as [H|H].
    + destruct (IH z) as [Hm Hub]. cbv zeta in Hm, Hub. split.
      * right. destruct Hm as [->|Hm]; [left; reflexivity|right; exact Hm].
      * intros y [<-|Hy]; [|apply Hub, Hy].
        pose proof (fold_max_ge l z). lra.
    + destruct (IH x) as [Hm Hub]. cbv zeta in Hm, Hub. split.
      * destruct Hm as [->|Hm]; [left; reflexivity|right; right; exact Hm].
      * intros y [<-|Hy]; [|apply Hub, Hy].
        pose proof (fold_max_ge l x). lra.
Qed.

Lemma fold_min_spec l : forall x,
  let m := fold_left (fun m y => if Qlt_le_dec y m then y else m) l x in
  (m = x \/ In m l) /\ forall y, In y l -> m <= y.
Proof.
  induction l as [|z l IH]; intros x; cbn [fold_left].
  - split; [left; reflexivity|intros y []].
  - destruct (Qlt_le_dec z x) as [H|H].
    + destruct (IH z) as [Hm Hub]. cbv zeta in Hm, Hub. split.
      * right. destruct Hm as [->|Hm]; [left; reflexivity|right; exact Hm].
      * intros y [<-|Hy]; [|apply Hub, Hy].
        pose proof (fold_min_le l z). lra.
    + destruct (IH x) as [Hm Hub]. cbv zeta in Hm, Hub. split.
      * destruct Hm as [->|Hm]; [left; reflexivity|right; right; exact Hm].
      * intros y [<-|Hy]; [|apply Hub, Hy].
        pose proof (fold_min_le l x). lra.
Qed.

Lemma np_max_spec l m :
  Np.np_max l = Some m -> In m l /\ forall y, In y l -> y <= m.
Proof.
  destruct l as [|x l]; [discriminate|]. intros [= <-].
  destruct (fold_max_spec l x) as [Hm Hub]. cbv zeta in Hm, Hub. split.
  - destruct Hm as [->|Hm]; [left; reflexivity|right; exact Hm].
  - intros y [<-|Hy]; [apply fold_max_ge|apply Hub, Hy].
Qed.

Lemma np_min_spec l m :
  Np.np_min l = Some m -> In m l /\ forall y, In y l -> m <= y.
Proof.
  destruct l as [|x l]; [discriminate|]. intros [= <-].
  destruct (fold_min_spec l x) as [Hm Hub]. cbv zeta in Hm, Hub. split.
  - destruct Hm as [->|Hm]; [left; reflexivity|right; exact Hm].
  - intros y [<-|Hy]; [apply fold_min_le|apply Hub, Hy].
Qed.

(** X17.  [calculate_range_of_motion] raises exactly on an empty array.
    Otherwise it returns the difference of two elements of the array, the
    greatest and the least, which is not negative and bounds the
    difference of any two elements; an array whose elements are all the
    same has range 0. *)
Theorem calculate_range_of_motion_spec (angle_data : list Q) :
  (MainCsv.calculate_range_of_motion angle_data = None <-> angle_data = []) /\
  (forall r, MainCsv.calculate_range_of_motion angle_data = Some r ->
     0 <= r /\
     (exists hi lo,
        In hi angle_data /\ In lo angle_data /\ r = hi - lo /\
        forall x, In x angle_data -> lo <= x /\ x <= hi) /\
     (forall x y, In x angle_data -> In y angle_data -> x - y <= r) /\
     (forall c, (forall x, In x angle_data -> x = c) -> r == 0)).
Proof.
  unfold MainCsv.calculate_range_of_motion. split.
  - destruct angle_data; [split; reflexivity|]. split; discriminate.
  - intros r H. bind_some H. injection H as <-.
    destruct (np_max_spec _ E) as [Hin Hub].
    destruct (np_min_spec _ E0) as [Hin' Hlb].
    repeat match goal with |- _ /\ _ => split end.
    + specialize (Hub _ Hin'). lra.
    + exists q, q0. repeat split; try assumption.
      * apply Hlb. assumption.
      * apply Hub. assumption.
    + intros x y Hx Hy. specialize (Hub x Hx). specialize (Hlb y Hy). lra.
    + intros c Hc. rewrite (Hc _ Hin), (Hc _ Hin'). ring.
Qed.





End MorePhases.

Lemma calculate_range_of_motion_spec_witness :
  exists r, MainCsv.calculate_range_of_motion [3; 1; 2] = Some r /\ 0 <= r.
Proof.
  exists (3 - 1). split; [reflexivity|].
  apply (proj2 (calculate_range_of_motion_spec [3; 1; 2]) (3 - 1)). reflexivity.
Defined.

(** ** Several source files: [resegment_reps] *)

Section MoreSources.
Context {lib : Scipy}.

Lemma list_sum_cons a l : list_sum (a :: l) = (a + list_sum l)%nat.
Proof. reflexivity. Qed.

Lemma rep_entry_rep ts sig sm k a e nxt r :
  rep_entry ts sig sm k a e nxt = Some r -> assoc "rep" r = Some (Np.of_nat k).
Proof.
  unfold rep_entry. intros H. bind_some H. injection H as <-. reflexivity.
Qed.

Lemma rep_info_numbers (df : dataframe) (min_ms max_ms : Q)
    (valid_valleys : list nat) (log : list event) (out : segmentation) :
  boundaries df min_ms max_ms = Some (valid_valleys, log) ->
  resegment_single_source df min_ms max_ms = Some out ->
  length (rep_info out) =
    (if (last valid_valleys O <? length (rows df) - 1)%nat
     then length valid_valleys else length valid_valleys - 1)%nat /\
  forall k r, nth_error (rep_info out) k = Some r ->
              assoc "rep" r = Some (Np.of_nat (S k)).
Proof.
  intros Hb H.
  destruct (boundaries_start _ _ _ Hb) as [rest Hrest].
  unfold resegment_single_source in H. rewrite Hb in H. cbn [Np.bind] in H.
  bind_some H. injection H as <-. cbn [rep_info].
  destruct (build_reps_info _ _ _ _ _ _ E) as [Hlen Hnth].
  assert (Hne : (1 <= length valid_valleys)%nat)
    by (rewrite Hrest; simpl; lia).
  unfold build_last in E0. rewrite length_map in E0.
  destruct (_ <? _)%nat.
  - bind_some E0. injection E0 as <-. cbn [snd]. split.
    + rewrite length_app. cbn [length]. lia.
    + intros k r Hr.
      destruct (Nat.lt_ge_cases k (length (snd p))) as [Hk|Hk].
      * rewrite nth_error_app1 in Hr by exact Hk.
        apply Hnth, rep_entry_rep in Hr. exact Hr.
      * rewrite nth_error_app2 in Hr by exact Hk.
        destruct (k - length (snd p))%nat as [|d] eqn:Ed;
          [|destruct d; discriminate].
        injection Hr as <-. apply rep_entry_rep in E1. rewrite E1.
        do 2 f_equal. lia.
  - injection E0 as <-. cbn [snd]. rewrite app_nil_r. split; [exact Hlen|].
    intros k r Hr. apply Hnth, rep_entry_rep in Hr. exact Hr.
Qed.

Lemma count_le_below_last j vv :
  vv <> [] -> (j < last vv O)%nat -> (count_le j vv <= length vv - 1)%nat.
Proof.
  induction vv as [|b vv IH]; [congruence|]. intros _ Hj.
  rewrite count_le_cons. destruct vv as [|c vv].
  - cbn in Hj. destruct (Nat.leb_spec b j); [lia|]. cbn. lia.
  - change (last (b :: c :: vv) O) with (last (c :: vv) O) in Hj.
    specialize (IH ltac:(discriminate) Hj). cbn [length] in *.
    destruct (b <=? j)%nat; lia.
Qed.

Lemma count_le_length j vv : (count_le j vv <= length vv)%nat.
Proof. unfold count_le. apply filter_length_le. Qed.

Lemma rep_column_range (df : dataframe) (min_ms max_ms : Q)
    (out : segmentation) :
  resegment_single_source df min_ms max_ms = Some out ->
  length (rep_column out) = length (rows df) /\
  Forall (fun z => (0 <= z <= Z.of_nat (length (rep_info out)))%Z)
         (rep_column out).
Proof.
  intros H.
  assert (Hb : exists vv log, boundaries df min_ms max_ms = Some (vv, log)).
  { unfold resegment_single_source in H. bind_some H. destruct p. eauto. }
  destruct Hb as (vv & log & Hb).
  destruct (@rep_column_nth _ _ _ _ _ _ _ Hb H) as [Hlen Hnth].
  destruct (@rep_info_numbers _ _ _ _ _ _ Hb H) as [Hinfo _].
  destruct (boundaries_well_formed _ _ _ Hb) as (Hn & Hhd & Hs & Hall).
  assert (Hvv : vv <> []) by (destruct vv; discriminate).
  assert (Hl : (last vv O < length (rows df))%nat).
  { rewrite Forall_forall in Hall. apply Hall, last_in, Hvv. }
  split; [exact Hlen|].
  apply Forall_forall. intros z Hz.
  apply In_nth_error in Hz as [j Hj].
  assert (Hjn : (j < length (rows df))%nat).
  { rewrite <- Hlen. apply nth_error_Some. congruence. }
  rewrite (Hnth j Hjn) in Hj. injection Hj as <-. rewrite Hinfo.
  pose proof (count_le_length j vv).
  destruct (Nat.eqb_spec j (length (rows df) - 1)),
           (Nat.eqb_spec (last vv O) (length (rows df) - 1)),
           (Nat.ltb_spec (last vv O) (length (rows df) - 1));
    cbn [andb]; try lia.
  assert (count_le j vv <= length vv - 1)%nat; [|lia].
  apply count_le_below_last; [exact Hvv|lia].
Qed.

Lemma assoc_offset_rep off (r : metrics) q :
  assoc "rep" r = Some q ->
  assoc "rep" (offset_rep off r) = Some (q + Np.of_nat off).
Proof.
  unfold offset_rep. induction r as [|[k v] r IH]; [discriminate|].
  cbn [assoc map fst snd]. destruct (String.eqb k "rep") eqn:Ek.
  - intros [= ->]. cbn [assoc]. rewrite Ek. reflexivity.
  - intros H. cbn [assoc]. rewrite Ek. apply IH, H.
Qed.

Lemma of_nat_add a b : Np.of_nat a + Np.of_nat b == Np.of_nat (a + b).
Proof.
  unfold Np.of_nat. rewrite Nat2Z.inj_add, inject_Z_plus. reflexivity.
Qed.

Lemma resegment_sources_spec tagged mn mx : forall sources off parts,
  resegment_sources tagged mn mx sources off = Some parts ->
  length parts = length sources /\
  (forall k r, nth_error (concat (map snd parts)) k = Some r ->
     exists q, assoc "rep" r = Some q /\ q == Np.of_nat (S (off + k))) /\
  length (concat (map fst parts)) =
    list_sum (map (fun s => length (rows (rows_of_source tagged s))) sources) /\
  Forall (fun z => (0 <= z <=
                    Z.of_nat (off + length (concat (map snd parts))))%Z)
         (concat (map fst parts)).
Proof.
  induction sources as [|s sources IH]; intros off parts H.
  - injection H as <-. cbn. repeat split; try constructor.
    intros [|k] r; discriminate.
  - cbn [resegment_sources] in H. bind_some H. injection H as <-.
    destruct (IH _ _ E0) as (Hlen & Hnum & Hcol & Hrange).
    destruct (@rep_column_range _ _ _ _ E) as [Hclen Hcrange].
    assert (Hb : exists vv log,
              boundaries (rows_of_source tagged s) mn mx = Some (vv, log)).
    { unfold resegment_single_source in E. bind_some E. destruct p. eauto. }
    destruct Hb as (vv & log & Hb).
    destruct (@rep_info_numbers _ _ _ _ _ _ Hb E) as [_ Hsnum].
    set (shifted := if (0 <? off)%nat then _ else _).
    assert (Hsh1 : length (snd shifted) = length (rep_info s0))
      by (unfold shifted; destruct (0 <? off)%nat; cbn [snd];
          [apply length_map|reflexivity]).
    assert (Hsh2 : length (fst shifted) = length (rows (rows_of_source tagged s)))
      by (unfold shifted; destruct (0 <? off)%nat; cbn [fst];
          [rewrite length_map|]; exact Hclen).
    assert (Hsh3 : forall k r, nth_error (snd shifted) k = Some r ->
              exists q, assoc "rep" r = Some q /\ q == Np.of_nat (S (off + k))).
    { intros k r Hr. unfold shifted in Hr.
      destruct (Nat.ltb_spec 0 off) as [Hoff|Hoff]; cbn [snd] in Hr.
      - rewrite nth_error_map in Hr.
        destruct (nth_error (rep_info s0) k) as [r0|] eqn:Er; [|discriminate].
        injection Hr as <-. apply Hsnum in Er.
        eexists. split; [apply assoc_offset_rep, Er|].
        rewrite of_nat_add. replace (S k + off)%nat with (S (off + k)) by lia.
        reflexivity.
      - apply Hsnum in Hr. eexists. split; [exact Hr|].
        replace off with O by lia. reflexivity. }
    assert (Hsh4 : Forall (fun z => (0 <= z <=
                      Z.of_nat (off + length (rep_info s0)))%Z) (fst shifted)).
    { unfold shifted. destruct (Nat.ltb_spec 0 off) as [Hoff|Hoff]; cbn [fst].
      - apply Forall_map. eapply Forall_impl; [|exact Hcrange].
        cbn beta. intros z Hz. lia.
      - eapply Forall_impl; [|exact Hcrange]. cbn beta. intros z Hz. lia. }
    cbn [map concat length fst snd]. rewrite list_sum_cons.
    repeat match goal with |- _ /\ _ => split end.
    + lia.
    + intros k r Hr.
      destruct (Nat.lt_ge_cases k (length (snd shifted))) as [Hk|Hk].
      * rewrite nth_error_app1 in Hr by exact Hk. apply Hsh3, Hr.
      * rewrite nth_error_app2 in Hr by exact Hk.
        destruct (Hnum _ _ Hr) as (q & Hq & Hq').
        exists q. split; [exact Hq|]. rewrite Hq'.
        replace (S (off + length (rep_info s0) + (k - length (snd shifted))))
          with (S (off + k)) by lia.
        reflexivity.
    + rewrite length_app, Hsh2, Hcol. reflexivity.
    + apply Forall_app. split.
      * eapply Forall_impl; [|exact Hsh4]. cbn beta. intros z Hz.
        rewrite length_app. lia.
      * eapply Forall_impl; [|exact Hrange]. cbn beta. intros z Hz.
        rewrite length_app, Hsh1. lia.
Qed.

(** *** Grouping rows by source covers every row once *)

Lemma unique_in names x : In x (unique names) <-> In x names.
Proof.
  induction names as [|y names IH]; [reflexivity|]. cbn [unique In].
  rewrite filter_In, IH. split.
  - intros [H|[H _]]; auto.
  - intros [H|H]; [auto|].
    destruct (String.eqb y x) eqn:E.
    + apply String.eqb_eq in E. auto.
    + right. split; [exact H|reflexivity].
Qed.

Lemma unique_nodup names : NoDup (unique names).
Proof.
  induction names as [|y names IH]; [constructor|]. cbn [unique].
  constructor.
  - rewrite filter_In. intros [_ H]. rewrite String.eqb_refl in H. discriminate.
  - apply NoDup_filter, IH.
Qed.

Lemma indicator_sum (x : string) (ks : list string) :
  NoDup ks ->
  list_sum (map (fun s => if String.eqb x s then 1 else 0)%nat ks) =
  (if existsb (String.eqb x) ks then 1 else 0)%nat.
Proof.
  induction 1 as [|k ks Hk _ IH]; [reflexivity|].
  cbn [map existsb]. rewrite list_sum_cons, IH.
  destruct (String.eqb x k) eqn:E; [|reflexivity].
  apply String.eqb_eq in E. subst k. cbn [orb].
  destruct (existsb (String.eqb x) ks) eqn:Ex; [|reflexivity].
  apply existsb_exists in Ex as (y & Hy & Exy).
  apply String.eqb_eq in Exy. subst y. contradiction.
Qed.

Lemma rows_by_source_length (tagged : list (string * sample)) (ks : list string) :
  NoDup ks -> (forall r, In r tagged -> In (fst r) ks) ->
  list_sum (map (fun s => length (rows (rows_of_source tagged s))) ks) =
  length tagged.
Proof.
  intros Hnd. induction tagged as [|r tagged IH]; intros Hcover.
  - clear Hnd Hcover. induction ks as [|k ks IHk]; [reflexivity|].
    cbn [map]. rewrite list_sum_cons, IHk. reflexivity.
  - assert (Hsplit : forall s,
      length (rows (rows_of_source (r :: tagged) s)) =
      ((if String.eqb (fst r) s then 1 else 0) +
       length (rows (rows_of_source tagged s)))%nat).
    { intros s. cbn [rows_of_source rows filter].
      destruct (String.eqb (fst r) s); reflexivity. }
    erewrite map_ext by (intros s; apply Hsplit).
    assert (Hsum : forall (f g : string -> nat) l,
              list_sum (map (fun s => (f s + g s)%nat) l) =
              (list_sum (map f l) + list_sum (map g l))%nat).
    { intros f g l. induction l as [|a l IHl]; [reflexivity|].
      cbn [map]. rewrite !list_sum_cons, IHl. lia. }
    rewrite Hsum, (indicator_sum _ Hnd), IH.
    + assert (Hex : existsb (String.eqb (fst r)) ks = true).
      { apply existsb_exists. exists (fst r). split.
        - apply Hcover. left. reflexivity.
        - apply String.eqb_refl. }
      rewrite Hex. reflexivity.
    + intros r' Hr'. apply Hcover. right. exact Hr'.
Qed.

(** X19.  When the rows of several source files are segmented together,
    the reps of the merged [rep_info] are numbered 1, 2, 3, ... across the
    files, in the order in which the files first appear; the merged rep
    column has one label for every input row, and every label lies
    between 0 and the total number of reps. *)
Theorem resegment_reps_numbers_across_sources
    (tagged_rows : list (string * sample)) (min_ms max_ms : Q)
    (rep_col : list Z) (all_rep_info : list metrics) :
  resegment_reps (WithSourceFile tagged_rows) min_ms max_ms =
    Some (rep_col, all_rep_info) ->
  (forall k r, nth_error all_rep_info k = Some r ->
     exists q, assoc "rep" r = Some q /\ q == Np.of_nat (S k)) /\
  length rep_col = length tagged_rows /\
  Forall (fun z => (0 <= z <= Z.of_nat (length all_rep_info))%Z) rep_col.
Proof.
  unfold resegment_reps. intros H. bind_some H.
  destruct l as [|p l']; [discriminate|]. injection H as <- <-.
  destruct (resegment_sources_spec _ _ _ _ _ E) as (_ & Hnum & Hlen & Hrange).
  split; [exact Hnum|]. split; [|exact Hrange].
  etransitivity; [exact Hlen|]. apply rows_by_source_length.
  - apply unique_nodup.
  - intros r Hr. apply unique_in, in_map, Hr.
Qed.

Lemma filter_idem {A : Type} (f : A -> bool) l :
  filter f (filter f l) = filter f l.
Proof.
  induction l as [|x l IH]; [reflexivity|]. cbn [filter].
  destruct (f x) eqn:E; cbn [filter]; rewrite ?E, IH; reflexivity.
Qed.

Lemma unique_repeat_app s n l :
  (1 <= n)%nat ->
  unique (repeat s n ++ l) =
  s :: filter (fun y => negb (String.eqb s y)) (unique l).
Proof.
  induction n as [|[|n] IH]; intros Hn; [lia|reflexivity|].
  change (repeat s (S (S n)) ++ l) with (s :: (repeat s (S n) ++ l)).
  cbn [unique]. rewrite IH by lia. cbn [filter].
  rewrite String.eqb_refl. cbn [negb]. f_equal. apply filter_idem.
Qed.

Lemma map_fst_pair (s : string) (rs : list sample) :
  map fst (map (pair s) rs) = repeat s (length rs).
Proof. induction rs as [|r rs IH]; [reflexivity|]. cbn. now rewrite IH. Qed.

Lemma filter_tagged_same (s : string) (rs : list sample) :
  filter (fun r => String.eqb (fst r) s) (map (pair s) rs) = map (pair s) rs.
Proof.
  induction rs as [|r rs IH]; [reflexivity|]. cbn [map filter fst].
  rewrite String.eqb_refl, IH. reflexivity.
Qed.

Lemma filter_tagged_other (s s' : string) (rs : list sample) :
  s <> s' ->
  filter (fun r => String.eqb (fst r) s') (map (pair s) rs) = [].
Proof.
  intros Hs. induction rs as [|r rs IH]; [reflexivity|]. cbn [map filter fst].
  destruct (String.eqb s s') eqn:E; [apply String.eqb_eq in E; contradiction|].
  exact IH.
Qed.

Lemma map_snd_pair (s : string) (rs : list sample) :
  map snd (map (pair s) rs) = rs.
Proof. induction rs as [|r rs IH]; [reflexivity|]. cbn. now rewrite IH. Qed.

(** X20.  For two recordings stored one after the other, the merged
    result is the segmentation of the first recording followed by that of
    the second with every rep number, in [rep_info] and in the rep column,
    raised by the number of reps of the first.  A sample that the second
    recording leaves unlabelled (label 0) therefore carries the number of
    the last rep of the first recording in the merged column. *)
Theorem resegment_reps_two_sources (s1 s2 : string)
    (rows1 rows2 : list sample) (min_ms max_ms : Q) (out1 out2 : segmentation) :
  s1 <> s2 -> rows1 <> [] -> rows2 <> [] ->
  resegment_single_source {| source_file := Some s1; rows := rows1 |}
    min_ms max_ms = Some out1 ->
  resegment_single_source {| source_file := Some s2; rows := rows2 |}
    min_ms max_ms = Some out2 ->
  rep_info out1 <> [] ->
  let k1 := length (rep_info out1) in
  let merged := map (pair s1) rows1 ++ map (pair s2) rows2 in
  resegment_reps (WithSourceFile merged) min_ms max_ms =
    Some (rep_column out1 ++ map (fun r => (r + Z.of_nat k1)%Z) (rep_column out2),
          rep_info out1 ++ map (offset_rep k1) (rep_info out2)) /\
  (forall j, nth_error (rep_column out2) j = Some 0%Z ->
     nth_error (rep_column out1 ++
                map (fun r => (r + Z.of_nat k1)%Z) (rep_column out2))
               (length rows1 + j) = Some (Z.of_nat k1)).
Proof.
  intros Hs Hr1 Hr2 H1 H2 Hk k1 merged.
  assert (Hu : unique (map fst merged) = [s1; s2]).
  { unfold merged. rewrite map_app, !map_fst_pair.
    rewrite unique_repeat_app
      by (destruct rows1; [congruence|simpl; lia]).
    rewrite <- (app_nil_r (repeat s2 (length rows2))).
    rewrite unique_repeat_app
      by (destruct rows2; [congruence|simpl; lia]).
    cbn [unique filter].
    destruct (String.eqb s1 s2) eqn:E; [apply String.eqb_eq in E; contradiction|].
    reflexivity. }
  assert (Hd1 : rows_of_source merged s1 =
                {| source_file := Some s1; rows := rows1 |}).
  { unfold rows_of_source, merged. rewrite filter_app, filter_tagged_same.
    rewrite filter_tagged_other by congruence.
    rewrite app_nil_r, map_snd_pair. reflexivity. }
  assert (Hd2 : rows_of_source merged s2 =
                {| source_file := Some s2; rows := rows2 |}).
  { unfold rows_of_source, merged. rewrite filter_app, filter_tagged_same.
    rewrite filter_tagged_other by exact Hs.
    cbn [app]. rewrite map_snd_pair. reflexivity. }
  assert (Hpos : (0 <? 0 + k1)%nat = true).
  { apply Nat.ltb_lt. unfold k1. destruct (rep_info out1); [congruence|simpl; lia]. }
  split.
  - unfold resegment_reps. rewrite Hu. cbn [resegment_sources].
    rewrite Hd1, H1. cbn [Np.bind]. rewrite Hd2, H2. cbn [Np.bind].
    fold k1. rewrite Hpos. cbn [Nat.ltb Nat.leb map concat fst snd Nat.add].
    rewrite !app_nil_r. reflexivity.
  - intros j Hj.
    assert (Hlen : length (rep_column out1) = length rows1)
      by (apply (@rep_column_range _ _ _ _ H1)).
    rewrite nth_error_app2 by lia.
    replace (length rows1 + j - length (rep_column out1))%nat with j by lia.
    rewrite nth_error_map, Hj. reflexivity.
Qed.

End MoreSources.

Lemma resegment_reps_numbers_across_sources_witness :
  exists rep_col all_rep_info,
    resegment_reps (WithSourceFile two_recordings) 800 8000 =
      Some (rep_col, all_rep_info) /\
    length rep_col = 19%nat.
Proof.
  destruct (resegment_reps (WithSourceFile two_recordings) 800 8000)
    as [[rep_col all_rep_info]|] eqn:E; [|vm_compute in E; discriminate].
  exists rep_col, all_rep_info. split; [reflexivity|].
  apply (@resegment_reps_numbers_across_sources RefScipy two_recordings
           800 8000 rep_col all_rep_info E).
Defined.

Lemma resegment_reps_two_sources_witness :
  exists rep_col all_rep_info,
    resegment_reps (WithSourceFile two_recordings) 800 8000 =
      Some (rep_col, all_rep_info) /\
    nth_error rep_col 18 = Some 2%Z.
Proof.
  destruct (resegment_single_source
              {| source_file := Some "first.csv";
                 rows := rows two_valley_session |} 800 8000)
    as [out1|] eqn:E1; [|vm_compute in E1; discriminate].
  destruct (resegment_single_source
              {| source_file := Some "second.csv";
                 rows := rows flat_labelled_session |} 800 8000)
    as [out2|] eqn:E2; [|vm_compute in E2; discriminate].
  assert (Hk : rep_info out1 <> []).
  { intros Hnil. vm_compute in E1. injection E1 as <-. discriminate Hnil. }
  assert (Hk1 : length (rep_info out1) = 2%nat).
  { vm_compute in E1. injection E1 as <-. reflexivity. }
  assert (Hz : nth_error (rep_column out2) 7 = Some 0%Z).
  { vm_compute in E2. injection E2 as <-. reflexivity. }
  destruct (@resegment_reps_two_sources RefScipy "first.csv" "second.csv"
              (rows two_valley_session) (rows flat_labelled_session)
              800 8000 out1 out2) as [Hm Hl];
    [discriminate|discriminate|discriminate|exact E1|exact E2|exact Hk|].
  cbv zeta in Hm, Hl. specialize (Hl 7%nat Hz). rewrite Hk1 in Hm, Hl.
  do 2 eexists. split; [exact Hm|exact Hl].
Defined.
(** ** The fatigue score grows with the indicators *)

Section MoreComposite.

Lemma Qmax_mono a b a' b' : a <= a' -> b <= b' -> Qmax a b <= Qmax a' b'.
Proof. intros. max_min_cases; lra. Qed.

Lemma composite_spec_monotone D T J S D' T' J' S' :
  D <= D' -> T <= T' -> J <= J' -> S <= S' ->
  composite_spec D T J S <= composite_spec D' T' J' S'.
Proof.
  intros HD HT HJ HS. unfold composite_spec.
  pose proof (@Qmax_mono 0 D 0 D' ltac:(lra) HD) as Hd.
  pose proof (@Qmax_mono 0 T 0 T' ltac:(lra) HT) as Ht.
  pose proof (@Qmax_mono 0 J 0 J' ltac:(lra) HJ) as Hj.
  pose proof (@Qmax_mono 0 S 0 S' ltac:(lra) HS) as Hs.
  assert (Hd0 : 0 <= Qmax 0 D) by apply Q.le_max_l.
  assert (Ht0 : 0 <= Qmax 0 T) by apply Q.le_max_l.
  assert (Hj0 : 0 <= Qmax 0 J) by apply Q.le_max_l.
  assert (Hs0 : 0 <= Qmax 0 S) by apply Q.le_max_l.
  revert Hd Ht Hj Hs Hd0 Ht0 Hj0 Hs0.
  generalize (Qmax 0 D) (Qmax 0 T) (Qmax 0 J) (Qmax 0 S)
             (Qmax 0 D') (Qmax 0 T') (Qmax 0 J') (Qmax 0 S').
  intros d t j s d' t' j' s' Hd Ht Hj Hs Hd0 Ht0 Hj0 Hs0.
  pose proof (Qmax_mono (Qmax_mono Hd Ht) (Qmax_mono Hj Hs)) as Hw.
  assert (Hub : 0.35 * d + 0.25 * t + 0.20 * j + 0.20 * s <=
                Qmax (Qmax d t) (Qmax j s)).
  { clear - Hd0 Ht0 Hj0 Hs0. max_min_cases; lra. }
  revert Hw Hub.
  generalize (Qmax (Qmax d t) (Qmax j s)) (Qmax (Qmax d' t') (Qmax j' s')).
  intros w w' Hw Hub.
  destruct (Qlt_le_dec 0.40 w), (Qlt_le_dec 0.40 w'); max_min_cases; lra.
Qed.

(** X21.  The fatigue score never goes down when no indicator goes down:
    a session whose four indicators are at least those of another session
    has at least its fatigue score, and stays below none of the thresholds
    10, 20, 35 and 55 that the other session reaches, so that its fatigue
    level is the same or a more severe one. *)
Theorem fatigue_score_monotone (l l' : list metrics) :
  D_omega l <= D_omega l' -> I_T l <= I_T l' ->
  I_J l <= I_J l' -> I_S l <= I_S l' ->
  fatigue_score l <= fatigue_score l' /\
  (forall threshold,
     Np.ltb (fatigue_score l') threshold = true ->
     Np.ltb (fatigue_score l) threshold = true) /\
  (fatigue_level l' = "minimal" -> fatigue_level l = "minimal") /\
  (fatigue_level l = "severe" -> fatigue_level l' = "severe").
Proof.
  intros HD HT HJ HS.
  assert (Hle : fatigue_score l <= fatigue_score l').
  { rewrite !fatigue_score_spec. unfold clamp.
    pose proof (composite_spec_monotone HD HT HJ HS) as Hc. revert Hc.
    generalize (composite_spec (D_omega l) (I_T l) (I_J l) (I_S l))
               (composite_spec (D_omega l') (I_T l') (I_J l') (I_S l')).
    intros c c' Hc. max_min_cases; lra. }
  split; [exact Hle|]. split.
  { intros th H. apply ltb_true in H. apply ltb_true. lra. }
  rewrite !fatigue_level_spec. unfold level_spec. revert Hle.
  generalize (fatigue_score l) (fatigue_score l'). intros x y Hxy.
  split.
  - destruct (Qlt_le_dec y 10);
      [|repeat destruct (Qlt_le_dec y _); discriminate].
    intros _. destruct (Qlt_le_dec x 10); [reflexivity|lra].
  - repeat destruct (Qlt_le_dec x _); try discriminate. intros _.
    repeat destruct (Qlt_le_dec y _); try reflexivity; lra.
Qed.

End MoreComposite.

Lemma fatigue_score_monotone_witness :
  fatigue_score (repeat (rep_of_duration 1000) 3) <= fatigue_score slowing_session.
Proof.
  apply (proj1 (@fatigue_score_monotone (repeat (rep_of_duration 1000) 3)
                  slowing_session
                  ltac:(vm_compute; discriminate) ltac:(vm_compute; discriminate)
                  ltac:(vm_compute; discriminate) ltac:(vm_compute; discriminate))).
Defined.
(** ** The smoothness score of [main_csv.py] *)

Section MoreSmoothness.
Context {lib : Scipy}.

Lemma py_max0_nonneg x : 0 <= Np.py_max 0 x.
Proof. unfold Np.py_max. destruct (Qlt_le_dec 0 x); lra. Qed.

Lemma py_max0_share t : 0 <= t -> Np.py_max 0 (1 - t) <= 1.
Proof. intros H. unfold Np.py_max. destruct (Qlt_le_dec 0 (1 - t)); lra. Qed.

Lemma py_max0_full t : t == 0 -> Np.py_max 0 (1 - t) == 1.
Proof. intros H. unfold Np.py_max. destruct (Qlt_le_dec 0 (1 - t)); lra. Qed.

Lemma Qdiv_nonneg a b : 0 <= a -> 0 <= b -> 0 <= a / b.
Proof.
  intros Ha Hb. destruct (Qeq_dec b 0) as [E|E].
  - rewrite E. unfold Qdiv. change (/ 0) with 0. lra.
  - apply Qle_shift_div_l; lra.
Qed.

Lemma of_nat_nonneg n : 0 <= Np.of_nat n.
Proof.
  unfold Np.of_nat. change 0 with (inject_Z 0). rewrite <- Zle_Qle. lia.
Qed.

Lemma np_mean_abs_nonneg l : 0 <= Np.np_mean (map Qabs l).
Proof.
  unfold Np.np_mean. apply Qdiv_nonneg; [|apply of_nat_nonneg].
  assert (Hall : Forall (fun x => 0 <= x) (map Qabs l)).
  { apply Forall_forall. intros y Hy.
    apply in_map_iff in Hy as (x & <- & _). apply Qabs_nonneg. }
  exact (proj1 (np_sum_ge_member Hall)).
Qed.

Lemma smoothness_of_bounds (primary_signal : list Q) (all_peaks : list nat) :
  primary_signal <> [] ->
  exists f,
    MainCsv.smoothness_of primary_signal all_peaks = Some f /\
    0 <= MainCsv.smoothness_score f /\
    (0 <= MainCsv.excess_peaks f)%Z /\
    ((forall x, 0 <= np_sqrt x) ->
     MainCsv.smoothness_score f <= 100 /\
     0 <= MainCsv.normalized_jerk f /\
     0 <= MainCsv.jerk_variability f).
Proof.
  intros Hne. unfold MainCsv.smoothness_of.
  destruct primary_signal as [|x0 xs] eqn:Esig; [congruence|].
  rewrite <- Esig.
  assert (Hn : (1 <= length primary_signal)%nat) by (rewrite Esig; simpl; lia).
  destruct (Np.np_max primary_signal) as [hi|] eqn:Ehi;
    [|rewrite Esig in Ehi; discriminate].
  destruct (Np.np_min primary_signal) as [lo|] eqn:Elo;
    [|rewrite Esig in Elo; discriminate].
  cbn [Np.bind].
  eexists. split; [reflexivity|].
  cbn [MainCsv.smoothness_score MainCsv.excess_peaks MainCsv.normalized_jerk
       MainCsv.jerk_variability].
  set (jerk := Np.np_diff primary_signal).
  set (nj := if Np.gtb (hi - lo) 0 && _ then _ else 0).
  set (std := if (0 <? length jerk)%nat then np_std jerk else 0).
  set (mean := if (0 <? length jerk)%nat
               then Np.np_mean (map Qabs jerk) else 0).
  set (jsc := if (1 <? length jerk)%nat then _ else O).
  set (ex := Z.max 0 (Z.of_nat (length all_peaks) - 2)).
  set (ec := Np.py_max 0 (Np.of_nat jsc - Np.of_nat (length primary_signal) / 25)).
  set (jc := Np.py_max 0 (1 - nj / 0.5)).
  set (pc := Np.py_max 0 (1 - inject_Z ex / 5)).
  set (dc := Np.py_max 0 (1 - ec / (Np.of_nat (length primary_signal) / 5))).
  set (jv := Np.py_max 0 (1 - std / (mean + 0.000001) / 3)).
  pose proof (py_max0_nonneg (1 - nj / 0.5)) as Hjc. fold jc in Hjc.
  pose proof (py_max0_nonneg (1 - inject_Z ex / 5)) as Hpc. fold pc in Hpc.
  pose proof (py_max0_nonneg
                (1 - ec / (Np.of_nat (length primary_signal) / 5))) as Hdc.
  fold dc in Hdc.
  pose proof (py_max0_nonneg (1 - std / (mean + 0.000001) / 3)) as Hjv.
  fold jv in Hjv.
  split; [lra|]. split; [unfold ex; lia|].
  intros Hsqrt.
  assert (Hnj : 0 <= nj).
  { unfold nj. destruct (Np.gtb (hi - lo) 0) eqn:G; cbn [andb]; [|lra].
    destruct (0 <? _)%Z; [|lra]. apply gtb_true in G.
    apply Qdiv_nonneg; [apply Hsqrt|lra]. }
  assert (Hstd : 0 <= std).
  { unfold std. destruct (0 <? length jerk)%nat; [apply Hsqrt|lra]. }
  assert (Hmean : 0 <= mean).
  { unfold mean. destruct (0 <? length jerk)%nat;
      [apply np_mean_abs_nonneg|lra]. }
  assert (Hcv : 0 <= std / (mean + 0.000001))
    by (apply Qdiv_nonneg; lra).
  assert (Hex : 0 <= inject_Z ex).
  { change 0 with (inject_Z 0). rewrite <- Zle_Qle. unfold ex. lia. }
  assert (Hlen : 0 < Np.of_nat (length primary_signal))
    by (apply of_nat_pos; exact Hn).
  assert (Hec : 0 <= ec) by apply py_max0_nonneg.
  assert (Hjc1 : jc <= 1).
  { apply py_max0_share. apply Qdiv_nonneg; lra. }
  assert (Hpc1 : pc <= 1).
  { apply py_max0_share. apply Qdiv_nonneg; lra. }
  assert (Hdc1 : dc <= 1).
  { apply py_max0_share. apply Qdiv_nonneg; [exact Hec|].
    apply Qdiv_nonneg; lra. }
  assert (Hjv1 : jv <= 1).
  { apply py_max0_share. apply Qdiv_nonneg; lra. }
  repeat split; try assumption. lra.
Qed.

(** *** A rep that does not move *)

Lemma fold_max_repeat c k :
  fold_left (fun m y => if Qlt_le_dec m y then y else m) (repeat c k) c = c.
Proof.
  induction k as [|k IH]; [reflexivity|]. cbn [repeat fold_left].
  destruct (Qlt_le_dec c c); [lra|exact IH].
Qed.

Lemma fold_min_repeat c k :
  fold_left (fun m y => if Qlt_le_dec y m then y else m) (repeat c k) c = c.
Proof.
  induction k as [|k IH]; [reflexivity|]. cbn [repeat fold_left].
  destruct (Qlt_le_dec c c); [lra|exact IH].
Qed.

Lemma np_max_repeat c k : Np.np_max (repeat c (S k)) = Some c.
Proof. cbn [repeat Np.np_max]. now rewrite fold_max_repeat. Qed.

Lemma np_min_repeat c k : Np.np_min (repeat c (S k)) = Some c.
Proof. cbn [repeat Np.np_min]. now rewrite fold_min_repeat. Qed.

Lemma np_diff_repeat c k : Np.np_diff (repeat c (S k)) = repeat (c - c) k.
Proof.
  induction k as [|k IH]; [reflexivity|].
  change (Np.np_diff (c :: c :: repeat c k) = (c - c) :: repeat (c - c) k).
  change (Np.np_diff (c :: c :: repeat c k))
    with ((c - c) :: Np.np_diff (c :: repeat c k)).
  f_equal. exact IH.
Qed.

Lemma count_nonzero_repeat z k : z == 0 -> Np.count_nonzero (repeat z k) = O.
Proof.
  intros Hz. unfold Np.count_nonzero.
  induction k as [|k IH]; [reflexivity|]. cbn [repeat filter].
  assert (E : Qeq_bool z 0 = true) by (apply Qeq_bool_iff; exact Hz).
  rewrite E. exact IH.
Qed.

Lemma np_sign_zero z : z == 0 -> Np.np_sign z = 0.
Proof.
  intros Hz. unfold Np.np_sign.
  destruct (Qlt_le_dec 0 z); [lra|]. destruct (Qlt_le_dec z 0); [lra|].
  reflexivity.
Qed.

Lemma smoothness_of_steady (c : Q) (n : nat) (all_peaks : list nat) f :
  (1 <= n)%nat -> (length all_peaks <= 2)%nat ->
  MainCsv.smoothness_of (repeat c n) all_peaks = Some f ->
  MainCsv.smoothness_score f == 100 /\
  MainCsv.normalized_jerk f = 0 /\
  MainCsv.num_direction_changes f = O.
Proof.
  intros Hn Hp. destruct n as [|k]; [lia|].
  unfold MainCsv.smoothness_of.
  rewrite np_max_repeat, np_min_repeat. cbn [Np.bind].
  rewrite np_diff_repeat, !repeat_length.
  assert (Hcc : c - c == 0) by ring.
  assert (G : Np.gtb (c - c) 0 = false) by (apply gtb_false; lra).
  rewrite G. cbn [andb].
  assert (Hjsc : (if (1 <? k)%nat
                  then Np.count_nonzero
                         (Np.np_diff (map Np.np_sign (repeat (c - c) k)))
                  else O) = O).
  { destruct (1 <? k)%nat; [|reflexivity].
    rewrite map_repeat, (np_sign_zero Hcc).
    destruct k as [|k']; [reflexivity|].
    rewrite np_diff_repeat. apply count_nonzero_repeat. ring. }
  rewrite Hjsc.
  assert (Hstd : (if (0 <? k)%nat then np_std (repeat (c - c) k) else 0) == 0).
  { destruct (Nat.ltb_spec 0 k); [|reflexivity].
    apply np_std_repeat. lia. }
  revert Hstd.
  generalize (if (0 <? k)%nat then np_std (repeat (c - c) k) else 0).
  intros std Hstd.
  generalize (if (0 <? k)%nat
              then Np.np_mean (map Qabs (repeat (c - c) k)) else 0).
  intros mean.
  intros [= <-].
  cbn [MainCsv.smoothness_score MainCsv.normalized_jerk
       MainCsv.num_direction_changes].
  split; [|split; reflexivity].
  assert (Hex : Z.max 0 (Z.of_nat (length all_peaks) - 2) = 0%Z) by lia.
  rewrite Hex.
  assert (Hec : Np.py_max 0 (Np.of_nat 0 - Np.of_nat (S k) / 25) == 0).
  { pose proof (of_nat_nonneg (S k)) as Hk.
    unfold Np.py_max. destruct (Qlt_le_dec 0 _) as [H|H]; [|reflexivity].
    exfalso. revert H. unfold Qdiv. change (/ 25) with (1 # 25).
    change (Np.of_nat 0) with 0. lra. }
  rewrite (py_max0_full (t := 0 / 0.5)) by reflexivity.
  rewrite (py_max0_full (t := inject_Z 0 / 5)) by reflexivity.
  rewrite (py_max0_full
             (t := Np.py_max 0 (Np.of_nat 0 - Np.of_nat (S k) / 25) /
                   (Np.of_nat (S k) / 5)))
    by (rewrite Hec; unfold Qdiv; ring).
  rewrite (py_max0_full (t := std / (mean + 0.000001) / 3))
    by (rewrite Hstd; unfold Qdiv; ring).
  reflexivity.
Qed.

(** X22.  For every non-empty rep the smoothness block returns a score
    that is not negative, and at most 100 when the square root of the
    library is never negative; the normalized jerk and the jerk
    variability are then not negative either.  A rep whose primary signal
    does not move, with at most two detected peaks, has no direction
    change, normalized jerk 0 and the full score of 100. *)
Theorem smoothness_score_bounds (rep_data : list MainCsv.imu_sample) :
  rep_data <> [] ->
  (exists f,
     MainCsv.extract_smoothness_features rep_data = Some f /\
     0 <= MainCsv.smoothness_score f /\
     (0 <= MainCsv.excess_peaks f)%Z /\
     ((forall x, 0 <= np_sqrt x) ->
      MainCsv.smoothness_score f <= 100 /\
      0 <= MainCsv.normalized_jerk f /\
      0 <= MainCsv.jerk_variability f)) /\
  (forall c n all_peaks f,
     (1 <= n)%nat -> (length all_peaks <= 2)%nat ->
     MainCsv.smoothness_of (repeat c n) all_peaks = Some f ->
     MainCsv.smoothness_score f == 100 /\
     MainCsv.normalized_jerk f = 0 /\
     MainCsv.num_direction_changes f = O).
Proof.
  intros Hne. split; [|intros c n all_peaks f; apply smoothness_of_steady].
  unfold MainCsv.extract_smoothness_features.
  destruct (axis_range_defined MainCsv.X Hne) as [rx ->].
  destruct (axis_range_defined MainCsv.Y Hne) as [ry ->].
  destruct (axis_range_defined MainCsv.Z Hne) as [rz ->].
  cbn [Np.bind].
  set (sig := MainCsv.axis_signal rep_data (MainCsv.primary_axis_of rx ry rz)).
  destruct (all_peaks_of_spec sig) as [-> _]. cbn [Np.bind].
  apply smoothness_of_bounds.
  intros E. apply (f_equal (@length Q)) in E. unfold sig in E.
  rewrite axis_signal_length in E. destruct rep_data; [congruence|discriminate].
Qed.

End MoreSmoothness.

Lemma smoothness_score_bounds_witness :
  exists f, MainCsv.extract_smoothness_features low_bump_rep = Some f /\
            0 <= MainCsv.smoothness_score f.
Proof.
  destruct (proj1 (@smoothness_score_bounds RefScipy low_bump_rep
                     ltac:(discriminate)))
    as (f & Hf & H0 & _).
  exists f. split; [exact Hf|exact H0].
Defined.
(** ** The reps that a session analysis uses *)

Section MoreSessions.
Context {lib : Scipy}.

Lemma compute_range_of_motion_defined (signal : list Q) (name : string) :
  exists d rom,
    compute_range_of_motion signal name = Some d /\
    assoc "rom" d = Some rom /\ 0 <= rom /\
    assoc "rom_degrees" d = None /\
    assoc "smoothness_score" d = None.
Proof.
  unfold compute_range_of_motion.
  destruct (length signal <? 2)%nat eqn:Hlen.
  - eexists. exists 0. split; [reflexivity|]. cbn.
    repeat split; try reflexivity. lra.
  - apply Nat.ltb_ge in Hlen.
    destruct (Np.np_max signal) as [hi|] eqn:Ehi;
      [|destruct signal; [simpl in Hlen; lia|discriminate]].
    destruct (Np.np_min signal) as [lo|] eqn:Elo;
      [|destruct signal; [simpl in Hlen; lia|discriminate]].
    pose proof (np_min_le_np_max _ Ehi Elo) as Hle. cbn [Np.bind].
    eexists. exists (hi - lo). split; [reflexivity|].
    cbn [assoc String.eqb Ascii.eqb Bool.eqb].
    repeat split; try reflexivity. lra.
Qed.

Lemma insert_z_in x y l : In x (insert_z y l) <-> x = y \/ In x l.
Proof.
  induction l as [|z l IH]; cbn [insert_z In]; [intuition congruence|].
  destruct (y <=? z)%Z; cbn [In]; [intuition congruence|].
  rewrite IH. intuition congruence.
Qed.

Lemma sorted_unique_in k reps :
  In k (SessionAnalysis.sorted_unique reps) <-> In k reps.
Proof.
  unfold SessionAnalysis.sorted_unique.
  assert (H : forall l, In k (fold_right insert_z [] l) <-> In k l).
  { induction l as [|z l IH]; [reflexivity|].
    cbn [fold_right In]. rewrite insert_z_in, IH. intuition congruence. }
  rewrite H. apply nodup_In.
Qed.

Lemma filter_rep_positive (df : list sample) k :
  (0 < k)%Z ->
  filter (fun s => (rep s =? k)%Z) (filter (fun s => (0 <? rep s)%Z) df) =
  filter (fun s => (rep s =? k)%Z) df.
Proof.
  intros Hk. induction df as [|s df IH]; [reflexivity|]. cbn [filter].
  destruct (Z.ltb_spec 0 (rep s)); cbn [filter]; rewrite IH; [reflexivity|].
  destruct (Z.eqb_spec (rep s) k); [lia|reflexivity].
Qed.

Lemma rep_metrics_of_spec (df : list sample) (k : Z) :
  let rep_data := filter (fun s => (rep s =? k)%Z) df in
  ((length rep_data < 3)%nat ->
   SessionAnalysis.rep_metrics_of df k = Some None) /\
  ((3 <= length rep_data)%nat ->
   exists m rom t_first t_last,
     SessionAnalysis.rep_metrics_of df k = Some (Some m) /\
     assoc "rep" m = Some (inject_Z k) /\
     assoc "sample_count" m = Some (Np.of_nat (length rep_data)) /\
     hd_error (map timestamp_ms rep_data) = Some t_first /\
     Np.last_error (map timestamp_ms rep_data) = Some t_last /\
     assoc "duration_ms" m = Some (t_last - t_first) /\
     assoc "rom" m = Some rom /\ 0 <= rom /\
     assoc "rom_degrees" m = None /\
     assoc "smoothness_score" m = None).
Proof.
  intros rep_data. unfold SessionAnalysis.rep_metrics_of. fold rep_data. split.
  - intros H. apply Nat.ltb_lt in H. now rewrite H.
  - intros H. destruct (Nat.ltb_spec (length rep_data) 3) as [|_]; [lia|].
    destruct (map timestamp_ms rep_data) as [|t0 ts] eqn:Ets.
    { apply (f_equal (@length Q)) in Ets. rewrite length_map in Ets.
      simpl in Ets. lia. }
    cbn [Np.last_error hd_error Np.bind].
    destruct (compute_range_of_motion_defined (map filteredMag rep_data)
                "filteredMag") as (d & rom & -> & Hrom & Hpos & Hdeg & Hsm).
    cbn [Np.bind]. eexists. exists rom, t0, (last ts t0).
    split; [reflexivity|].
    cbn [app assoc String.eqb Ascii.eqb Bool.eqb].
    repeat split; try assumption; reflexivity.
Qed.

Lemma rep_metrics_loop_spec (df : list sample) : forall nums,
  exists l,
    SessionAnalysis.rep_metrics_loop df nums = Some l /\
    (forall m, In m l ->
       exists k, In k nums /\
                 SessionAnalysis.rep_metrics_of df k = Some (Some m)) /\
    (forall k m, In k nums ->
       SessionAnalysis.rep_metrics_of df k = Some (Some m) -> In m l).
Proof.
  induction nums as [|k nums (l & Hl & Hin & Hall)].
  - exists []. split; [reflexivity|]. split; [intros m []|intros k m []].
  - cbn [SessionAnalysis.rep_metrics_loop].
    destruct (rep_metrics_of_spec df k) as [Hskip Hkeep]. cbv zeta in Hskip, Hkeep.
    destruct (Nat.lt_ge_cases
                (length (filter (fun s => (rep s =? k)%Z) df)) 3) as [Hlt|Hge].
    + rewrite (Hskip Hlt), Hl. cbn [Np.bind]. exists l. split; [reflexivity|].
      split.
      * intros m Hm. destruct (Hin m Hm) as (k' & Hk' & E).
        exists k'. split; [right; exact Hk'|exact E].
      * intros k' m [<-|Hk'] E; [rewrite (Hskip Hlt) in E; discriminate|].
        eapply Hall; eauto.
    + destruct (Hkeep Hge) as (m & rom & t0 & tl & E & _).
      rewrite E, Hl. cbn [Np.bind]. exists (m :: l). split; [reflexivity|].
      split.
      * intros m' [<-|Hm].
        -- exists k. split; [left; reflexivity|exact E].
        -- destruct (Hin m' Hm) as (k' & Hk' & E').
           exists k'. split; [right; exact Hk'|exact E'].
      * intros k' m' [<-|Hk'] E'.
        -- rewrite E in E'. injection E' as <-. left. reflexivity.
        -- right. eapply Hall; eauto.
Qed.

(** X23.  [analyze_session_data] never raises on a dataframe with the
    columns ['rep'], ['timestamp_ms'] and ['filteredMag'].  It analyses
    exactly the reps whose number is positive and that have at least three
    samples: samples labelled 0 and shorter reps are left out.  Every
    analysed rep records its number, its sample count, the time from its
    first to its last sample and a range of motion that is not negative.
    With fewer than three analysed reps the fatigue analysis is the
    insufficient-data dictionary; no rep has a range of motion in
    degrees. *)
Theorem analyze_session_data_reps (df : list sample) :
  let samples_of k := filter (fun s => (rep s =? k)%Z) df in
  exists r,
    SessionAnalysis.analyze_session_data df = Some r /\
    SessionAnalysis.total_reps (SessionAnalysis.session_summary_of r) =
      length (SessionAnalysis.rep_metrics r) /\
    (forall m, In m (SessionAnalysis.rep_metrics r) ->
       exists k rom t_first t_last,
         (0 < k)%Z /\ (3 <= length (samples_of k))%nat /\
         assoc "rep" m = Some (inject_Z k) /\
         assoc "sample_count" m = Some (Np.of_nat (length (samples_of k))) /\
         hd_error (map timestamp_ms (samples_of k)) = Some t_first /\
         Np.last_error (map timestamp_ms (samples_of k)) = Some t_last /\
         assoc "duration_ms" m = Some (t_last - t_first) /\
         assoc "rom" m = Some rom /\ 0 <= rom) /\
    (forall k, (0 < k)%Z -> (3 <= length (samples_of k))%nat ->
       exists m, In m (SessionAnalysis.rep_metrics r) /\
                 assoc "rep" m = Some (inject_Z k)) /\
    ((length (SessionAnalysis.rep_metrics r) < 3)%nat ->
     SessionAnalysis.fatigue_analysis r =
       insufficient_data (length (SessionAnalysis.rep_metrics r))) /\
    SessionAnalysis.summary_has_rom_degrees
      (SessionAnalysis.session_summary_of r) = false.
Proof.
  intros samples_of. unfold SessionAnalysis.analyze_session_data.
  set (pos := filter (fun s => (0 <? rep s)%Z) df).
  destruct (rep_metrics_loop_spec pos
              (SessionAnalysis.sorted_unique (map rep pos)))
    as (l & -> & Hin & Hall).
  cbn [Np.bind]. eexists. split; [reflexivity|].
  cbn [SessionAnalysis.rep_metrics SessionAnalysis.fatigue_analysis
       SessionAnalysis.session_summary_of SessionAnalysis.total_reps
       SessionAnalysis.summary_has_rom_degrees].
  assert (Hpos : forall k, In k (SessionAnalysis.sorted_unique (map rep pos)) ->
                           (0 < k)%Z).
  { intros k Hk. apply sorted_unique_in, in_map_iff in Hk as (s & <- & Hs).
    unfold pos in Hs. apply filter_In in Hs as [_ Hs].
    apply Z.ltb_lt in Hs. exact Hs. }
  assert (Hentry : forall m, In m l ->
            exists k rom t_first t_last,
              (0 < k)%Z /\ (3 <= length (samples_of k))%nat /\
              assoc "rep" m = Some (inject_Z k) /\
              assoc "sample_count" m = Some (Np.of_nat (length (samples_of k))) /\
              hd_error (map timestamp_ms (samples_of k)) = Some t_first /\
              Np.last_error (map timestamp_ms (samples_of k)) = Some t_last /\
              assoc "duration_ms" m = Some (t_last - t_first) /\
              assoc "rom" m = Some rom /\ 0 <= rom /\
              assoc "rom_degrees" m = None).
  { intros m Hm. destruct (Hin m Hm) as (k & Hk & E).
    pose proof (Hpos k Hk) as Hk0.
    destruct (rep_metrics_of_spec pos k) as [Hskip Hkeep].
    cbv zeta in Hskip, Hkeep. unfold pos in Hskip, Hkeep.
    rewrite (filter_rep_positive df Hk0) in Hskip, Hkeep. fold pos in Hskip, Hkeep.
    fold (samples_of k) in Hskip, Hkeep.
    destruct (Nat.lt_ge_cases (length (samples_of k)) 3) as [Hlt|Hge];
      [rewrite (Hskip Hlt) in E; discriminate|].
    destruct (Hkeep Hge)
      as (m' & rom & t0 & tl & E' & H1 & H2 & H3 & H4 & H5 & H6 & H7 & H8 & _).
    rewrite E in E'. injection E' as <-.
    exists k, rom, t0, tl. repeat split; assumption. }
  split; [reflexivity|]. split.
  { intros m Hm.
    destruct (Hentry m Hm)
      as (k & rom & t0 & tl & H0 & H1 & H2 & H3 & H4 & H5 & H6 & H7 & H8 & _).
    exists k, rom, t0, tl. repeat split; assumption. }
  split.
  { intros k Hk Hge.
    destruct (rep_metrics_of_spec pos k) as [_ Hkeep]. cbv zeta in Hkeep.
    unfold pos in Hkeep. rewrite (filter_rep_positive df Hk) in Hkeep.
    fold pos in Hkeep. fold (samples_of k) in Hkeep.
    destruct (Hkeep Hge) as (m & rom & t0 & tl & E & Hrep & _).
    exists m. split; [|exact Hrep].
    apply (Hall k m); [|exact E].
    apply sorted_unique_in, in_map_iff.
    destruct (samples_of k) as [|s ss] eqn:Es; [simpl in Hge; lia|].
    assert (Hs : In s (samples_of k)) by (rewrite Es; left; reflexivity).
    unfold samples_of in Hs. apply filter_In in Hs as [Hs Hr].
    apply Z.eqb_eq in Hr. exists s. split; [exact Hr|].
    unfold pos. apply filter_In. split; [exact Hs|]. apply Z.ltb_lt. lia. }
  split.
  { intros Hlt. unfold compute_fatigue_indicators.
    apply Nat.ltb_lt in Hlt. now rewrite Hlt. }
  unfold any_positive, column. apply not_true_is_false. intros Hex.
  apply existsb_exists in Hex as (v & Hv & Hgt).
  apply in_map_iff in Hv as (m & <- & Hm).
  destruct (Hentry m Hm) as (k & rom & t0 & tl & _ & _ & _ & _ & _ & _ & _ & _ & _ & Hdeg).
  unfold get in Hgt. rewrite Hdeg in Hgt. discriminate.
Qed.

End MoreSessions.

Lemma analyze_session_data_reps_witness :
  exists r,
    SessionAnalysis.analyze_session_data (rows flat_labelled_session) = Some r /\
    SessionAnalysis.fatigue_analysis r =
      insufficient_data (length (SessionAnalysis.rep_metrics r)).
Proof.
  destruct (@analyze_session_data_reps RefScipy (rows flat_labelled_session))
    as (r & Hr & _ & _ & _ & Hfew & _).
  exists r. split; [exact Hr|]. apply Hfew.
  vm_compute in Hr. injection Hr as <-. simpl. lia.
Defined.
(** ** The worst indicator and the range of the consistency score *)

Section MoreBounds.
Context {lib : Scipy}.

Lemma worst_indicator_spec (l : list metrics) :
  worst_indicator l ==
  Qmax (Qmax (Qmax 0 (D_omega l)) (Qmax 0 (I_T l)))
       (Qmax (Qmax 0 (I_J l)) (Qmax 0 (I_S l))).
Proof.
  unfold worst_indicator, D_omega_clamped, I_T_clamped, I_J_clamped,
    I_S_clamped.
  generalize (D_omega l) (I_T l) (I_J l) (I_S l). intros D T J S.
  rewrite !py_max_Qmax.
  assert (E : Np.py_max 0 D == Qmax 0 D /\ Np.py_max 0 T == Qmax 0 T /\
              Np.py_max 0 J == Qmax 0 J /\ Np.py_max 0 S == Qmax 0 S)
    by (repeat split; apply py_max_Qmax).
  destruct E as (ED & ET & EJ & ES). revert ED ET EJ ES.
  generalize (Np.py_max 0 D) (Np.py_max 0 T) (Np.py_max 0 J) (Np.py_max 0 S)
             (Qmax 0 D) (Qmax 0 T) (Qmax 0 J) (Qmax 0 S).
  intros d t j s d' t' j' s' ED ET EJ ES.
  max_min_cases; lra.
Qed.

Lemma composite_spec_worst D T J S :
  let w := Qmax (Qmax (Qmax 0 D) (Qmax 0 T)) (Qmax (Qmax 0 J) (Qmax 0 S)) in
  let c := composite_spec D T J S in
  0 <= w /\
  (w <= 0.40 -> 0.20 * w <= c /\ c <= w) /\
  (0.40 < w -> Qmin 1 (0.70 * w - 0.20) <= c /\ c <= 1).
Proof.
  unfold composite_spec.
  assert (Hd0 : 0 <= Qmax 0 D) by apply Q.le_max_l.
  assert (Ht0 : 0 <= Qmax 0 T) by apply Q.le_max_l.
  assert (Hj0 : 0 <= Qmax 0 J) by apply Q.le_max_l.
  assert (Hs0 : 0 <= Qmax 0 S) by apply Q.le_max_l.
  revert Hd0 Ht0 Hj0 Hs0.
  generalize (Qmax 0 D) (Qmax 0 T) (Qmax 0 J) (Qmax 0 S).
  intros d t j s Hd0 Ht0 Hj0 Hs0. cbv zeta.
  assert (Hlo : 0.20 * Qmax (Qmax d t) (Qmax j s) <=
                0.35 * d + 0.25 * t + 0.20 * j + 0.20 * s)
    by (clear - Hd0 Ht0 Hj0 Hs0; max_min_cases; lra).
  assert (Hhi : 0.35 * d + 0.25 * t + 0.20 * j + 0.20 * s <=
                Qmax (Qmax d t) (Qmax j s))
    by (clear - Hd0 Ht0 Hj0 Hs0; max_min_cases; lra).
  assert (Hw0 : 0 <= Qmax (Qmax d t) (Qmax j s))
    by (clear - Hd0 Ht0 Hj0 Hs0; max_min_cases; lra).
  revert Hlo Hhi Hw0.
  generalize (0.35 * d + 0.25 * t + 0.20 * j + 0.20 * s)
             (Qmax (Qmax d t) (Qmax j s)).
  clear. intros c w Hlo Hhi Hw0.
  split; [exact Hw0|].
  destruct (Qlt_le_dec 0.40 w) as [Hb|Hb].
  - split; [intros; lra|]. intros _. max_min_cases; lra.
  - split; [|intros; lra]. intros _. split; lra.
Qed.

Lemma score_of_worst (w score c W : Q) :
  w == W ->
  score == clamp 0 (c * 100) 100 ->
  0 <= W ->
  (W <= 0.40 -> 0.20 * W <= c /\ c <= W) ->
  (0.40 < W -> Qmin 1 (0.70 * W - 0.20) <= c /\ c <= 1) ->
  (w <= 0.40 -> 20 * w <= score /\ score <= 100 * w) /\
  (0.40 < w -> Qmin 100 (70 * w - 20) <= score).
Proof.
  unfold clamp. intros Hw Hs HW0 Hsmall Hbig. split.
  - intros H. destruct Hsmall as [H1 H2]; [lra|]. revert Hs.
    max_min_cases; intros; split; lra.
  - intros H. destruct Hbig as [H1 H2]; [lra|]. revert Hs H1.
    max_min_cases; lra.
Qed.

Lemma level_spec_high (score : Q) :
  36 <= score -> level_spec score = "high" \/ level_spec score = "severe".
Proof.
  intros H36. unfold level_spec.
  destruct (Qlt_le_dec score 10); [lra|].
  destruct (Qlt_le_dec score 20); [lra|].
  destruct (Qlt_le_dec score 35); [lra|].
  destruct (Qlt_le_dec score 55); [left|right]; reflexivity.
Qed.

Lemma fatigue_score_of_worst (l : list metrics) :
  (worst_indicator l <= 0.40 ->
   20 * worst_indicator l <= fatigue_score l /\
   fatigue_score l <= 100 * worst_indicator l) /\
  (0.40 < worst_indicator l ->
   Qmin 100 (70 * worst_indicator l - 20) <= fatigue_score l).
Proof.
  destruct (composite_spec_worst (D_omega l) (I_T l) (I_J l) (I_S l))
    as (HW0 & Hsmall & Hbig).
  exact (score_of_worst (worst_indicator_spec l) (fatigue_score_spec l)
           HW0 Hsmall Hbig).
Qed.

(** X24.  The fatigue score is tied to the worst of the four clamped
    indicators [w]: as long as [w] is at most 0.40 the score lies between
    [20 * w] and [100 * w]; above 0.40 the boost makes it at least
    [70 * w - 20], capped at 100.  So a session in which no indicator
    rises by more than 10 percent scores at most 10, and a rise of 80
    percent or more in any single indicator gives the level ["high"] or
    ["severe"]. *)
Theorem fatigue_score_and_worst_indicator (l : list metrics) :
  let w := worst_indicator l in
  (w <= 0.40 -> 20 * w <= fatigue_score l /\ fatigue_score l <= 100 * w) /\
  (0.40 < w -> Qmin 100 (70 * w - 20) <= fatigue_score l) /\
  (w <= 0.10 -> fatigue_score l <= 10) /\
  (0.80 <= w -> fatigue_level l = "high" \/ fatigue_level l = "severe").
Proof.
  cbv zeta.
  pose proof (fatigue_score_of_worst l) as [Hs1 Hs2].
  pose proof (fatigue_level_spec l) as Hlevel.
  revert Hs1 Hs2 Hlevel.
  generalize (worst_indicator l) (fatigue_score l) (fatigue_level l).
  intros w score level Hs1 Hs2 Hlevel.
  split; [exact Hs1|]. split; [exact Hs2|]. split.
  - intros H10. destruct Hs1 as [_ H]; lra.
  - intros H80. rewrite Hlevel. apply level_spec_high.
    assert (H : Qmin 100 (70 * w - 20) <= score) by (apply Hs2; lra).
    revert H. max_min_cases; lra.
Qed.



End MoreBounds.

Lemma fatigue_score_and_worst_indicator_witness :
  fatigue_score (repeat (rep_of_duration 1000) 3) <= 10.
Proof.
  apply (@fatigue_score_and_worst_indicator (repeat (rep_of_duration 1000) 3)).
  vm_compute. discriminate.
Defined.

